(** * LLM-TextKit: text preprocessing, batching, classification assembly and
    translation, embedded from the Python sources.

    Python strings are lists of Unicode code points, DataFrames are a list of
    column names with a list of rows, exceptions are an explicit result type,
    and the language model is an oracle whose invocations are logged. *)

From Stdlib Require Import NArith ZArith QArith Lia List Ascii String.
From stdpp Require Import base list gmap.

Local Open Scope N_scope.
Local Open Scope nat_scope.

(** ** Python values *)

Module Py.

(** A Python [str]: the sequence of its code points. *)
Abbreviation pystr := (list N).

(** An ASCII literal as a Python string. *)
Definition str (s : string) : pystr :=
  (λ a, N_of_ascii a) <$> list_ascii_of_string s.
Arguments str : simpl never.

Inductive exn :=
  | ValueError (msg : pystr)
  | KeyError (key : pystr)
  | TypeError (msg : pystr)
  | MergeError (msg : pystr)
  | Exception (msg : pystr).

(** [str(e)] of an exception: its message ([KeyError] shows the repr of its
    key, quoted). *)
Definition exn_str (e : exn) : pystr :=
  match e with
  | ValueError m | TypeError m | MergeError m | Exception m => m
  | KeyError k => str "'" ++ k ++ str "'"
  end.

Inductive result (A : Type) :=
  | Ok (a : A)
  | Raise (e : exn).
Arguments Ok {A} a.
Arguments Raise {A} e.

#[export] Instance result_ret : MRet result := λ A a, Ok a.
#[export] Instance result_bind : MBind result := λ A B f m,
  match m with Ok a => f a | Raise e => Raise e end.

Definition is_ok {A} (r : result A) : bool :=
  match r with Ok _ => true | Raise _ => false end.

(** [for x in xs] with a body that may raise: stops at the first exception. *)
Fixpoint for_each {A B} (f : A → result B) (xs : list A) : result (list B) :=
  match xs with
  | [] => Ok []
  | x :: xs' => y ← f x; ys ← for_each f xs'; Ok (y :: ys)
  end.

(** [range(start, stop, step)] for a positive step, by iteration. *)
Fixpoint range_from (fuel i stop step : nat) : list nat :=
  match fuel with
  | O => []
  | S fuel' =>
      if decide (i < stop) then i :: range_from fuel' (i + step) stop step
      else []
  end.

(** [range(0, stop, step)] with an integer step: zero raises, a negative
    step yields nothing. *)
Definition range0 (stop : nat) (step : Z) : result (list nat) :=
  if decide (step = 0)%Z then
    Raise (ValueError (str "range() arg 3 must not be zero"))
  else if decide (step < 0)%Z then Ok []
  else Ok (range_from stop 0 stop (Z.to_nat step)).

(** [xs[i : j]] for [0 <= i <= j]. *)
Definition slice {A} (xs : list A) (i j : nat) : list A :=
  take (j - i) (drop i xs).

(** [sep.join(xs)] on strings. *)
Fixpoint join (sep : pystr) (xs : list pystr) : pystr :=
  match xs with
  | [] => []
  | [x] => x
  | x :: xs' => x ++ sep ++ join sep xs'
  end.

(** [len(set(text))]. *)
Definition distinct_count (t : pystr) : nat := length (remove_dups t).

(** Decimal digits of a number, most significant first ([str(n)]). *)
Fixpoint to_digits (fuel : nat) (n : N) : pystr :=
  match fuel with
  | O => []
  | S fuel' =>
      if (n <? 10)%N then [(48 + n)%N]
      else to_digits fuel' (n / 10)%N ++ [(48 + n mod 10)%N]
  end.

Definition format_d (n : N) : pystr := to_digits (S (N.to_nat (N.log2 n))) n.

(** The format specification [0{w}d]: zero fill on the left up to width [w]. *)
Definition format_0wd (w : nat) (n : N) : pystr :=
  let ds := format_d n in replicate (w - length ds) 48%N ++ ds.

(** [int(s)] on a string of decimal digits. *)
Definition digits_value (s : pystr) : N :=
  foldl (λ acc c, (10 * acc + (c - 48))%N) 0%N s.

Definition is_decimal_digit (c : N) : bool := (48 <=? c)%N && (c <=? 57)%N.

End Py.
Import Py.

(** ** Unicode tables

    The character classes the code consults are tables of the Python runtime
    and of the [regex] module; they are a parameter of the development. *)

Class UnicodeDB := {
  py_isspace : N → bool;   (* str.isspace, as used by str.strip() *)
  py_isdigit : N → bool;   (* str.isdigit on one character *)
  re_space : N → bool;     (* \s *)
  re_punct : N → bool;     (* \p{P} *)
  re_letter : N → bool;    (* \p{L} *)
  re_number : N → bool;    (* \p{N} *)
}.

(** What the proofs use of the real tables: general categories are disjoint,
    white space is neither a letter nor a number, and line feed is white
    space. *)
Record UnicodeLaws (db : UnicodeDB) : Prop := {
  alnum_not_pyspace : ∀ c, re_letter c || re_number c = true → py_isspace c = false;
  alnum_not_respace : ∀ c, re_letter c || re_number c = true → re_space c = false;
  alnum_not_punct : ∀ c, re_letter c || re_number c = true → re_punct c = false;
  linefeed_pyspace : py_isspace 10%N = true;
}.

(** The Basic Latin block (code points below 128) of those tables, with the
    CJK unified ideographs as letters; every other code point is in no
    class. *)
Definition in_range (lo hi c : N) : bool := (lo <=? c)%N && (c <=? hi)%N.

Definition latin_isspace (c : N) : bool := in_range 9 13 c || in_range 28 32 c.

Definition latin_white_space (c : N) : bool := in_range 9 13 c || (c =? 32)%N.

Definition latin_punct (c : N) : bool :=
  in_range 33 35 c || in_range 37 42 c || in_range 44 47 c
  || in_range 58 59 c || in_range 63 64 c || in_range 91 93 c
  || (c =? 95)%N || (c =? 123)%N || (c =? 125)%N.

Definition latin_letter (c : N) : bool :=
  in_range 65 90 c || in_range 97 122 c || in_range 19968 40959 c.

#[export] Instance basic_latin : UnicodeDB := {|
  py_isspace := latin_isspace;
  py_isdigit := in_range 48 57;
  re_space := latin_white_space;
  re_punct := latin_punct;
  re_letter := latin_letter;
  re_number := in_range 48 57;
|}.

(** ** DataFrames *)

Inductive cell :=
  | NaN
  | Str (s : pystr).

#[export] Instance cell_eq_dec : EqDecision cell.
Proof. solve_decision. Defined.

Definition isna (c : cell) : bool :=
  match c with NaN => true | Str _ => false end.

(** [str(v)] of a cell. *)
Definition cell_str (c : cell) : pystr :=
  match c with NaN => str "nan" | Str s => s end.

(** A frame of text data: ordered column names and, per row, the cell of each
    column. *)
Record DataFrame := {
  columns : list pystr;
  rows : list (gmap pystr cell);
}.

Definition cell_at (col : pystr) (r : gmap pystr cell) : cell :=
  default NaN (r !! col).

(** [df[col]]: the values of a column, [KeyError] when there is none. *)
Definition getitem (df : DataFrame) (col : pystr) : result (list cell) :=
  if decide (col ∈ columns df) then Ok (cell_at col <$> rows df)
  else Raise (KeyError col).

(** [df[col] = values] with one value per row. *)
Definition setitem (df : DataFrame) (col : pystr) (vals : list cell) : DataFrame :=
  {| columns := if decide (col ∈ columns df) then columns df
                else columns df ++ [col];
     rows := zip_with (λ r v, <[col := v]> r) (rows df) vals |}.

(** [df.dropna(subset=cols, how=...)]. *)
Definition keep_any (cols : list pystr) (r : gmap pystr cell) : bool :=
  forallb (λ c, negb (isna (cell_at c r))) cols.

Definition keep_all (cols : list pystr) (r : gmap pystr cell) : bool :=
  existsb (λ c, negb (isna (cell_at c r))) cols.

Definition dropna (df : DataFrame) (cols : list pystr) (how_any : bool) : DataFrame :=
  {| columns := columns df;
     rows := List.filter (if how_any then keep_any cols else keep_all cols) (rows df) |}.

(** The dtype of a column is not determined by its cells: a column of [None]
    alone has dtype object and a column of NaN alone has not, and a column of
    strings has dtype object or, in later versions of the frame library, a
    string dtype. The test [dtype == "object"], which is also the one of
    [select_dtypes(include=["object"])], is therefore a parameter: what is
    proved holds for whatever it answers. *)
Class Dtypes := {
  object_dtype : DataFrame → pystr → bool;
}.

(** The dtypes of a frame read from a CSV file, where a column has dtype
    object exactly when it holds a string. *)
#[export] Instance string_columns : Dtypes := {|
  object_dtype df col := existsb (λ r, negb (isna (cell_at col r))) (rows df);
|}.

(** ** utils/text_utils.py *)

Section TextUtils.
Context {db : UnicodeDB} {dt : Dtypes}.

(** [text.strip()]: leading and trailing white space removed. *)
Fixpoint lstrip (t : pystr) : pystr :=
  match t with
  | c :: t' => if py_isspace c then lstrip t' else t
  | [] => []
  end.

Definition rstrip (t : pystr) : pystr := reverse (lstrip (reverse t)).

Definition strip (t : pystr) : pystr := rstrip (lstrip t).

(** [text.isdigit()]: non-empty and every character a digit. *)
Definition isdigit (t : pystr) : bool :=
  match t with [] => false | _ => forallb py_isdigit t end.

(** The anchor [$]: the end of the text, or just before a final line feed. *)
Definition at_end (t : pystr) : bool :=
  match t with
  | [] => true
  | [c] => (c =? 10)%N
  | _ => false
  end.

(** [re.match] of the pattern [^[\s\p{P}]+$]: one or more characters, each
    white space or punctuation, up to the end. *)
Fixpoint match_space_punct (t : pystr) : bool :=
  match t with
  | [] => false
  | c :: t' => (re_space c || re_punct c) && (match_space_punct t' || at_end t')
  end.

(** The dot matches every character but the line feed. *)
Definition dot (c : N) : bool := negb (c =? 10)%N.

(** A starred back-reference to [c], then the rest of the pattern [k]:
    as many repetitions of [c] as possible first, fewer on failure. *)
Fixpoint backref_star (c : N) (k : pystr → bool) (t : pystr) : bool :=
  match t with
  | x :: t' => ((x =? c)%N && backref_star c k t') || k t
  | [] => k []
  end.

(** One group, a character and its starred back-reference, followed by [k]. *)
Definition run_group (k : pystr → bool) (t : pystr) : bool :=
  match t with
  | x :: t' => dot x && backref_star x k t'
  | [] => false
  end.

(** [re.match] of the runs pattern of [is_valid_text]: a first group, a
    character with repeated back-references to it, then at most two more such
    groups, then the end. *)
Definition match_runs (t : pystr) : bool :=
  run_group (λ t1, run_group (λ t2, run_group at_end t2 || at_end t2) t1
                   || at_end t1) t.

(** [re.search] of the class [[\p{L}\p{N}]]: some letter or number. *)
Definition search_alnum (t : pystr) : bool :=
  existsb (λ c, re_letter c || re_number c) t.

Definition is_valid_text (text : cell) : bool :=
  if isna text then false
  else
    let text := strip (cell_str text) in
    if bool_decide (text = [])
       || match_space_punct text
       || isdigit text
       || bool_decide (distinct_count text = 1)
       || match_runs text
       || negb (search_alnum text)
    then false
    else true.

Definition filter_invalid_text (df : DataFrame) (text_col : pystr) : result DataFrame :=
  if decide (text_col ∈ columns df) then
    Ok {| columns := columns df;
          rows := List.filter (λ r, is_valid_text (cell_at text_col r)) (rows df) |}
  else
    Raise (ValueError (str "Specified column '" ++ text_col
                         ++ str "' does not exist in DataFrame")).

(** [Series.str.replace] of a carriage return and line feed, or of a line
    feed alone, by one space, on one value. *)
Fixpoint replace_newlines (t : pystr) : pystr :=
  match t with
  | 13%N :: 10%N :: t' => 32%N :: replace_newlines t'
  | 10%N :: t' => 32%N :: replace_newlines t'
  | c :: t' => c :: replace_newlines t'
  | [] => []
  end.

(** The [.str] accessor leaves a missing value missing. *)
Definition str_replace_newlines (c : cell) : cell :=
  match c with NaN => NaN | Str s => Str (replace_newlines s) end.

(** One rendered row: the stringified cells joined by [ | ] between a leading
    and a trailing bar, and a line feed. *)
Definition render_row (cols : list pystr) (r : gmap pystr cell) : pystr :=
  str "| " ++ join (str " | ") ((λ c, cell_str (cell_at c r)) <$> cols)
  ++ str " |" ++ [10%N].

Definition table_header (cols : list pystr) : pystr :=
  str "| " ++ join (str " | ") cols ++ str " |" ++ [10%N].

Definition table_separator (cols : list pystr) : pystr :=
  str "| " ++ join (str " | ") (replicate (length cols) (str "---"))
  ++ str " |" ++ [10%N].

Definition render_table (cols : list pystr) (subset : list (gmap pystr cell)) : pystr :=
  table_header cols ++ table_separator cols ++ concat (render_row cols <$> subset).

(** The rows the tables are made of: missing values dropped, then line breaks
    replaced in the selected columns whose dtype is object. *)
Definition table_data (df : DataFrame) (cols : list pystr) (how_any : bool)
  : list (gmap pystr cell) :=
  let cleaned_df := dropna df cols how_any in
  (λ r, foldr (λ c r', if object_dtype cleaned_df c
                       then <[c := str_replace_newlines (cell_at c r)]> r'
                       else r')
              r cols)
    <$> rows cleaned_df.

Inductive tables_output :=
  | TablesList (tables : list pystr)
  | TablesFrame (column : pystr) (tables : list pystr).

Definition dataframe_to_markdown_tables (df : DataFrame) (cols : list pystr)
    (rows_per_table : Z) (nan_drop_method output_format : pystr)
  : result tables_output :=
  if negb (forallb (λ c, bool_decide (c ∈ columns df)) cols) then
    Raise (ValueError (str "cols must be a valid list of column names"))
  else if bool_decide (rows_per_table ≤ 0)%Z then
    Raise (ValueError (str "rows_per_table must be a positive integer"))
  else if negb (bool_decide (nan_drop_method ∈ [str "any"; str "all"])) then
    Raise (ValueError (str "nan_drop_method must be 'any' or 'all'"))
  else if negb (bool_decide (output_format ∈ [str "list"; str "dataframe"])) then
    Raise (ValueError (str "output_format must be 'list' or 'dataframe'"))
  else
    let data := table_data df cols (bool_decide (nan_drop_method = str "any")) in
    starts ← range0 (length data) rows_per_table;
    let markdown_tables :=
      (λ start_index,
         render_table cols
           (slice data start_index (start_index + Z.to_nat rows_per_table)))
        <$> starts in
    Ok (if bool_decide (output_format = str "list") then TablesList markdown_tables
        else TablesFrame (str "Markdown Table") markdown_tables).

End TextUtils.

(** ** utils/llm_tools.py *)

Module LlmTools.

(** The dynamically typed arguments of the constructor. *)
Inductive pyobj :=
  | PyNone
  | PyStr (s : pystr)
  | PyInt (z : Z)
  | PyClass (name : pystr) (bases : list pystr) (attrs : list pystr)
  | PyObject (attrs : list pystr).

(** [issubclass(cls, base)]: a class is a subclass of itself and of the
    classes it derives from; anything but a class is a [TypeError]. *)
Definition issubclass (cls : pyobj) (base : pystr) : result bool :=
  match cls with
  | PyClass name bases _ => Ok (bool_decide (base ∈ name :: bases))
  | _ => Raise (TypeError (str "issubclass() arg 1 must be a class"))
  end.

Definition isinstance_str (o : pyobj) : bool :=
  match o with PyStr _ => true | _ => false end.

Definition hasattr (o : pyobj) (name : pystr) : bool :=
  match o with
  | PyClass _ _ attrs | PyObject attrs => bool_decide (name ∈ attrs)
  | _ => false
  end.

Definition format_instructions : pystr := str "
Output your answer as a JSON object that conforms to the following schema:
```json
{schema}
```

Important instructions:
1. Ensure your JSON is valid and properly formatted.
2. Do not include the schema definition in your answer.
3. Only output the data instance that matches the schema.
4. Do not include any explanations or comments within the JSON output.
        ".

Section Constructor.

(** What the constructor leaves to the libraries it imports: the parser of
    the schema class, the prompt built from the two templates with the schema
    filled in, and the composition of prompt, model and parser into the
    chain. The libraries are not part of the sources: their outcome on the
    schema class, the system template, the user template and the model, a
    chain or the exception they raise, is a parameter. *)
Variable Runnable : Type.
Variable build_chain : pyobj → pystr → pystr → pyobj → result Runnable.

Record LanguageModelChain := {
  model_cls : pyobj;
  chain : Runnable;
}.

(** [LanguageModelChain.__init__]: the three checks, then the chain built
    from the system message with the format instructions appended and the
    user message. *)
Definition init (model_cls sys_msg user_msg model : pyobj) : result LanguageModelChain :=
  sub ← issubclass model_cls (str "BaseModel");
  if negb sub then
    Raise (ValueError (str "model_cls must be a subclass of Pydantic BaseModel"))
  else
    match sys_msg, user_msg with
    | PyStr s, PyStr u =>
        if negb (hasattr model (str "invoke")) then
          Raise (ValueError
            (str "model must be a LangChain Runnable object (must have invoke method)"))
        else
          chain ← build_chain model_cls (s ++ format_instructions) u model;
          Ok {| model_cls := model_cls; chain := chain |}
    | _, _ => Raise (ValueError (str "sys_msg and user_msg must be strings"))
    end.

End Constructor.

End LlmTools.

(** ** backend/clustering/clustering_workflow.py *)

Section Clustering.
Context {db : UnicodeDB} {dt : Dtypes}.

(** [f"ID{i:06d}"] for [i] in [range(1, len(df) + 1)]. *)
Definition unique_id_of (i : nat) : pystr := str "ID" ++ format_0wd 6 (N.of_nat i).

Definition generate_unique_ids (df : DataFrame) : DataFrame :=
  setitem df (str "unique_id")
    ((λ i, Str (unique_id_of i)) <$> seq 1 (length (rows df))).

(** [sep.join(values)]: a value that is not a string is a [TypeError]. *)
Definition join_cells (sep : pystr) (cs : list cell) : result pystr :=
  if forallb (λ c, negb (isna c)) cs then Ok (join sep (cell_str <$> cs))
  else Raise (TypeError (str "sequence item: expected str instance, float found")).

Definition batch_texts (df : DataFrame) (text_column : pystr) (batch_size : Z)
  : result (list pystr) :=
  starts ← range0 (length (rows df)) batch_size;
  for_each
    (λ i, col ← getitem df text_column;
          join_cells (str " ") (slice col i (i + Z.to_nat batch_size)))
    starts.

(** Modelled from the spec: the record type [ClassificationResult] of
    backend/clustering/clustering_core.py is not part of the sources. A
    classification record names a row and carries its categories: one
    category name in single-label mode, a set of category names in
    multi-label mode. In the parsed JSON answer the set is a list of
    names. *)
Inductive payload :=
  | One (name : pystr)
  | Many (names : list pystr).

Record ClassificationRecord := {
  rec_id : pystr;
  rec_categories : payload;
}.

(** What one invocation of the classification chain is given. *)
Record ChainInput := {
  text_topic : pystr;
  categories : list (pystr * pystr);
  text_table : pystr;
}.

(** The [classifications] entry of a parsed answer. The parser checks the
    answer against no schema: the entry is a list of records, or a value that
    is no list and cannot extend one (null, a number, a boolean). An entry
    that is a string or an object, which would extend a list by its
    characters or keys, is not covered. *)
Inductive entry :=
  | Records (classifications : list ClassificationRecord)
  | NotAList.

Definition records_of (e : entry) : list ClassificationRecord :=
  match e with Records classifications => classifications | NotAList => [] end.

(** The chain: the number of earlier invocations and the input give either an
    exception or the parsed answer, whose [classifications] entry may be
    missing. *)
Definition Chain := nat → ChainInput → result (option entry).

(** What a run leaves behind: the inputs of its model invocations and the
    checkpoints it wrote, oldest first. *)
Record Trace := {
  invocations : list ChainInput;
  checkpoints : list (list ClassificationRecord);
}.

(** [classify_single_batch]: the entry as it is; an exception of the
    invocation or a missing entry gives the empty list. *)
Definition classify_single_batch (chain : Chain) (calls : nat) (text_batch : pystr)
    (cats : list (pystr * pystr)) (topic : pystr) : entry :=
  match chain calls {| text_topic := topic; categories := cats;
                       text_table := text_batch |} with
  | Ok (Some classifications) => classifications
  | Ok None => Records []
  | Raise _ => Records []
  end.

(** The loop over the tables: each table is sent; its records extend the
    list, which is then written to the checkpoint file. When the entry cannot
    extend the list the exception is caught around both steps: the list
    stays as it is and nothing is written. The write itself is taken to
    succeed. *)
Definition classify_step (chain : Chain) (cats : list (pystr * pystr)) (topic : pystr)
    (st : Trace * list ClassificationRecord) (table : pystr)
  : Trace * list ClassificationRecord :=
  let '(tr, classification_results) := st in
  let invoked :=
    invocations tr
      ++ [{| text_topic := topic; categories := cats; text_table := table |}] in
  match classify_single_batch chain (length (invocations tr)) table cats topic with
  | Records result =>
      let classification_results := classification_results ++ result in
      ({| invocations := invoked;
          checkpoints := checkpoints tr ++ [classification_results] |},
       classification_results)
  | NotAList =>
      ({| invocations := invoked; checkpoints := checkpoints tr |},
       classification_results)
  end.

Definition classify_loop (chain : Chain) (cats : list (pystr * pystr)) (topic : pystr)
    (tables : list pystr) : Trace * list ClassificationRecord :=
  foldl (classify_step chain cats topic)
        ({| invocations := []; checkpoints := [] |}, []) tables.

(** Values of a frame of results: a missing value, a string, a boolean or
    a list of names. *)
Inductive value :=
  | VNaN
  | VStr (s : pystr)
  | VBool (b : bool)
  | VList (names : list pystr).

(** The assembled frame: column labels, which may repeat, and the rows by
    position. *)
Record ResultFrame := {
  rcolumns : list pystr;
  rrows : list (list value);
}.

Definition lift (c : cell) : value :=
  match c with NaN => VNaN | Str s => VStr s end.

Definition payload_value (p : payload) : value :=
  match p with One name => VStr name | Many names => VList names end.

(** A row under construction: its labelled values in column order. *)
Abbreviation lrow := (list (pystr * value)).

(** Labels that both frames have get the suffixes [_x] and [_y]. *)
Definition right_columns : list pystr := [str "id"; str "categories"].

Definition suffixed (others : list pystr) (suffix : pystr) (c : pystr) : pystr :=
  if decide (c ∈ others) then c ++ suffix else c.

Definition suffix_clash (left : list pystr) : bool :=
  existsb (λ c, bool_decide (c ∈ left)
                && (bool_decide (c ++ str "_x" ∈ left)
                    || bool_decide (c ++ str "_y" ∈ left)))
          right_columns.

(** [df.merge(pd.DataFrame(results), left_on="unique_id", right_on="id",
    how="left")]: the rows of [df] in order, each once per record of its
    identifier, or once with missing values when it has none. A frame built
    from no record has no column. *)
Definition merge_row (left : list pystr) (results : list ClassificationRecord)
    (r : gmap pystr cell) : list lrow :=
  let base := (λ c, (suffixed right_columns (str "_x") c, lift (cell_at c r))) <$> left in
  let idl := suffixed left (str "_y") (str "id") in
  let catl := suffixed left (str "_y") (str "categories") in
  match List.filter (λ rec, bool_decide (Str (rec_id rec) = cell_at (str "unique_id") r))
                    results with
  | [] => [base ++ [(idl, VNaN); (catl, VNaN)]]
  | matches =>
      (λ rec, base ++ [(idl, VStr (rec_id rec));
                       (catl, payload_value (rec_categories rec))]) <$> matches
  end.

Definition merge_left (df : DataFrame) (results : list ClassificationRecord)
  : result (list pystr * list lrow) :=
  match results with
  | [] => Raise (KeyError (str "id"))
  | _ =>
      if negb (bool_decide (str "unique_id" ∈ columns df)) then
        Raise (KeyError (str "unique_id"))
      else if suffix_clash (columns df) then
        Raise (MergeError (str "Passing 'suffixes' which cause duplicate columns is not allowed."))
      else
        Ok ((suffixed right_columns (str "_x") <$> columns df)
              ++ [suffixed (columns df) (str "_y") (str "id");
                  suffixed (columns df) (str "_y") (str "categories")],
            concat (merge_row (columns df) results <$> rows df))
  end.

(** [frame.drop(columns=names)]: every name must be a label. *)
Definition drop_columns (names : list pystr) (frame : list pystr * list lrow)
  : result (list pystr * list lrow) :=
  match List.filter (λ n, negb (bool_decide (n ∈ frame.1))) names with
  | [] => Ok (List.filter (λ c, negb (bool_decide (c ∈ names))) frame.1,
              List.filter (λ p, negb (bool_decide (p.1 ∈ names))) <$> frame.2)
  | missing :: _ => Raise (KeyError (str "['" ++ missing ++ str "'] not found in axis"))
  end.

(** Index labels of a series. *)
Inductive label :=
  | LInt (n : nat)
  | LStr (s : pystr).

#[export] Instance label_eq_dec : EqDecision label.
Proof. solve_decision. Defined.

Definition label_str (l : label) : pystr :=
  match l with LInt n => format_d (N.of_nat n) | LStr s => s end.

(** [pd.Series(v)]: a list gives one entry per position, any other value a
    single entry at position 0. *)
Definition pd_series (v : value) : list (label * value) :=
  match v with
  | VList names => imap (λ i name, (LInt i, VStr name)) names
  | _ => [(LInt 0, v)]
  end.

(** The labels of several series, each once, in order of first appearance. *)
Definition union_labels (ls : list label) : list label :=
  reverse (remove_dups (reverse ls)).

Definition series_get (s : list (label * value)) (l : label) : value :=
  match List.find (λ p, bool_decide (p.1 = l)) s with
  | Some p => p.2
  | None => VNaN
  end.

Definition column_of (name : pystr) (row : lrow) : value :=
  match List.find (λ p, bool_decide (p.1 = name)) row with
  | Some p => p.2
  | None => VNaN
  end.

(** [frame["categories"].apply(pd.Series).add_prefix("category_")], joined to
    the frame without its [categories] column. *)
Definition expand_categories (frame : list pystr * list lrow)
  : result (list pystr * list lrow) :=
  if negb (bool_decide (str "categories" ∈ frame.1)) then
    Raise (KeyError (str "categories"))
  else
    let series := (λ row, pd_series (column_of (str "categories") row)) <$> frame.2 in
    let labels := union_labels (concat ((λ s, fst <$> s) <$> series)) in
    rest ← drop_columns [str "categories"] frame;
    Ok (rest.1 ++ ((λ l, str "category_" ++ label_str l) <$> labels),
        zip_with (λ row s,
                    row ++ ((λ l, (str "category_" ++ label_str l, series_get s l))
                              <$> labels))
                 rest.2 series).

Definition to_frame (frame : list pystr * list lrow) : ResultFrame :=
  {| rcolumns := frame.1; rrows := (λ row : lrow, snd <$> row) <$> frame.2 |}.

Definition assemble (df : DataFrame) (results : list ClassificationRecord)
    (is_multi_label : bool) : result ResultFrame :=
  merged ← merge_left df results;
  df_result ← drop_columns [str "unique_id"; str "id"] merged;
  if is_multi_label then
    expanded ← expand_categories df_result; Ok (to_frame expanded)
  else Ok (to_frame df_result).

Definition no_trace : Trace := {| invocations := []; checkpoints := [] |}.

Definition classify_texts (chain : Chain) (df : DataFrame) (text_column id_column : pystr)
    (cats : list (pystr * pystr)) (topic : pystr)
    (classification_batch_size : Z) (is_multi_label : bool)
  : Trace * result ResultFrame :=
  match dataframe_to_markdown_tables df [id_column; text_column]
          classification_batch_size (str "any") (str "list") with
  | Raise e => (no_trace, Raise e)
  | Ok (TablesList markdown_tables) | Ok (TablesFrame _ markdown_tables) =>
      let '(tr, classification_results) := classify_loop chain cats topic markdown_tables in
      (tr, assemble df classification_results is_multi_label)
  end.

End Clustering.

(** ** backend/translation/translator.py and frontend/page/ai_translation.py *)

Section Translation.

(** The translation chain: the text and the topic give either an exception or
    the parsed answer, whose [translated_text] entry may be missing. *)
Variable translation_chain : cell → pystr → result (option pystr).

(** The texts the model was invoked on, oldest first. *)
Abbreviation Calls := (list cell).

(** [Translator.translate]: one invocation; an answer without
    [translated_text] is a [ValueError]; every exception is raised again. *)
Definition translate (calls : Calls) (text : cell) (text_topic : pystr)
  : Calls * result pystr :=
  (calls ++ [text],
   match translation_chain text text_topic with
   | Ok (Some translated_text) => Ok translated_text
   | Ok None => Raise (ValueError (str "Translation result format is incorrect"))
   | Raise e => Raise e
   end).

(** [re.findall] of the class from U+4E00 to U+9FFF. *)
Definition chinese_chars (text : pystr) : pystr :=
  List.filter (in_range 19968 40959) text.

(** The quotient of the two lengths is compared with 0.5 as a rational: for
    lengths below 2^53 the correctly rounded float quotient is at least 0.5
    exactly when the rational one is. *)
Definition contains_chinese (text : cell) : bool :=
  match text with
  | Str text =>
      if bool_decide (text = []) then false
      else Qle_bool (1 # 2)
             (Z.of_nat (length (chinese_chars text)) # Pos.of_nat (length text))
  | NaN => false
  end.

(** The inline error text of the single-text entry point. *)
Definition error_prefix : pystr := [32763; 35793; 38169; 35823; 58; 32]%N.

Definition translate_text (calls : Calls) (text : cell) (text_topic : pystr)
  : Calls * cell :=
  if contains_chinese text then (calls, text)
  else
    match translate calls text text_topic with
    | (calls', Ok translated) => (calls', Str translated)
    | (calls', Raise e) => (calls', Str (error_prefix ++ exn_str e))
    end.

Definition translate_with_semaphore (calls : Calls) (text : cell) (text_topic : pystr)
  : Calls * result cell :=
  if contains_chinese text then (calls, Ok text)
  else
    match translate calls text text_topic with
    | (calls', Ok translated) => (calls', Ok (Str translated))
    | (calls', Raise e) => (calls', Raise e)
    end.

(** [asyncio.gather] over the tasks, taken in list order: the results in
    input order, or the first exception a task raises. Which texts were
    already sent when an exception surfaces depends on the schedule; the log
    is the one of the run in list order. *)
Fixpoint gather (calls : Calls) (texts : list cell) (text_topic : pystr)
  : Calls * result (list cell) :=
  match texts with
  | [] => (calls, Ok [])
  | text :: texts' =>
      match translate_with_semaphore calls text text_topic with
      | (calls', Ok t) =>
          match gather calls' texts' text_topic with
          | (calls'', Ok ts) => (calls'', Ok (t :: ts))
          | (calls'', Raise e) => (calls'', Raise e)
          end
      | (calls', Raise e) => (calls', Raise e)
      end
  end.

Definition batch_translate (texts : list cell) (text_topic : pystr)
  : Calls * result (list cell) :=
  gather [] texts text_topic.

(** [perform_translation]: the texts of the column through [batch_translate],
    stored as the column [translated_text]. *)
Definition perform_translation (df : DataFrame) (text_column text_topic : pystr)
  : Calls * result DataFrame :=
  match getitem df text_column with
  | Raise e => ([], Raise e)
  | Ok texts_to_translate =>
      match batch_translate texts_to_translate text_topic with
      | (calls, Ok translated_texts) =>
          (calls, Ok (setitem df (str "translated_text") translated_texts))
      | (calls, Raise e) => (calls, Raise e)
      end
  end.

End Translation.

(** ** Specification predicates and sample inputs *)

(** Cutting [l] into [groups] of [size]: the k-th group is the slice of
    [l] that starts at [k * size]. *)
Definition is_batching {A} (size : nat) (l : list A) (groups : list (list A)) : Prop :=
  length groups = (length l + size - 1) / size
  ∧ concat groups = l
  ∧ ∀ k g, groups !! k = Some g →
      g = take size (drop (k * size) l)
      ∧ 1 ≤ length g ≤ size
      ∧ (k + 1 < length groups → length g = size).

Definition demo_frame : DataFrame :=
  {| columns := [str "text"];
     rows := [ {[ str "text" := Str (str "good service") ]};
               {[ str "text" := Str (str "slow delivery") ]};
               {[ str "text" := Str (str "fair price") ]} ] |}.


(** [w] is a non-repeating alphanumeric sequence of [t] of at least [n]
    characters: a contiguous stretch of pairwise distinct letters or
    numbers. *)
Definition alnum_stretch {db : UnicodeDB} (n : nat) (t w : pystr) : Prop :=
  (∃ pre post, t = pre ++ w ++ post)
  ∧ n ≤ length w
  ∧ NoDup w
  ∧ Forall (λ c, re_letter c || re_number c = true) w.

Definition contains_distinct_alnum {db : UnicodeDB} (n : nat) (t : pystr) : Prop :=
  ∃ w, alnum_stretch n t w.

(** Number of places where a text changes from one character to another. *)
Fixpoint changes (t : pystr) : nat :=
  match t with
  | x :: (y :: _) as t' => (if decide (x = y) then 0 else 1) + changes t'
  | _ => 0
  end.

Definition mixed_frame : DataFrame :=
  {| columns := [str "text"];
     rows := [ {[ str "text" := Str [] ]};
               {[ str "text" := Str (str "hello world this is valid") ]};
               {[ str "text" := Str (str "???") ]};
               {[ str "text" := NaN ]};
               {[ str "text" := Str (str "late but fine") ]} ] |}.

(** A text is mostly CJK: it is not empty and at least half of its characters
    are in the range U+4E00 to U+9FFF. *)
Definition is_cjk (c : N) : Prop := (19968 ≤ c ≤ 40959)%N.

#[export] Instance is_cjk_dec c : Decision (is_cjk c).
Proof. unfold is_cjk. apply _. Defined.

Definition mostly_cjk (s : pystr) : Prop :=
  s ≠ [] ∧ length s ≤ 2 * length (filter is_cjk s).

(** A translation chain that fails on one text. *)
Definition failing_chain (text : cell) (topic : pystr) : result (option pystr) :=
  if decide (text = Str (str "bad input")) then Raise (Exception (str "timeout"))
  else Ok (Some (str "ok")).

(** A schema class deriving from [BaseModel] and a model with an [invoke]
    method. *)
Definition schema_class : LlmTools.pyobj :=
  LlmTools.PyClass (str "TranslatedText") [str "BaseModel"] [].

Definition runnable_model : LlmTools.pyobj :=
  LlmTools.PyObject [str "invoke"; str "ainvoke"].

(** Libraries that build a chain from every schema class, pair of templates
    and model, here the pair of the templates, and libraries that refuse
    every template. *)
Definition accepting_libraries (model_cls : LlmTools.pyobj)
    (system_template human_template : pystr) (model : LlmTools.pyobj)
  : result (pystr * pystr) :=
  Ok (system_template, human_template).

Definition refusing_libraries (model_cls : LlmTools.pyobj)
    (system_template human_template : pystr) (model : LlmTools.pyobj)
  : result (pystr * pystr) :=
  Raise (ValueError (str "invalid template")).

(** A frame as the preprocessing leaves it for classification: it has the
    identifier column and no column named like those of the records. *)
Definition plain_frame (df : DataFrame) : Prop :=
  (str "unique_id" ∈ columns df)
  ∧ (str "id" ∉ columns df)
  ∧ (str "categories" ∉ columns df).

(** The records that carry the identifier of a row. *)
Definition matching (results : list ClassificationRecord) (r : gmap pystr cell)
  : list ClassificationRecord :=
  List.filter (λ rec, bool_decide (Str (rec_id rec) = cell_at (str "unique_id") r)) results.

(** The rows of the left join: every row with each of its records, or with
    none. *)
Definition joined (df : DataFrame) (results : list ClassificationRecord)
  : list (gmap pystr cell * option ClassificationRecord) :=
  concat ((λ r, match matching results r with
                | [] => [(r, None)]
                | ms => (λ rec, (r, Some rec)) <$> ms
                end) <$> rows df).

(** The columns of the input that the result keeps, and their values. *)
Definition kept_columns (df : DataFrame) : list pystr :=
  List.filter (λ c, negb (bool_decide (c = str "unique_id"))) (columns df).

Definition kept_values (df : DataFrame) (r : gmap pystr cell) : list value :=
  (λ c, lift (cell_at c r)) <$> kept_columns df.

(** The classification field of a joined row: missing without a record. *)
Definition categories_value (o : option ClassificationRecord) : value :=
  match o with
  | Some rec => payload_value (rec_categories rec)
  | None => VNaN
  end.

(** The label of the column the expansion makes for a position. *)
Definition position_column (i : nat) : pystr :=
  str "category_" ++ format_d (N.of_nat i).

(** The classification field of a joined row read by position: the names of
    the set in the order of the list, the one name of a single label, or one
    missing value without a record. *)
Definition by_position (o : option ClassificationRecord) : list value :=
  match o with
  | Some rec =>
      match rec_categories rec with
      | Many names => VStr <$> names
      | One name => [VStr name]
      end
  | None => [VNaN]
  end.

Definition at_position (o : option ClassificationRecord) (i : nat) : value :=
  default VNaN (by_position o !! i).

(** The multi-label scenario: two rows, the first classified as A and B, the
    second as B only. *)
Definition two_rows : DataFrame :=
  {| columns := [str "text"; str "unique_id"];
     rows := [ {[ str "text" := Str (str "first text");
                  str "unique_id" := Str (str "ID000001") ]};
               {[ str "text" := Str (str "second text");
                  str "unique_id" := Str (str "ID000002") ]} ] |}.

Definition two_records : list ClassificationRecord :=
  [ {| rec_id := str "ID000001"; rec_categories := Many [str "A"; str "B"] |};
    {| rec_id := str "ID000002"; rec_categories := Many [str "B"] |} ].

(** The row of the frame [cleaned_df] as the tables show it: line breaks
    replaced in the selected columns whose dtype is object. *)
Definition prepared {dt : Dtypes} (cleaned_df : DataFrame) (cols : list pystr)
    (r : gmap pystr cell) : gmap pystr cell :=
  foldr (λ c r', if object_dtype cleaned_df c
                 then <[c := str_replace_newlines (cell_at c r)]> r'
                 else r')
        r cols.

(** An answer without any record. *)
Definition no_record (answer : result (option entry)) : Prop :=
  match answer with
  | Ok (Some (Records (_ :: _))) => False
  | _ => True
  end.

(** A chain whose every invocation fails, one that always answers for the
    first row only, and one that always answers for two rows, whatever it
    was shown. *)
Definition broken_chain : Chain :=
  λ _ _, Raise (Exception (str "rate limit reached")).

Definition first_row_chain : Chain :=
  λ _ _, Ok (Some (Records
    [ {| rec_id := str "ID000001"; rec_categories := One (str "A") |} ])).

Definition both_rows_chain : Chain :=
  λ _ _, Ok (Some (Records
    [ {| rec_id := str "ID000001"; rec_categories := One (str "A") |};
      {| rec_id := str "ID000002"; rec_categories := One (str "B") |} ])).

(** A frame whose second row has no text. *)
Definition gap_row : gmap pystr cell :=
  {[ str "text" := NaN; str "unique_id" := Str (str "ID000002") ]}.

Definition gap_frame : DataFrame :=
  {| columns := [str "text"; str "unique_id"];
     rows := [ {[ str "text" := Str (str "first text");
                  str "unique_id" := Str (str "ID000001") ]};
               gap_row ] |}.

Definition gap_result : ResultFrame :=
  {| rcolumns := [str "text"; str "categories"];
     rrows := [ [VStr (str "first text"); VStr (str "A")]; [VNaN; VNaN] ] |}.

(** A frame of one million rows. *)
Definition million_rows : DataFrame :=
  {| columns := [str "text"];
     rows := replicate (N.to_nat 1000000) {[ str "text" := Str (str "some text") ]} |}.

(** A frame with one text the failing chain cannot translate. *)
Definition upload_frame : DataFrame :=
  {| columns := [str "comment"];
     rows := [ {[ str "comment" := Str (str "fine") ]};
               {[ str "comment" := Str (str "bad input") ]};
               {[ str "comment" := Str (str "also fine") ]} ] |}.


(** ** Further functions of the sources *)

(** *** utils/text_utils.py: clean_text_columns *)

Section CleanText.
Context {db : UnicodeDB} {dt : Dtypes}.

(** [re.sub] of a character class by one character. *)
Definition sub_class (cls : N → bool) (rep : N) (t : pystr) : pystr :=
  (λ c, if cls c then rep else c) <$> t.

(** [re.sub] of a pattern [X{2,}] by one character: scanning from the left,
    every maximal run of two or more characters of the class becomes [rep];
    [inside] tells that the previous character was of the class. *)
Fixpoint sub_runs (cls : N → bool) (rep : N) (inside : bool) (t : pystr) : pystr :=
  match t with
  | [] => []
  | c :: t' =>
      if cls c then
        if inside then sub_runs cls rep true t'
        else
          (match t' with
           | c' :: _ => if cls c' then rep else c
           | [] => c
           end) :: sub_runs cls rep true t'
      else c :: sub_runs cls rep false t'
  end.

(** The class of the first substitution: the two quotes and the two braces. *)
Definition quote_or_brace (c : N) : bool :=
  (c =? 39)%N || (c =? 34)%N || (c =? 123)%N || (c =? 125)%N.

Definition is_underscore (c : N) : bool := (c =? 95)%N.

Definition _clean_text (text : cell) : pystr :=
  match text with
  | NaN => []
  | Str text =>
      let text := sub_class quote_or_brace 96%N text in
      let text := sub_runs is_underscore 95%N false text in
      let text := sub_runs re_space 32%N false text in
      text
  end.

(** [clean_text_columns]: the columns selected by their dtype, object, have
    every cell replaced by its cleaned text. *)
Definition clean_text_columns (df : DataFrame) : DataFrame :=
  {| columns := columns df;
     rows :=
       (λ r, foldr (λ col r', if object_dtype df col
                              then <[col := Str (_clean_text (cell_at col r))]> r'
                              else r')
                   r (columns df))
         <$> rows df |}.

(** *** backend/clustering/clustering_workflow.py: preprocess_data *)

Definition preprocess_data (df : DataFrame) (text_column : pystr) : result DataFrame :=
  let df := clean_text_columns df in
  df ← filter_invalid_text df text_column;
  Ok (generate_unique_ids df).

End CleanText.

(** *** backend/clustering/clustering_workflow.py: category generation *)

Module Categories.
Section Generation.
Context {db : UnicodeDB} {dt : Dtypes}.

(** The parsed answer of a category chain: the code hands it on as it is. *)
Variable Answer : Type.

Record GenerationInput := {
  text_topic : pystr;
  text_content : pystr;
  category_count : Z;
  additional_requirements : option pystr;
}.

Record MergeInput := {
  merge_topic : pystr;
  classification_results : list Answer;
  min_categories : Z;
  max_categories : Z;
  merge_requirements : option pystr;
}.

Inductive Call :=
  | Generate (input : GenerationInput)
  | Merge (input : MergeInput).

(** The language model behind both chains: the number of earlier
    invocations and the input give an answer or an exception. *)
Variable llm : nat → Call → result Answer.

(** [generate_initial_categories]: one invocation per text batch, in order;
    an exception ends the loop. *)
Fixpoint generate_initial_categories (calls : list Call) (texts : list pystr)
    (topic : pystr) (count : Z) (requirements : option pystr)
  : list Call * result (list Answer) :=
  match texts with
  | [] => (calls, Ok [])
  | text_batch :: texts' =>
      let input := Generate {| text_topic := topic; text_content := text_batch;
                               category_count := count;
                               additional_requirements := requirements |} in
      match llm (length calls) input with
      | Raise e => (calls ++ [input], Raise e)
      | Ok result =>
          match generate_initial_categories (calls ++ [input]) texts'
                  topic count requirements with
          | (calls', Ok categories_list) => (calls', Ok (result :: categories_list))
          | (calls', Raise e) => (calls', Raise e)
          end
      end
  end.

Definition merge_categories (calls : list Call) (categories_list : list Answer)
    (topic : pystr) (min max : Z) (requirements : option pystr)
  : list Call * result Answer :=
  let input := Merge {| merge_topic := topic; classification_results := categories_list;
                        min_categories := min; max_categories := max;
                        merge_requirements := requirements |} in
  (calls ++ [input], llm (length calls) input).

(** The invocations of a complete run: one per batch, then the merge. *)
Definition generation_calls (batches : list pystr) (topic : pystr) (count : Z)
    (requirements : option pystr) : list Call :=
  (λ text_batch, Generate {| text_topic := topic; text_content := text_batch;
                             category_count := count;
                             additional_requirements := requirements |}) <$> batches.

Definition merge_call (categories_list : list Answer) (topic : pystr) (min max : Z)
    (requirements : option pystr) : Call :=
  Merge {| merge_topic := topic; classification_results := categories_list;
           min_categories := min; max_categories := max;
           merge_requirements := requirements |}.

Definition is_merge (c : Call) : bool :=
  match c with Merge _ => true | Generate _ => false end.

Record GeneratedCategories := {
  categories : Answer;
  preprocessed_df : DataFrame;
  session_id : pystr;
}.

(** [generate_categories]; [uuid4] is the identifier drawn when the caller
    gives none. *)
Definition generate_categories (uuid4 : pystr) (df : DataFrame)
    (text_column topic : pystr) (initial_category_count min max batch_size : Z)
    (session : option pystr) (requirements : option pystr)
  : list Call * result GeneratedCategories :=
  let session := default uuid4 session in
  match preprocess_data df text_column with
  | Raise e => ([], Raise e)
  | Ok preprocessed =>
      match batch_texts preprocessed text_column batch_size with
      | Raise e => ([], Raise e)
      | Ok batched_texts =>
          match generate_initial_categories [] batched_texts topic
                  initial_category_count requirements with
          | (calls, Raise e) => (calls, Raise e)
          | (calls, Ok initial_categories) =>
              match merge_categories calls initial_categories topic min max
                      requirements with
              | (calls', Raise e) => (calls', Raise e)
              | (calls', Ok merged) =>
                  (calls', Ok {| categories := merged;
                                 preprocessed_df := preprocessed;
                                 session_id := session |})
              end
          end
      end
  end.

End Generation.
End Categories.

(** *** backend/classification: content analysis *)

Module ContentAnalysis.

(** A value of the parsed JSON answer: a string, or anything else. *)
Inductive jvalue :=
  | JString (s : pystr)
  | JOther.

(** The parsed answer: a JSON object, or a value that is no mapping. *)
Inductive answer :=
  | Mapping (fields : gmap pystr jvalue)
  | NotMapping.

(** The literals of [ContentAnalysisResult]. *)
Definition validity_labels : list pystr := [[26377; 25928]; [26080; 25928]]%N.
Definition sentiment_labels : list pystr :=
  [[27491; 21521]; [20013; 24615]; [36127; 21521]]%N.
Definition sensitive_labels : list pystr := [[26159]; [21542]]%N.

Record ContentAnalysisResult := {
  validity : pystr;
  sentiment_class : pystr;
  sensitive_info : pystr;
}.

Record ContentAnalysisInput := {
  text : pystr;
  context : pystr;
}.

(** [ContentAnalysisInput(text=..., context=...)]: the text must be a string;
    a missing value of a frame is a float and is refused. *)
Definition make_input (text : cell) (context : pystr) : result ContentAnalysisInput :=
  match text with
  | Str s => Ok {| text := s; context := context |}
  | NaN => Raise (ValueError (str "validation error for ContentAnalysisInput"))
  end.

(** The input built for a text that is a string. *)
Definition analysis_input (context : pystr) (s : pystr) : ContentAnalysisInput :=
  {| text := s; context := context |}.

(** One field of the result: present, a string, and one of the literals. *)
Definition literal_field (fields : gmap pystr jvalue) (name : pystr)
    (allowed : list pystr) : option pystr :=
  match fields !! name with
  | Some (JString s) => if bool_decide (s ∈ allowed) then Some s else None
  | _ => None
  end.

(** [ContentAnalysisResult] built from the answer unpacked as keyword
    arguments: these need a mapping, then the three fields are validated;
    other keys are ignored. *)
Definition make_result (result : answer) : Py.result ContentAnalysisResult :=
  match result with
  | NotMapping => Raise (TypeError (str "argument after ** must be a mapping"))
  | Mapping fields =>
      match literal_field fields (str "validity") validity_labels,
            literal_field fields (str "sentiment_class") sentiment_labels,
            literal_field fields (str "sensitive_info") sensitive_labels with
      | Some v, Some s, Some i =>
          Ok {| validity := v; sentiment_class := s; sensitive_info := i |}
      | _, _, _ =>
          Raise (ValueError (str "validation error for ContentAnalysisResult"))
      end
  end.

Section Workflow.

(** The analysis chain: the number of earlier invocations and the input give
    an exception or the parsed answer. *)
Variable analysis_chain : nat → ContentAnalysisInput → Py.result answer.

(** The inputs the model was invoked on, oldest first. *)
Abbreviation Calls := (list ContentAnalysisInput).

(** [analyze_text] and [async_analyze_text]: one invocation, then the
    validation of the answer. *)
Definition analyze_text (calls : Calls) (input_data : ContentAnalysisInput)
  : Calls * Py.result ContentAnalysisResult :=
  (calls ++ [input_data],
   match analysis_chain (length calls) input_data with
   | Ok result => make_result result
   | Raise e => Raise e
   end).

(** [batch_analyze]: the texts one after the other; the first exception ends
    the batch. [async_batch_analyze] gathers the same tasks: as for the
    translation, its run is taken in list order, and which texts were
    already sent when an exception surfaces depends on the schedule. *)
Fixpoint batch_analyze (calls : Calls) (texts : list cell) (context : pystr)
  : Calls * Py.result (list ContentAnalysisResult) :=
  match texts with
  | [] => (calls, Ok [])
  | text :: texts' =>
      match make_input text context with
      | Raise e => (calls, Raise e)
      | Ok input_data =>
          match analyze_text calls input_data with
          | (calls', Raise e) => (calls', Raise e)
          | (calls', Ok r) =>
              match batch_analyze calls' texts' context with
              | (calls'', Ok rs) => (calls'', Ok (r :: rs))
              | (calls'', Raise e) => (calls'', Raise e)
              end
          end
      end
  end.

Definition async_batch_analyze := batch_analyze.

(** [batch_classify] of frontend/page/sentiment_analysis.py: batches of
    three; after each batch the count of processed texts is reported, over
    the total. *)
Record Progress := {
  calls_made : Calls;
  reported : list (nat * nat);
}.

Fixpoint process_batches (starts : list nat) (texts : list cell) (context : pystr)
    (calls : Calls) (reported : list (nat * nat)) (results : list ContentAnalysisResult)
  : Progress * Py.result (list ContentAnalysisResult) :=
  match starts with
  | [] => ({| calls_made := calls; reported := reported |}, Ok results)
  | i :: starts' =>
      match async_batch_analyze calls (slice texts i (i + 3)) context with
      | (calls', Raise e) => ({| calls_made := calls'; reported := reported |}, Raise e)
      | (calls', Ok batch_results) =>
          process_batches starts' texts context calls'
            (reported ++ [(i + length batch_results, length texts)])
            (results ++ batch_results)
      end
  end.

Definition batch_classify (texts : list cell) (context : pystr)
  : Progress * Py.result (list ContentAnalysisResult) :=
  process_batches (range_from (length texts) 0 (length texts) 3) texts context [] [] [].

End Workflow.
End ContentAnalysis.

(** *** frontend/page/ai_translation.py: the checkpoint of a batch *)

Section TranslationCheckpoint.
Variable translation_chain : cell → pystr → result (option pystr).

(** [translate_and_save] inside [perform_translation], called once on
    [texts_to_translate], the values of the text column of [df]: the results
    of the batch, and the frames written to the checkpoint file. *)
Definition translate_and_save (df : DataFrame) (texts_to_translate : list cell)
    (text_topic : pystr)
  : list cell * list DataFrame * result (list cell) :=
  let texts := texts_to_translate in
  match batch_translate translation_chain texts text_topic with
  | (calls, Raise e) => (calls, [], Raise e)
  | (calls, Ok results) =>
      let translated_texts := [] ++ results in
      let saved :=
        if bool_decide (length translated_texts mod 10 = 0)
           || bool_decide (length translated_texts = length texts_to_translate)
        then [setitem df (str "translated_text")
                (translated_texts
                   ++ replicate (length (rows df) - length translated_texts) (Str []))]
        else [] in
      (calls, saved, Ok results)
  end.

(** [perform_translation] with the checkpoint files it writes. *)
Definition perform_translation_saving (df : DataFrame) (text_column text_topic : pystr)
  : list cell * list DataFrame * result DataFrame :=
  match getitem df text_column with
  | Raise e => ([], [], Raise e)
  | Ok texts_to_translate =>
      match translate_and_save df texts_to_translate text_topic with
      | (calls, saved, Ok translated_texts) =>
          (calls, saved, Ok (setitem df (str "translated_text") translated_texts))
      | (calls, saved, Raise e) => (calls, saved, Raise e)
      end
  end.

End TranslationCheckpoint.

(** *** frontend/page/text_clustering.py: custom categories and the display *)

Section CustomCategories.
Context {db : UnicodeDB}.

(** [text.split(sep)] for a separator of one character. *)
Fixpoint split_on (sep : N) (t : pystr) : list pystr :=
  match t with
  | [] => [[]]
  | c :: t' =>
      if (c =? sep)%N then [] :: split_on sep t'
      else match split_on sep t' with
           | part :: parts => (c :: part) :: parts
           | [] => [[c]]
           end
  end.

(** [line.split(sep, 1)]: the part before the first separator and, when
    there is one, the part after it. *)
Fixpoint split_once (sep : N) (t : pystr) : pystr * option pystr :=
  match t with
  | [] => ([], None)
  | c :: t' =>
      if (c =? sep)%N then ([], Some t')
      else let '(before, after) := split_once sep t' in (c :: before, after)
  end.

(** The manual input of [handle_custom_categories]: the categories typed by
    the user, one per line, as the records stored in the session, or [None]
    when the text area is empty and nothing is stored. The records are those
    of the frame built from the split lines: a line without a comma has no
    description, and the frame cannot be built when there are lines and none
    of them has a comma. *)
Definition handle_custom_categories (categories_text : pystr)
  : option (result (list (pystr * option pystr))) :=
  if bool_decide (categories_text = []) then None
  else
    let categories_list :=
      split_once 44%N
        <$> List.filter (λ line, negb (bool_decide (strip line = [])))
                        (split_on 10%N categories_text) in
    Some match categories_list with
         | [] => Ok []
         | _ =>
             if existsb (λ row : pystr * option pystr, bool_decide (is_Some row.2))
                        categories_list
             then Ok categories_list
             else Raise (ValueError (str "2 columns passed, passed data had 1 columns"))
         end.

End CustomCategories.

(** [col.startswith(prefix)]. *)
Definition startswith (prefix t : pystr) : bool :=
  bool_decide (take (length prefix) t = prefix).

(** The truth value of a cell: a missing value is a float that is not zero,
    so it is true. *)
Definition truthy (v : value) : bool :=
  match v with
  | VNaN => true
  | VStr s => negb (bool_decide (s = []))
  | VBool b => b
  | VList names => negb (bool_decide (names = []))
  end.

(** The list shown for one row of a multi-label result: the labels of the
    category columns whose value is true. *)
Definition shown_categories (labels : list pystr) (row : list value) : list pystr :=
  fst <$> List.filter (λ p : pystr * value, startswith (str "category_") p.1 && truthy p.2)
                      (zip labels row).

(** ** Specification predicates and sample inputs for the further functions *)

(** The text with each quote or brace replaced by a backtick. *)
Definition backticked (s : pystr) : pystr :=
  (λ c, if quote_or_brace c then 96%N else c) <$> s.

(** A character the collapsing of runs leaves alone: neither an underscore
    nor white space. *)
Definition solid {db : UnicodeDB} (c : N) : bool :=
  negb (is_underscore c || re_space c).

(** No two neighbouring characters of the text are both of the class. *)
Fixpoint no_pair (cls : N → bool) (t : pystr) : bool :=
  match t with
  | x :: (y :: _) as t' => negb (cls x && cls y) && no_pair cls t'
  | _ => true
  end.

(** Number of line feeds of a text. *)
Definition line_feeds (t : pystr) : nat := length (List.filter (N.eqb 10) t).

(** The tables of either output format. *)
Definition tables_of (output : tables_output) : list pystr :=
  match output with
  | TablesList tables => tables
  | TablesFrame _ tables => tables
  end.

(** A model that answers every invocation, and one that fails on its second
    invocation. *)
Definition steady_llm (n : nat) (c : Categories.Call pystr) : result pystr :=
  match c with
  | Categories.Generate _ _ => Ok (str "initial")
  | Categories.Merge _ _ => Ok (str "merged")
  end.

Definition limited_llm (n : nat) (c : Categories.Call pystr) : result pystr :=
  if decide (n = 1) then Raise (Exception (str "rate limit")) else steady_llm n c.

(** An analysis chain that gives the same valid answer to every text, and
    that answer as a result. *)
Definition neutral_fields : gmap pystr ContentAnalysis.jvalue :=
  {[ str "validity" := ContentAnalysis.JString [26377; 25928]%N;
     str "sentiment_class" := ContentAnalysis.JString [20013; 24615]%N;
     str "sensitive_info" := ContentAnalysis.JString [21542]%N ]}.

Definition steady_chain (n : nat) (input_data : ContentAnalysis.ContentAnalysisInput)
  : result ContentAnalysis.answer :=
  Ok (ContentAnalysis.Mapping neutral_fields).

Definition neutral_result : ContentAnalysis.ContentAnalysisResult :=
  {| ContentAnalysis.validity := [26377; 25928]%N;
     ContentAnalysis.sentiment_class := [20013; 24615]%N;
     ContentAnalysis.sensitive_info := [21542]%N |}.

(** A frame with a text column that has a missing value and a column
    without any string. *)
Definition sparse_frame : DataFrame :=
  {| columns := [str "text"; str "score"];
     rows := [ {[ str "text" := Str (str "it's  fine") ]};
               {[ str "text" := NaN ]} ] |}.

(** Dtypes under which every column has dtype object, as a column of [None]
    alone has, and dtypes under which none has, as the columns of strings of
    the later versions of the frame library. *)
Definition every_column_object : Dtypes := {| object_dtype := λ _ _, true |}.

Definition no_column_object : Dtypes := {| object_dtype := λ _ _, false |}.

(** A frame with one text of two lines. *)
Definition two_lines_frame : DataFrame :=
  {| columns := [str "text"];
     rows := [ {[ str "text" := Str [97; 10; 98]%N ]} ] |}.

(** A chain whose every answer has [null] as its [classifications] entry. *)
Definition null_chain : Chain := λ _ _, Ok (Some NotAList).
(** ** Properties *)

(** *** Batching *)

Section BatchingFacts.
Context {A : Type}.
Implicit Types (l : list A).

Lemma range_from_lookup fuel i stop step k s :
  range_from fuel i stop step !! k = Some s → s = i + k * step ∧ s < stop.
Proof.
  revert i k. induction fuel as [|fuel IH]; intros i k; simpl; [done|].
  case_decide; [|done].
  destruct k as [|k]; simpl.
  - intros [= <-]. lia.
  - intros Hk. apply IH in Hk. lia.
Qed.

Lemma range_from_length fuel i stop step :
  0 < step → stop - i ≤ fuel →
  length (range_from fuel i stop step) = (stop - i + step - 1) / step.
Proof.
  intros Hstep. revert i. induction fuel as [|fuel IH]; intros i Hfuel; simpl.
  - replace (stop - i) with 0 by lia. symmetry. apply Nat.div_small. lia.
  - case_decide as Hlt; simpl.
    + rewrite IH by lia.
      destruct (decide (stop ≤ i + step)) as [Hle|Hgt].
      * replace (stop - (i + step)) with 0 by lia.
        rewrite (Nat.div_small (0 + step - 1)) by lia.
        apply (Nat.div_unique _ _ _ (stop - i - 1)); lia.
      * replace (stop - i + step - 1) with ((stop - (i + step) + step - 1) + 1 * step) by lia.
        rewrite Nat.div_add by lia. lia.
    + replace (stop - i) with 0 by lia. symmetry. apply Nat.div_small. lia.
Qed.

Lemma range_from_concat fuel i step l :
  0 < step → length l - i ≤ fuel →
  concat ((λ s, slice l s (s + step)) <$> range_from fuel i (length l) step) = drop i l.
Proof.
  intros Hstep. revert i. induction fuel as [|fuel IH]; intros i Hfuel; simpl.
  - rewrite drop_ge; [done|lia].
  - case_decide as Hlt; simpl.
    + rewrite IH by lia. unfold slice.
      replace (i + step - i) with step by lia.
      rewrite <- (take_drop step (drop i l)) at 2.
      by rewrite drop_drop.
    + rewrite drop_ge; [done|lia].
Qed.

Lemma range_batching (size : nat) l :
  0 < size →
  is_batching size l ((λ s, slice l s (s + size)) <$> range_from (length l) 0 (length l) size).
Proof.
  intros Hsize. unfold is_batching. rewrite length_fmap.
  rewrite range_from_length by lia. rewrite Nat.sub_0_r.
  split; [done|]. split.
  { rewrite range_from_concat by lia. done. }
  intros k g Hk.
  rewrite list_lookup_fmap in Hk.
  destruct (range_from (length l) 0 (length l) size !! k) as [s|] eqn:Hs; [|done].
  simpl in Hk. injection Hk as <-.
  pose proof (lookup_lt_Some _ _ _ Hs) as Hlen.
  rewrite range_from_length in Hlen by lia. rewrite Nat.sub_0_r in Hlen.
  apply range_from_lookup in Hs as [-> Hlt]. simpl in *.
  unfold slice. replace (k * size + size - k * size) with size by lia.
  split; [done|].
  rewrite length_take, length_drop.
  split; [clear Hlen; lia|].
  intros Hnext.
  assert (k * size + size ≤ length l); [|lia].
  pose proof (Nat.div_mod_eq (length l + size - 1) size) as Hdm.
  assert ((k + 2) * size ≤ length l + size - 1) by nia.
  lia.
Qed.

End BatchingFacts.

Lemma for_each_ok {A B} (f : A → result B) (g : A → B) (xs : list A) :
  (∀ x, x ∈ xs → f x = Ok (g x)) → for_each f xs = Ok (g <$> xs).
Proof.
  induction xs as [|x xs IH]; intros Hf; simpl; [done|].
  rewrite Hf by left. simpl. rewrite IH; [done|].
  intros y Hy. apply Hf. by right.
Qed.

Lemma slice_fmap {A B} (f : A → B) (l : list A) i j :
  slice (f <$> l) i j = f <$> slice l i j.
Proof. unfold slice. by rewrite fmap_take, fmap_drop. Qed.

Lemma range0_positive (n : nat) (B : Z) :
  (0 < B)%Z → range0 n B = Ok (range_from n 0 n (Z.to_nat B)).
Proof. intros HB. unfold range0. repeat case_decide; try lia. done. Qed.

Lemma join_cells_strings sep (texts : list pystr) :
  join_cells sep (Str <$> texts) = Ok (join sep texts).
Proof.
  unfold join_cells.
  replace (forallb (λ c, negb (isna c)) (Str <$> texts)) with true.
  - f_equal. f_equal. rewrite <- list_fmap_compose. apply list_fmap_id.
  - symmetry. apply forallb_forall. intros c Hc.
    apply list_elem_of_In, list_elem_of_fmap in Hc as (s & -> & _). done.
Qed.

Section Batching.
Context {db : UnicodeDB} {dt : Dtypes}.

(** C6. For a positive batch size [B], [batch_texts] and
    [dataframe_to_markdown_tables] cut their N items into ceil(N / B)
    contiguous groups in input order, each of [B] items except a possibly
    smaller last one, whose concatenation is the input; every text batch is
    the join of one group and every table renders one group. *)
Theorem C6_batching (df : DataFrame) (text_column : pystr) (texts : list pystr)
    (cols : list pystr) (nan_drop_method : pystr) (B : Z) :
  (0 < B)%Z →
  getitem df text_column = Ok (Str <$> texts) →
  Forall (λ c, c ∈ columns df) cols →
  nan_drop_method ∈ [str "any"; str "all"] →
  (∃ groups, is_batching (Z.to_nat B) texts groups
     ∧ batch_texts df text_column B = Ok (join (str " ") <$> groups))
  ∧ (∃ groups,
       is_batching (Z.to_nat B)
         (table_data df cols (bool_decide (nan_drop_method = str "any"))) groups
       ∧ dataframe_to_markdown_tables df cols B nan_drop_method (str "list")
         = Ok (TablesList (render_table cols <$> groups))).
Proof.
  intros HB Hcol Hcols Hhow.
  assert (0 < Z.to_nat B) as Hb by lia.
  split.
  - exists ((λ s, slice texts s (s + Z.to_nat B))
              <$> range_from (length texts) 0 (length texts) (Z.to_nat B)).
    split; [by apply range_batching|].
    unfold batch_texts.
    assert (length (rows df) = length texts) as Hlen.
    { unfold getitem in Hcol. case_decide; [|done].
      injection Hcol as Hcol. apply (f_equal length) in Hcol.
      by rewrite !length_fmap in Hcol. }
    rewrite range0_positive by done. simpl. rewrite Hlen.
    rewrite <- list_fmap_compose.
    apply for_each_ok. intros i _. rewrite Hcol. simpl.
    rewrite slice_fmap. apply join_cells_strings.
  - set (data := table_data df cols (bool_decide (nan_drop_method = str "any"))).
    exists ((λ s, slice data s (s + Z.to_nat B))
              <$> range_from (length data) 0 (length data) (Z.to_nat B)).
    split; [by apply range_batching|].
    unfold dataframe_to_markdown_tables.
    replace (forallb (λ c, bool_decide (c ∈ columns df)) cols) with true.
    2:{ symmetry. apply forallb_forall. intros c Hc.
        apply bool_decide_eq_true. rewrite Forall_forall in Hcols.
        apply Hcols. by apply list_elem_of_In. }
    simpl. rewrite (bool_decide_eq_false_2 (B ≤ 0)%Z) by lia.
    rewrite (bool_decide_eq_true_2 (nan_drop_method ∈ _)) by done.
    simpl negb. cbv iota.
    fold data.
    rewrite range0_positive by done. simpl.
    rewrite <- list_fmap_compose. done.
Qed.

End Batching.

Lemma C6_batching_witness :
  (∃ groups, is_batching 2 [str "good service"; str "slow delivery"; str "fair price"] groups
     ∧ batch_texts demo_frame (str "text") 2 = Ok (join (str " ") <$> groups))
  ∧ (∃ groups,
       is_batching 2 (table_data demo_frame [str "text"] true) groups
       ∧ dataframe_to_markdown_tables demo_frame [str "text"] 2 (str "any") (str "list")
         = Ok (TablesList (render_table [str "text"] <$> groups))).
Proof.
  apply (C6_batching demo_frame (str "text")
           [str "good service"; str "slow delivery"; str "fair price"]
           [str "text"] (str "any") 2).
  - lia.
  - vm_compute. reflexivity.
  - repeat constructor.
  - left.
Defined.

(** *** Decimal formatting and unique identifiers *)

Lemma to_digits_value fuel n :
  (n < 2 ^ N.of_nat fuel)%N → digits_value (to_digits fuel n) = n.
Proof.
  revert n. induction fuel as [|fuel IH]; intros n Hn.
  - simpl in Hn. assert (n = 0%N) as -> by lia. done.
  - simpl. destruct (N.ltb_spec n 10) as [Hlt|Hge].
    + unfold digits_value. simpl. lia.
    + unfold digits_value in *. rewrite foldl_snoc, IH.
      * pose proof (N.div_mod' n 10) as Hdm. clear Hn IH.
        generalize dependent (n / 10)%N. generalize (n mod 10)%N. intros. lia.
      * rewrite Nat2N.inj_succ, N.pow_succ_r' in Hn.
        apply N.Div0.div_lt_upper_bound. lia.
Qed.

Lemma format_d_value n : digits_value (format_d n) = n.
Proof.
  unfold format_d. apply to_digits_value.
  rewrite Nat2N.inj_succ, N2Nat.id.
  destruct (decide (n = 0%N)) as [->|Hn]; [done|].
  apply N.log2_spec. lia.
Qed.

Lemma to_digits_decimal fuel n :
  Forall (λ c, is_decimal_digit c = true) (to_digits fuel n).
Proof.
  revert n. induction fuel as [|fuel IH]; intros n; simpl; [constructor|].
  destruct (N.ltb_spec n 10) as [Hlt|Hge].
  - repeat constructor. unfold is_decimal_digit.
    apply andb_true_intro. split; apply N.leb_le; lia.
  - apply Forall_app. split; [apply IH|].
    repeat constructor. unfold is_decimal_digit.
    assert (n mod 10 < 10)%N as Hmod by (apply N.mod_lt; lia).
    revert Hmod. generalize (n mod 10)%N. intros m Hmod.
    apply andb_true_intro. split; apply N.leb_le; lia.
Qed.

Lemma to_digits_length fuel n (w : nat) :
  1 ≤ w → (n < 10 ^ N.of_nat w)%N → length (to_digits fuel n) ≤ w.
Proof.
  revert n w. induction fuel as [|fuel IH]; intros n w Hw Hn; simpl; [lia|].
  destruct (N.ltb_spec n 10) as [Hlt|Hge]; simpl; [lia|].
  rewrite length_app. simpl.
  destruct w as [|[|w]]; [lia| |].
  - simpl in Hn. lia.
  - assert (length (to_digits fuel (n / 10)) ≤ S w); [|lia].
    apply IH; [lia|].
    rewrite Nat2N.inj_succ, N.pow_succ_r' in Hn.
    apply N.Div0.div_lt_upper_bound. lia.
Qed.

Lemma zero_fill_value m ds :
  digits_value (replicate m 48%N ++ ds) = digits_value ds.
Proof.
  unfold digits_value. rewrite foldl_app. f_equal.
  induction m as [|m IH]; simpl; [done|]. exact IH.
Qed.

Lemma format_0wd_value w n : digits_value (format_0wd w n) = n.
Proof. unfold format_0wd. rewrite zero_fill_value. apply format_d_value. Qed.

Lemma format_0wd_decimal w n :
  Forall (λ c, is_decimal_digit c = true) (format_0wd w n).
Proof.
  unfold format_0wd. apply Forall_app. split.
  - apply Forall_replicate. done.
  - apply to_digits_decimal.
Qed.

Lemma format_0wd_length w n :
  w ≤ length (format_0wd w n)
  ∧ (1 ≤ w → (n < 10 ^ N.of_nat w)%N → length (format_0wd w n) = w).
Proof.
  unfold format_0wd. rewrite length_app, length_replicate.
  split; [lia|]. intros Hw Hn.
  pose proof (to_digits_length (S (N.to_nat (N.log2 n))) n w Hw Hn) as Hle.
  unfold format_d. lia.
Qed.

Lemma unique_id_of_inj i j : unique_id_of i = unique_id_of j → i = j.
Proof.
  unfold unique_id_of. intros H. apply app_inv_head in H.
  apply (f_equal digits_value) in H. rewrite !format_0wd_value in H. lia.
Qed.

Lemma setitem_getitem df col vals :
  length vals = length (rows df) → getitem (setitem df col vals) col = Ok vals.
Proof.
  intros Hlen. unfold getitem, setitem. simpl.
  rewrite decide_True.
  2:{ case_decide; [done|]. apply elem_of_app. right. by left. }
  f_equal. revert vals Hlen. induction (rows df) as [|r rs IH]; intros [|v vs] Hlen;
    simpl in *; try done.
  f_equal.
  - unfold cell_at. by rewrite lookup_insert_eq.
  - apply IH. lia.
Qed.

Lemma generate_unique_ids_column df :
  getitem (generate_unique_ids df) (str "unique_id")
  = Ok ((λ i, Str (unique_id_of i)) <$> seq 1 (length (rows df))).
Proof.
  unfold generate_unique_ids. apply setitem_getitem.
  by rewrite length_fmap, length_seq.
Qed.

(** What [generate_unique_ids] gives the N rows of a frame: in row order, the
    prefix ID followed by the counter 1, 2, ..., N written in decimal and
    zero filled to at least six digits, exactly six for the first 999999
    rows: the digits of the k-th row read back as k, so the identifiers
    increase strictly with the row and have neither gap nor duplicate. *)
Lemma unique_ids_in_order (df : DataFrame) :
  ∃ ids : list pystr,
    getitem (generate_unique_ids df) (str "unique_id") = Ok (Str <$> ids)
    ∧ length ids = length (rows df)
    ∧ NoDup ids
    ∧ ∀ k id, ids !! k = Some id →
        ∃ digits,
          id = str "ID" ++ digits
          ∧ Forall (λ c, is_decimal_digit c = true) digits
          ∧ digits_value digits = N.of_nat (k + 1)
          ∧ 6 ≤ length digits
          ∧ ((N.of_nat (k + 1) ≤ 999999)%N → length digits = 6).
Proof.
  exists (unique_id_of <$> seq 1 (length (rows df))).
  split; [|split; [|split]].
  - rewrite generate_unique_ids_column. by rewrite <- list_fmap_compose.
  - by rewrite length_fmap, length_seq.
  - apply NoDup_fmap_2_strong; [|apply NoDup_seq].
    intros i j _ _. apply unique_id_of_inj.
  - intros k id Hk. rewrite list_lookup_fmap in Hk.
    destruct (seq 1 (length (rows df)) !! k) as [i|] eqn:Hi; [|done].
    apply lookup_seq in Hi as [-> _]. simpl in Hk. injection Hk as <-.
    exists (format_0wd 6 (N.of_nat (k + 1))).
    replace (S k) with (k + 1) by lia.
    split; [reflexivity|]. split; [apply format_0wd_decimal|].
    split; [apply format_0wd_value|].
    destruct (format_0wd_length 6 (N.of_nat (k + 1))) as [Hge Heq].
    split; [done|]. intros Hsmall. apply Heq; [lia|].
    change (10 ^ N.of_nat 6)%N with 1000000%N. lia.
Qed.

(** C7, on the code: in every frame of a million rows or more, the
    identifiers are the prefix ID followed by six digits up to row 999999
    only; the identifier of row 1000000 is ID1000000, the prefix followed by
    seven digits. *)
Theorem C7_seven_digits (df : DataFrame) :
  (1000000 ≤ N.of_nat (length (rows df)))%N →
  ∃ ids : list pystr,
    getitem (generate_unique_ids df) (str "unique_id") = Ok (Str <$> ids)
    ∧ ids !! N.to_nat 999999 = Some (str "ID" ++ str "1000000")
    ∧ length (str "1000000") = 7
    ∧ ∀ k id, (N.of_nat (k + 1) ≤ 999999)%N → ids !! k = Some id →
        ∃ digits,
          id = str "ID" ++ digits
          ∧ Forall (λ c, is_decimal_digit c = true) digits
          ∧ digits_value digits = N.of_nat (k + 1)
          ∧ length digits = 6.
Proof.
  intros Hlen. exists (unique_id_of <$> seq 1 (length (rows df))).
  split; [|split; [|split; [done|]]].
  - rewrite generate_unique_ids_column. by rewrite <- list_fmap_compose.
  - rewrite list_lookup_fmap, lookup_seq_lt by lia.
    cbn [fmap option_fmap option_map]. unfold unique_id_of.
    replace (N.of_nat (1 + N.to_nat 999999)) with 1000000%N by lia.
    vm_compute. reflexivity.
  - intros k id Hk Hid. rewrite list_lookup_fmap in Hid.
    destruct (seq 1 (length (rows df)) !! k) as [i|] eqn:Hi; [|done].
    apply lookup_seq in Hi as [-> _]. simpl in Hid. injection Hid as <-.
    exists (format_0wd 6 (N.of_nat (k + 1))).
    replace (S k) with (k + 1) by lia.
    split; [reflexivity|]. split; [apply format_0wd_decimal|].
    split; [apply format_0wd_value|].
    destruct (format_0wd_length 6 (N.of_nat (k + 1))) as [_ Heq].
    apply Heq; [lia|]. change (10 ^ N.of_nat 6)%N with 1000000%N. lia.
Qed.

Lemma C7_seven_digits_witness :
  ∃ ids : list pystr,
    getitem (generate_unique_ids million_rows) (str "unique_id") = Ok (Str <$> ids)
    ∧ ids !! N.to_nat 999999 = Some (str "ID" ++ str "1000000")
    ∧ length (str "1000000") = 7
    ∧ ∀ k id, (N.of_nat (k + 1) ≤ 999999)%N → ids !! k = Some id →
        ∃ digits,
          id = str "ID" ++ digits
          ∧ Forall (λ c, is_decimal_digit c = true) digits
          ∧ digits_value digits = N.of_nat (k + 1)
          ∧ length digits = 6.
Proof.
  apply (C7_seven_digits million_rows).
  unfold million_rows. cbn [rows]. rewrite length_replicate. lia.
Defined.

Example first_identifiers :
  getitem (generate_unique_ids mixed_frame) (str "unique_id")
  = Ok (Str <$> [str "ID000001"; str "ID000002"; str "ID000003";
                 str "ID000004"; str "ID000005"]).
Proof. vm_compute. reflexivity. Qed.

(** *** Filtering invalid text *)

Lemma list_filter_sublist {A} (f : A → bool) (l : list A) :
  List.filter f l `sublist_of` l.
Proof.
  induction l as [|x l IH]; simpl; [constructor|].
  destruct (f x); by constructor.
Qed.

Lemma list_filter_elem_of {A} (f : A → bool) (l : list A) x :
  x ∈ List.filter f l ↔ x ∈ l ∧ f x = true.
Proof. rewrite !list_elem_of_In. apply filter_In. Qed.

Section Filtering.
Context {db : UnicodeDB}.

(** C9. When the text column exists, [filter_invalid_text] returns a frame
    whose rows are the rows of the input with valid text, in the order they
    have in the input: the output is a subsequence of the input. *)
Theorem C9_filter_keeps_order (df : DataFrame) (text_col : pystr) :
  text_col ∈ columns df →
  ∃ out,
    filter_invalid_text df text_col = Ok out
    ∧ columns out = columns df
    ∧ rows out `sublist_of` rows df
    ∧ ∀ r, r ∈ rows out ↔ r ∈ rows df ∧ is_valid_text (cell_at text_col r) = true.
Proof.
  intros Hcol. unfold filter_invalid_text. rewrite decide_True by done.
  eexists. split; [reflexivity|]. simpl.
  split; [done|]. split; [apply list_filter_sublist|].
  intros r. apply (list_filter_elem_of (λ r, is_valid_text (cell_at text_col r))).
Qed.

End Filtering.

Lemma C9_filter_keeps_order_witness :
  ∃ out,
    filter_invalid_text mixed_frame (str "text") = Ok out
    ∧ columns out = columns mixed_frame
    ∧ rows out `sublist_of` rows mixed_frame
    ∧ ∀ r, r ∈ rows out
           ↔ r ∈ rows mixed_frame ∧ is_valid_text (cell_at (str "text") r) = true.
Proof.
  apply (C9_filter_keeps_order mixed_frame (str "text")).
  vm_compute. left.
Defined.

(** *** Text validity *)

Lemma changes_app_ge a b : changes a + changes b ≤ changes (a ++ b).
Proof.
  induction a as [|x [|y a] IH]; simpl in *; [lia| |lia].
  destruct b as [|z b]; simpl; lia.
Qed.

Lemma changes_replicate_app n c r :
  changes (replicate n c ++ r) ≤ 1 + changes r.
Proof.
  induction n as [|[|n] IH]; simpl in *; [lia| |].
  - destruct r as [|z r]; [simpl; lia|]. case_decide; lia.
  - rewrite decide_True by done. lia.
Qed.

Lemma changes_NoDup w : NoDup w → changes w = length w - 1.
Proof.
  induction w as [|x [|y w] IH]; intros Hnd; [done|done|].
  apply NoDup_cons in Hnd as [Hx Hnd].
  change (changes (x :: y :: w)) with ((if decide (x = y) then 0 else 1) + changes (y :: w)).
  rewrite IH by done. rewrite decide_False; [simpl; lia|].
  intros ->. apply Hx. by left.
Qed.

Section Validity.
Context {db : UnicodeDB}.

Lemma lstrip_head t c r : lstrip t = c :: r → py_isspace c = false.
Proof.
  induction t as [|x t IH]; simpl; [done|].
  destruct (py_isspace x) eqn:Hx; [done|]. by intros [= <- _].
Qed.

Lemma lstrip_keep pre c rest :
  py_isspace c = false → ∃ pre', lstrip (pre ++ c :: rest) = pre' ++ c :: rest.
Proof.
  intros Hc. induction pre as [|x pre IH]; simpl.
  - rewrite Hc. by exists [].
  - destruct (py_isspace x); [done|]. by exists (x :: pre).
Qed.

Lemma rstrip_keep pre c post :
  py_isspace c = false → ∃ post', rstrip (pre ++ c :: post) = pre ++ c :: post'.
Proof.
  intros Hc. unfold rstrip.
  rewrite reverse_app, reverse_cons, <- app_assoc. simpl.
  destruct (lstrip_keep (reverse post) c (reverse pre) Hc) as [p' ->].
  exists (reverse p').
  by rewrite reverse_app, reverse_cons, reverse_involutive, <- app_assoc.
Qed.

Lemma strip_last t u c : strip t = u ++ [c] → py_isspace c = false.
Proof.
  unfold strip, rstrip. intros H.
  apply (f_equal reverse) in H.
  rewrite reverse_involutive, reverse_app in H. simpl in H.
  by apply lstrip_head in H.
Qed.

Lemma strip_keep pre w post :
  w ≠ [] → Forall (λ c, py_isspace c = false) w →
  ∃ a b, strip (pre ++ w ++ post) = a ++ w ++ b.
Proof.
  intros Hw Hsp. unfold strip.
  destruct w as [|c w]; [done|].
  apply Forall_cons in Hsp as Hsp'. destruct Hsp' as [Hc _].
  destruct (lstrip_keep pre c (w ++ post) Hc) as [a Ha].
  simpl. rewrite Ha. exists a.
  destruct (exists_last Hw) as (w' & c' & Hlast).
  assert (py_isspace c' = false) as Hc'.
  { rewrite Forall_forall in Hsp. apply Hsp. rewrite Hlast.
    apply elem_of_app. right. by left. }
  change (a ++ c :: w ++ post) with (a ++ (c :: w) ++ post).
  rewrite Hlast, <- !app_assoc. simpl.
  rewrite (app_assoc a w' (c' :: post)).
  destruct (rstrip_keep (a ++ w') c' post Hc') as [b ->].
  exists b. change (a ++ c :: w ++ b) with (a ++ (c :: w) ++ b).
  rewrite Hlast, <- !app_assoc. done.
Qed.

Lemma match_space_punct_sound t x :
  match_space_punct t = true → x ∈ t →
  re_space x || re_punct x = true ∨ x = 10%N.
Proof.
  induction t as [|c t IH]; simpl; [done|].
  intros H Hx. apply andb_true_iff in H as [Hc H].
  apply elem_of_cons in Hx as [->|Hx]; [by left|].
  apply orb_true_iff in H as [H|H]; [by apply IH|].
  destruct t as [|y [|? ?]]; simpl in H; try done.
  - by apply elem_of_nil in Hx.
  - apply list_elem_of_singleton in Hx as ->. right. by apply N.eqb_eq.
Qed.

Lemma backref_star_sound c k t :
  backref_star c k t = true → ∃ n rest, t = replicate n c ++ rest ∧ k rest = true.
Proof.
  induction t as [|x t IH]; simpl; intros H.
  - by exists 0, [].
  - apply orb_true_iff in H as [H|H].
    + apply andb_true_iff in H as [Hx H]. apply N.eqb_eq in Hx as ->.
      destruct (IH H) as (n & rest & -> & Hk). by exists (S n), rest.
    + by exists 0, (x :: t).
Qed.

Lemma run_group_sound k t :
  run_group k t = true →
  ∃ c n rest, c ≠ 10%N ∧ t = replicate (S n) c ++ rest ∧ k rest = true.
Proof.
  destruct t as [|x t]; simpl; [done|]. intros H.
  apply andb_true_iff in H as [Hx H].
  destruct (backref_star_sound _ _ _ H) as (n & rest & -> & Hk).
  exists x, n, rest. split; [|done].
  unfold dot in Hx. apply negb_true_iff, N.eqb_neq in Hx. done.
Qed.

Lemma match_runs_sound t :
  match_runs t = true →
  ∃ body tail, t = body ++ tail ∧ at_end tail = true ∧ changes body ≤ 2.
Proof.
  unfold match_runs. intros H.
  apply run_group_sound in H as (c1 & n1 & r1 & _ & -> & H).
  apply orb_true_iff in H as [H|H].
  2:{ exists (replicate (S n1) c1), r1. split; [done|]. split; [done|].
      pose proof (changes_replicate_app (S n1) c1 []) as Hc.
      rewrite app_nil_r in Hc. simpl in *. lia. }
  apply run_group_sound in H as (c2 & n2 & r2 & _ & -> & H).
  apply orb_true_iff in H as [H|H].
  2:{ exists (replicate (S n1) c1 ++ replicate (S n2) c2), r2.
      split; [by rewrite <- app_assoc|]. split; [done|].
      pose proof (changes_replicate_app (S n1) c1 (replicate (S n2) c2)) as Hc1.
      pose proof (changes_replicate_app (S n2) c2 []) as Hc2.
      rewrite app_nil_r in Hc2. simpl in *. lia. }
  apply run_group_sound in H as (c3 & n3 & r3 & _ & -> & H).
  exists (replicate (S n1) c1 ++ replicate (S n2) c2 ++ replicate (S n3) c3), r3.
  split; [by rewrite <- !app_assoc|]. split; [done|].
  pose proof (changes_replicate_app (S n1) c1
                (replicate (S n2) c2 ++ replicate (S n3) c3)) as Hc1.
  pose proof (changes_replicate_app (S n2) c2 (replicate (S n3) c3)) as Hc2.
  pose proof (changes_replicate_app (S n3) c3 []) as Hc3.
  rewrite app_nil_r in Hc3.
  assert (changes (replicate (S n3) c3) = 0) as Hz.
  { clear. induction n3 as [|n IH]; [done|].
    change (changes (replicate (S (S n)) c3))
      with ((if decide (c3 = c3) then 0 else 1) + changes (replicate (S n) c3)).
    rewrite decide_True by done. simpl in *. lia. }
  simpl in *. lia.
Qed.

Lemma distinct_count_two (t : pystr) x y :
  x ∈ t → y ∈ t → x ≠ y → 2 ≤ distinct_count t.
Proof.
  unfold distinct_count. intros Hx Hy Hne.
  apply elem_of_remove_dups in Hx, Hy.
  destruct (remove_dups t) as [|a [|b l]]; simpl; [|exfalso|lia].
  - by apply elem_of_nil in Hx.
  - apply list_elem_of_singleton in Hx, Hy. congruence.
Qed.

Lemma distinct_count_replicate n (c : N) : distinct_count (replicate (S n) c) = 1.
Proof.
  unfold distinct_count. induction n as [|n IH]; [done|].
  change (replicate (S (S n)) c) with (c :: replicate (S n) c).
  cbn [remove_dups]. destruct (decide_rel elem_of c (replicate (S n) c)) as [_|Hn];
    [exact IH|]. exfalso. apply Hn. by left.
Qed.

Lemma lstrip_replicate n c :
  lstrip (replicate n c) = if py_isspace c then [] else replicate n c.
Proof.
  induction n as [|n IH]; simpl; [by destruct (py_isspace c)|].
  destruct (py_isspace c); [exact IH|done].
Qed.

Lemma strip_replicate n c :
  strip (replicate n c) = if py_isspace c then [] else replicate n c.
Proof.
  unfold strip, rstrip. rewrite lstrip_replicate.
  destruct (py_isspace c) eqn:Hc; [done|].
  rewrite reverse_replicate, lstrip_replicate, Hc. apply reverse_replicate.
Qed.

(** A text that is one character repeated is not valid. *)
Lemma repeated_character_invalid n c :
  is_valid_text (Str (replicate n c)) = false.
Proof.
  unfold is_valid_text. simpl. rewrite strip_replicate.
  destruct (py_isspace c); [done|].
  destruct n as [|n]; [done|].
  rewrite (bool_decide_eq_false_2 (replicate (S n) c = [])) by done.
  rewrite distinct_count_replicate, (bool_decide_eq_true_2 (1 = 1)) by done.
  rewrite !orb_true_r. simpl. done.
Qed.

(** A stretch of four distinct letters or numbers, not all of them digits,
    makes a text valid. *)
Lemma distinct_alnum_valid t :
  UnicodeLaws db →
  (∃ pre w post,
     t = pre ++ w ++ post ∧ 4 ≤ length w ∧ NoDup w
     ∧ Forall (λ c, re_letter c || re_number c = true) w) →
  isdigit (strip t) = false →
  is_valid_text (Str t) = true.
Proof.
  intros Hlaws (pre & w & post & -> & Hlen & Hnd & Haln) Hnondigit.
  assert (w ≠ []) as Hw by (intros ->; simpl in Hlen; lia).
  assert (Forall (λ c, py_isspace c = false) w) as Hsp.
  { eapply Forall_impl; [exact Haln|]. intros c. apply (alnum_not_pyspace _ Hlaws). }
  destruct (strip_keep pre w post Hw Hsp) as (a & b & Hstrip).
  unfold is_valid_text. simpl. rewrite Hstrip.
  assert (∀ x, x ∈ w → x ∈ a ++ w ++ b) as Hin.
  { intros x Hx. apply elem_of_app. right. apply elem_of_app. by left. }
  assert (bool_decide (a ++ w ++ b = []) = false) as ->.
  { apply bool_decide_eq_false. intros H. apply app_eq_nil in H as [_ H].
    apply app_eq_nil in H as [H _]. done. }
  assert (match_space_punct (a ++ w ++ b) = false) as ->.
  { apply not_true_is_false. intros H.
    destruct w as [|x w]; [done|].
    apply Forall_cons in Haln as [Hx _].
    destruct (match_space_punct_sound _ x H) as [Hcls| ->].
    - apply Hin. by left.
    - rewrite (alnum_not_respace _ Hlaws x Hx), (alnum_not_punct _ Hlaws x Hx) in Hcls.
      done.
    - pose proof (alnum_not_pyspace _ Hlaws _ Hx) as Hns.
      pose proof (linefeed_pyspace _ Hlaws) as Hlf. congruence. }
  assert (isdigit (a ++ w ++ b) = false) as -> by (by rewrite <- Hstrip).
  assert (bool_decide (distinct_count (a ++ w ++ b) = 1) = false) as ->.
  { apply bool_decide_eq_false.
    destruct w as [|x [|y w]]; [done|simpl in Hlen; lia|].
    assert (x ≠ y).
    { apply NoDup_cons in Hnd as [Hx _]. intros ->. apply Hx. by left. }
    pose proof (distinct_count_two (a ++ (x :: y :: w) ++ b) x y) as H2.
    assert (2 ≤ distinct_count (a ++ (x :: y :: w) ++ b)); [|lia].
    apply H2; [apply Hin; by left|apply Hin; right; by left|done]. }
  assert (match_runs (a ++ w ++ b) = false) as ->.
  { apply not_true_is_false. intros H.
    apply match_runs_sound in H as (body & tail & Heq & Hend & Hch).
    assert (tail = []) as ->.
    { destruct tail as [|c [|? ?]]; [done| |done].
      simpl in Hend. apply N.eqb_eq in Hend as ->.
      rewrite <- Hstrip in Heq. apply strip_last in Heq.
      rewrite (linefeed_pyspace _ Hlaws) in Heq. done. }
    rewrite app_nil_r in Heq. subst body.
    pose proof (changes_app_ge a (w ++ b)). pose proof (changes_app_ge w b).
    pose proof (changes_NoDup w Hnd). lia. }
  assert (search_alnum (a ++ w ++ b) = true) as ->.
  { unfold search_alnum. apply existsb_exists.
    destruct w as [|x w]; [done|]. exists x.
    apply Forall_cons in Haln as [Hx _]. split; [|done].
    apply list_elem_of_In, Hin. by left. }
  done.
Qed.

End Validity.

Ltac bool_to_prop H :=
  repeat first [ rewrite orb_true_iff in H | rewrite andb_true_iff in H
               | rewrite N.leb_le in H | rewrite N.eqb_eq in H ].

Lemma basic_latin_laws : UnicodeLaws basic_latin.
Proof.
  split; simpl.
  - intros c H. apply not_true_is_false. intros H2.
    unfold latin_letter, latin_isspace, in_range in *.
    bool_to_prop H. bool_to_prop H2. lia.
  - intros c H. apply not_true_is_false. intros H2.
    unfold latin_letter, latin_white_space, in_range in *.
    bool_to_prop H. bool_to_prop H2. lia.
  - intros c H. apply not_true_is_false. intros H2.
    unfold latin_letter, latin_punct, in_range in *.
    bool_to_prop H. bool_to_prop H2. lia.
  - done.
Qed.




(** A text of digits with a space or a mark is not a number: four distinct
    digits followed by another character make a valid text. *)
Example digits_and_more_valid :
  contains_distinct_alnum 4 (str "1234 5")
  ∧ is_valid_text (Str (str "1234 5")) = true
  ∧ is_valid_text (Str (str "1234!")) = true.
Proof.
  split; [|split; vm_compute; reflexivity].
  exists (str "1234"). split; [by exists [], (str " 5")|].
  split; [vm_compute; lia|]. split.
  - apply (bool_decide_unpack _). vm_compute. exact I.
  - repeat constructor.
Qed.

(** Four distinct digits are not valid either: the text is a number. *)
Example four_digits_invalid : is_valid_text (Str (str "1234")) = false.
Proof. vm_compute. reflexivity. Qed.

Example four_letters_valid : is_valid_text (Str (str "abcd")) = true.
Proof. vm_compute. reflexivity. Qed.

(** *** Translation *)

Lemma chinese_chars_filter s : chinese_chars s = filter is_cjk s.
Proof.
  unfold chinese_chars. induction s as [|c s IH]; [done|].
  simpl. rewrite filter_cons, IH.
  unfold in_range. destruct (decide (is_cjk c)) as [H|H]; unfold is_cjk in H.
  - replace ((19968 <=? c)%N && (c <=? 40959)%N) with true; [done|].
    symmetry. apply andb_true_intro. split; apply N.leb_le; lia.
  - replace ((19968 <=? c)%N && (c <=? 40959)%N) with false; [done|].
    symmetry. apply not_true_is_false. intros Hb.
    apply andb_true_iff in Hb as [H1 H2]. apply N.leb_le in H1, H2. lia.
Qed.

Lemma contains_chinese_spec s : contains_chinese (Str s) = true ↔ mostly_cjk s.
Proof.
  unfold contains_chinese, mostly_cjk. rewrite chinese_chars_filter.
  destruct s as [|c s].
  { rewrite bool_decide_eq_true_2 by done. split; [done|]. by intros [? _]. }
  rewrite bool_decide_eq_false_2 by done.
  rewrite Qle_bool_iff. unfold Qle. cbn [Qnum Qden].
  set (k := length (filter is_cjk (c :: s))). set (n := length (c :: s)).
  assert (n ≠ 0) as Hn by done.
  assert (Z.pos (Pos.of_nat n) = Z.of_nat n) as ->.
  { rewrite <- positive_nat_Z, Nat2Pos.id by done. done. }
  split.
  - intros H. split; [done|]. lia.
  - intros [_ H]. lia.
Qed.

Section TranslationFacts.
Variable chain : cell → pystr → result (option pystr).

Lemma translate_result calls text topic :
  translate chain calls text topic
  = (calls ++ [text], (translate chain [] text topic).2).
Proof. done. Qed.

(** Only the texts that are not mostly CJK reach the model, and the mostly
    CJK ones come back as they are. *)
Lemma gather_spec calls texts topic log r :
  gather chain calls texts topic = (log, r) →
  (∃ sent, log = calls ++ sent ∧ Forall (λ t, contains_chinese t = false) sent)
  ∧ ∀ out, r = Ok out →
      length out = length texts
      ∧ ∀ i t, texts !! i = Some t → contains_chinese t = true → out !! i = Some t.
Proof.
  revert calls log r. induction texts as [|text texts IH]; intros calls log r; simpl.
  - intros [= <- <-]. split.
    + exists []. by rewrite app_nil_r.
    + intros out [= <-]. split; [done|]. intros i t Hi. done.
  - unfold translate_with_semaphore.
    destruct (contains_chinese text) eqn:Hcn.
    + destruct (gather chain calls texts topic) as [log' r'] eqn:Hg.
      apply IH in Hg as [Hlog Hout].
      destruct r' as [ts|e]; intros [= <- <-].
      * split; [done|]. intros out [= <-].
        destruct (Hout ts eq_refl) as [Hlen Hkeep]. split; [simpl; lia|].
        intros [|i] t Hi Ht; simpl in *; [congruence|]. by apply Hkeep.
      * split; [done|]. done.
    + rewrite translate_result.
      destruct ((translate chain [] text topic).2) as [translated|e].
      * destruct (gather chain (calls ++ [text]) texts topic) as [log' r'] eqn:Hg.
        apply IH in Hg as [(sent & -> & Hsent) Hout].
        destruct r' as [ts|e]; intros [= <- <-].
        -- split.
           { exists (text :: sent). rewrite <- app_assoc. split; [done|].
             by constructor. }
           intros out [= <-].
           destruct (Hout ts eq_refl) as [Hlen Hkeep]. split; [simpl; lia|].
           intros [|i] t Hi Ht; simpl in *; [congruence|]. by apply Hkeep.
        -- split; [|done].
           exists (text :: sent). rewrite <- app_assoc. split; [done|].
           by constructor.
      * intros [= <- <-]. split; [|done].
        exists [text]. split; [done|]. by constructor.
Qed.

(** C5. A non-empty text at least half of whose characters are CJK is
    returned as it is, with no model invocation: by the single-text entry
    point, by one task of the batch, and, inside any batch, at its own
    position and without ever appearing among the texts sent to the model. *)
Theorem C5_cjk_text_unchanged (s topic : pystr) (calls : list cell) :
  mostly_cjk s →
  translate_with_semaphore chain calls (Str s) topic = (calls, Ok (Str s))
  ∧ translate_text chain calls (Str s) topic = (calls, Str s)
  ∧ ∀ texts log r,
      batch_translate chain texts topic = (log, r) →
      (Str s ∉ log)
      ∧ (∀ out i, r = Ok out → texts !! i = Some (Str s) → out !! i = Some (Str s)).
Proof.
  intros Hcjk. apply contains_chinese_spec in Hcjk.
  unfold translate_with_semaphore, translate_text. rewrite Hcjk.
  split; [done|]. split; [done|].
  intros texts log r Hb. unfold batch_translate in Hb.
  apply gather_spec in Hb as [(sent & -> & Hsent) Hout]. split.
  - simpl. intros Hin. rewrite Forall_forall in Hsent.
    apply Hsent in Hin. congruence.
  - intros out i -> Hi. destruct (Hout out eq_refl) as [_ Hkeep]. by apply Hkeep.
Qed.

(** C2, on the code: in [batch_translate] the failure of one text is not
    caught; the batch raises and yields no list at all. *)
Theorem C2_batch_failure_propagates (texts : list cell) (topic : pystr)
    (text : cell) (e : exn) :
  text ∈ texts →
  contains_chinese text = false →
  (translate chain [] text topic).2 = Raise e →
  ∃ e', (batch_translate chain texts topic).2 = Raise e'.
Proof.
  intros Hin Hcn Hfail. unfold batch_translate. generalize (@nil cell) as calls.
  induction texts as [|t texts IH]; intros calls; [by apply elem_of_nil in Hin|].
  simpl. unfold translate_with_semaphore.
  destruct (contains_chinese t) eqn:Ht.
  - apply elem_of_cons in Hin as [->|Hin]; [congruence|].
    destruct (IH Hin calls) as [e' He'].
    destruct (gather chain calls texts topic) as [log [ts|e0]]; simpl in *;
      [done|by exists e0].
  - rewrite translate_result.
    destruct ((translate chain [] t topic).2) as [translated|e0] eqn:Hres;
      [|by exists e0].
    apply elem_of_cons in Hin as [->|Hin]; [congruence|].
    destruct (IH Hin (calls ++ [t])) as [e' He'].
    destruct (gather chain (calls ++ [t]) texts topic) as [log [ts|e1]]; simpl in *;
      [done|by exists e1].
Qed.

End TranslationFacts.

Lemma C5_cjk_text_unchanged_witness :
  translate_with_semaphore failing_chain []
    (Str [20013; 25991; 111; 107]%N) (str "reviews")
  = ([], Ok (Str [20013; 25991; 111; 107]%N))
  ∧ translate_text failing_chain [] (Str [20013; 25991; 111; 107]%N) (str "reviews")
    = ([], Str [20013; 25991; 111; 107]%N)
  ∧ ∀ texts log r,
      batch_translate failing_chain texts (str "reviews") = (log, r) →
      (Str [20013; 25991; 111; 107]%N ∉ log)
      ∧ (∀ out i, r = Ok out → texts !! i = Some (Str [20013; 25991; 111; 107]%N) →
                  out !! i = Some (Str [20013; 25991; 111; 107]%N)).
Proof.
  apply (C5_cjk_text_unchanged failing_chain [20013; 25991; 111; 107]%N
           (str "reviews") []).
  split; [done|]. vm_compute. lia.
Defined.

Lemma C2_batch_failure_propagates_witness :
  ∃ e', (batch_translate failing_chain
           [Str (str "fine"); Str (str "bad input"); Str (str "also fine")]
           (str "reviews")).2 = Raise e'.
Proof.
  apply (C2_batch_failure_propagates failing_chain _ (str "reviews")
           (Str (str "bad input")) (Exception (str "timeout"))).
  - right. left.
  - vm_compute. reflexivity.
  - vm_compute. reflexivity.
Defined.

(** The same failing text through both entry points: the batch raises, the
    single-text entry point answers with the inline error text. *)
Example batch_raises :
  batch_translate failing_chain
    [Str (str "fine"); Str (str "bad input"); Str (str "also fine")] (str "reviews")
  = ([Str (str "fine"); Str (str "bad input")], Raise (Exception (str "timeout"))).
Proof. vm_compute. reflexivity. Qed.

Example single_text_inline_error :
  translate_text failing_chain [] (Str (str "bad input")) (str "reviews")
  = ([Str (str "bad input")], Str (error_prefix ++ str "timeout")).
Proof. vm_compute. reflexivity. Qed.

(** The entry point of the CSV upload on a frame with that text: no frame
    comes back. *)
Example csv_upload_raises :
  (perform_translation failing_chain upload_frame (str "comment") (str "reviews")).2
  = Raise (Exception (str "timeout")).
Proof. vm_compute. reflexivity. Qed.

(** *** Construction of the language model chain *)

Module LlmToolsFacts.
Import LlmTools.

Section ConstructorFacts.
Variable Runnable : Type.
Variable build_chain : pyobj → pystr → pystr → pyobj → result Runnable.

(** C8, as amended. [LanguageModelChain.__init__] raises unless the schema
    class derives from [BaseModel], both messages are strings and the model
    has an [invoke] attribute; with these three checks passed it returns
    exactly when the libraries build the chain from the schema class, the
    system message with the format instructions appended, the user message
    and the model. The messages are not checked for emptiness: with a valid
    schema class and model, two empty messages pass the checks, and the
    constructor returns exactly when the libraries build the chain. *)
Theorem C8_init_validation (model_cls sys_msg user_msg model : pyobj) :
  (is_ok (init Runnable build_chain model_cls sys_msg user_msg model) = true
   ↔ issubclass model_cls (str "BaseModel") = Ok true
     ∧ hasattr model (str "invoke") = true
     ∧ ∃ s u, sys_msg = PyStr s ∧ user_msg = PyStr u
              ∧ is_ok (build_chain model_cls (s ++ format_instructions) u model) = true)
  ∧ (issubclass model_cls (str "BaseModel") = Ok true →
     hasattr model (str "invoke") = true →
     is_ok (init Runnable build_chain model_cls (PyStr []) (PyStr []) model)
     = is_ok (build_chain model_cls format_instructions [] model)).
Proof.
  split.
  - unfold init. split.
    + destruct (issubclass model_cls (str "BaseModel")) as [[|]|e]; simpl; try done.
      destruct sys_msg as [|s| | |]; try done.
      destruct user_msg as [|u| | |]; try done.
      destruct (hasattr model (str "invoke")); simpl; [|done].
      intros H. split; [done|]. split; [done|]. exists s, u.
      by destruct (build_chain model_cls (s ++ format_instructions) u model).
    + intros (-> & -> & s & u & -> & -> & Hbuild). simpl.
      by destruct (build_chain model_cls (s ++ format_instructions) u model).
  - intros Hcls Hmodel. unfold init. rewrite Hcls, Hmodel. simpl.
    by destruct (build_chain model_cls format_instructions [] model).
Qed.

(** The three checks, one at a time, whatever the libraries. *)
Example init_rejects_plain_class :
  init Runnable build_chain (PyClass (str "Plain") [] []) (PyStr (str "s"))
    (PyStr (str "u")) runnable_model
  = Raise (ValueError (str "model_cls must be a subclass of Pydantic BaseModel")).
Proof. reflexivity. Qed.

Example init_rejects_non_string :
  init Runnable build_chain schema_class PyNone (PyStr (str "u")) runnable_model
  = Raise (ValueError (str "sys_msg and user_msg must be strings")).
Proof. reflexivity. Qed.

Example init_rejects_model_without_invoke :
  init Runnable build_chain schema_class (PyStr (str "s")) (PyStr (str "u")) (PyObject [])
  = Raise (ValueError
      (str "model must be a LangChain Runnable object (must have invoke method)")).
Proof. reflexivity. Qed.

(** A schema that is no class is refused by [issubclass] itself, with a
    [TypeError]. *)
Example init_rejects_non_class :
  init Runnable build_chain PyNone (PyStr (str "s")) (PyStr (str "u")) runnable_model
  = Raise (TypeError (str "issubclass() arg 1 must be a class")).
Proof. reflexivity. Qed.

End ConstructorFacts.

Lemma C8_init_validation_witness :
  is_ok (init (pystr * pystr) accepting_libraries schema_class (PyStr []) (PyStr [])
           runnable_model)
  = is_ok (accepting_libraries schema_class format_instructions [] runnable_model).
Proof.
  apply (proj2 (C8_init_validation (pystr * pystr) accepting_libraries
                  schema_class (PyStr []) (PyStr []) runnable_model)).
  - vm_compute. reflexivity.
  - vm_compute. reflexivity.
Defined.

(** C8, as stated, fails: an empty system message and an empty user message
    pass the three checks. With libraries that accept them the chain is
    built, and with any libraries the outcome is theirs. *)
Lemma C8_empty_templates_accepted :
  init (pystr * pystr) accepting_libraries schema_class (PyStr []) (PyStr [])
    runnable_model
  = Ok {| model_cls := schema_class; chain := (format_instructions, []) |}
  ∧ ∀ (Runnable : Type) (build_chain : pyobj → pystr → pystr → pyobj → result Runnable),
      is_ok (init Runnable build_chain schema_class (PyStr []) (PyStr []) runnable_model)
      = is_ok (build_chain schema_class format_instructions [] runnable_model).
Proof.
  split; [vm_compute; reflexivity|].
  intros Runnable build_chain. unfold init.
  change (issubclass schema_class (str "BaseModel")) with (Ok true).
  change (hasattr runnable_model (str "invoke")) with true. simpl.
  by destruct (build_chain schema_class format_instructions [] runnable_model).
Qed.

(** After the three checks an exception of the libraries is the
    constructor's. *)
Example init_raises_with_libraries :
  init (pystr * pystr) refusing_libraries schema_class (PyStr (str "s"))
    (PyStr (str "u")) runnable_model
  = Raise (ValueError (str "invalid template")).
Proof. reflexivity. Qed.

End LlmToolsFacts.

(** *** Classification: the loop and the assembly *)

Lemma filter_labelled {V} (f : pystr → V) (keep : pystr → bool) (cols : list pystr) :
  List.filter (λ p : pystr * V, keep p.1) ((λ c, (c, f c)) <$> cols)
  = (λ c, (c, f c)) <$> List.filter keep cols.
Proof.
  induction cols as [|c cols IH]; simpl; [done|].
  destruct (keep c); simpl; [f_equal|]; exact IH.
Qed.

Lemma list_filter_all {A} (f : A → bool) (l : list A) :
  (∀ x, x ∈ l → f x = true) → List.filter f l = l.
Proof.
  induction l as [|x l IH]; intros H; simpl; [done|].
  rewrite H by left. f_equal. apply IH. intros y Hy. apply H. by right.
Qed.

Lemma list_filter_ext_in {A} (f g : A → bool) (l : list A) :
  (∀ x, x ∈ l → f x = g x) → List.filter f l = List.filter g l.
Proof.
  induction l as [|x l IH]; intros H; simpl; [done|].
  rewrite H by left. rewrite IH; [done|]. intros y Hy. apply H. by right.
Qed.

Lemma find_labelled_none {V} (f : pystr → V) (name : pystr) (cols : list pystr) :
  name ∉ cols →
  List.find (λ p : pystr * V, bool_decide (p.1 = name)) ((λ c, (c, f c)) <$> cols) = None.
Proof.
  induction cols as [|c cols IH]; intros Hn; simpl; [done|].
  rewrite bool_decide_eq_false_2.
  - apply IH. intros H. apply Hn. by right.
  - intros ->. apply Hn. by left.
Qed.

Lemma fmap_concat_list {A B} (f : A → B) (ls : list (list A)) :
  f <$> concat ls = concat ((λ l : list A, f <$> l) <$> ls).
Proof.
  induction ls as [|l ls IH]; simpl; [done|]. by rewrite fmap_app, IH.
Qed.

Lemma elem_of_concat {A} (x : A) (ls : list (list A)) :
  x ∈ concat ls ↔ ∃ l, x ∈ l ∧ l ∈ ls.
Proof.
  induction ls as [|l ls IH]; simpl.
  - split; [by intros ?%elem_of_nil|]. by intros (l & _ & ?%elem_of_nil).
  - rewrite elem_of_app, IH. split.
    + intros [H|(l' & Hx & Hl')]; [exists l; split; [done|by left]|].
      exists l'. split; [done|by right].
    + intros (l' & Hx & Hl'). apply elem_of_cons in Hl' as [->|Hl']; [by left|].
      right. by exists l'.
Qed.

Section Assembly.

(** The labelled values of a row before any column is dropped. *)
Let base (df : DataFrame) (r : gmap pystr cell) : list (pystr * value) :=
  (λ c, (c, lift (cell_at c r))) <$> columns df.

Let id_value (o : option ClassificationRecord) : value :=
  match o with Some rec => VStr (rec_id rec) | None => VNaN end.

Lemma suffixed_plain df c :
  plain_frame df → c ∈ columns df → suffixed right_columns (str "_x") c = c.
Proof.
  intros (_ & Hid & Hcat) Hc. unfold suffixed, right_columns.
  rewrite decide_False; [done|].
  intros H. apply elem_of_cons in H as [->|H]; [done|].
  apply list_elem_of_singleton in H as ->. done.
Qed.

Lemma merge_left_plain df results :
  plain_frame df → results ≠ [] →
  merge_left df results
  = Ok (columns df ++ [str "id"; str "categories"],
        (λ p, base df p.1 ++ [(str "id", id_value p.2);
                              (str "categories", categories_value p.2)])
          <$> joined df results).
Proof.
  intros Hplain Hres. pose proof Hplain as (Huid & Hid & Hcat).
  unfold merge_left. destruct results as [|rec0 results0] eqn:Hresults; [done|].
  rewrite <- Hresults. clear Hresults Hres.
  rewrite (bool_decide_eq_true_2 _ Huid). simpl negb. cbv iota.
  assert (suffix_clash (columns df) = false) as ->.
  { unfold suffix_clash, right_columns. simpl.
    rewrite (bool_decide_eq_false_2 _ Hid), (bool_decide_eq_false_2 _ Hcat). done. }
  assert (suffixed right_columns (str "_x") <$> columns df = columns df) as Hsuf.
  { rewrite <- (list_fmap_id (columns df)) at 2. apply list_fmap_ext.
    intros i c Hc. apply (suffixed_plain df); [done|].
    by eapply list_elem_of_lookup_2. }
  assert (suffixed (columns df) (str "_y") (str "id") = str "id") as Hsid.
  { unfold suffixed. by rewrite decide_False. }
  assert (suffixed (columns df) (str "_y") (str "categories") = str "categories") as Hsc.
  { unfold suffixed. by rewrite decide_False. }
  rewrite Hsuf, Hsid, Hsc. f_equal. f_equal.
  unfold joined. rewrite fmap_concat_list. f_equal.
  rewrite <- list_fmap_compose. apply list_fmap_ext.
  intros i r Hr. simpl. unfold merge_row. rewrite Hsid, Hsc.
  assert ((λ c, (suffixed right_columns (str "_x") c, lift (cell_at c r))) <$> columns df
          = base df r) as ->.
  { unfold base. apply list_fmap_ext. intros j c Hc. simpl.
    rewrite (suffixed_plain df); [done|done|]. by eapply list_elem_of_lookup_2. }
  fold (matching results r).
  destruct (matching results r) as [|m ms]; [done|].
  simpl. f_equal. induction ms as [|m' ms IH]; simpl; [done|]. by rewrite IH.
Qed.

Lemma kept_base df r (names : list pystr) :
  List.filter (λ p : pystr * value, negb (bool_decide (p.1 ∈ names))) (base df r)
  = (λ c, (c, lift (cell_at c r)))
      <$> List.filter (λ c, negb (bool_decide (c ∈ names))) (columns df).
Proof.
  unfold base.
  exact (filter_labelled (λ c, lift (cell_at c r))
           (λ c : pystr, negb (bool_decide (c ∈ names))) (columns df)).
Qed.

Lemma filter_ids_plain df :
  plain_frame df →
  List.filter (λ c, negb (bool_decide (c ∈ [str "unique_id"; str "id"]))) (columns df)
  = kept_columns df.
Proof.
  intros (_ & Hid & _). unfold kept_columns. apply list_filter_ext_in.
  intros c Hc. f_equal. apply bool_decide_ext. split.
  - intros H. apply elem_of_cons in H as [->|H]; [done|].
    apply list_elem_of_singleton in H as ->. done.
  - intros ->. by left.
Qed.

Lemma drop_ids_plain df results :
  plain_frame df → results ≠ [] →
  merge_left df results ≫= drop_columns [str "unique_id"; str "id"]
  = Ok (kept_columns df ++ [str "categories"],
        (λ p, ((λ c, (c, lift (cell_at c p.1))) <$> kept_columns df)
              ++ [(str "categories", categories_value p.2)])
          <$> joined df results).
Proof.
  intros Hplain Hres. pose proof Hplain as (Huid & Hid & Hcat).
  rewrite merge_left_plain by done. simpl. unfold drop_columns. simpl.
  rewrite (bool_decide_eq_true_2 (str "unique_id" ∈ _)).
  2:{ apply elem_of_app. by left. }
  rewrite (bool_decide_eq_true_2 (str "id" ∈ _)).
  2:{ apply elem_of_app. right. by left. }
  simpl. f_equal. f_equal.
  - rewrite List.filter_app, filter_ids_plain by done. done.
  - rewrite <- list_fmap_compose. apply list_fmap_ext. intros i [r o] _. simpl.
    rewrite List.filter_app, kept_base, filter_ids_plain by done. done.
Qed.

(** Single-label assembly of a plain frame with at least one record. *)
Lemma assemble_single df results :
  plain_frame df → results ≠ [] →
  assemble df results false
  = Ok {| rcolumns := kept_columns df ++ [str "categories"];
          rrows := (λ p, kept_values df p.1 ++ [categories_value p.2])
                     <$> joined df results |}.
Proof.
  intros Hplain Hres. unfold assemble.
  pose proof (drop_ids_plain df results Hplain Hres) as Hdrop.
  destruct (merge_left df results) as [merged|e]; [|done].
  simpl in Hdrop. simpl. rewrite Hdrop. simpl. unfold to_frame. simpl.
  f_equal. f_equal. rewrite <- list_fmap_compose. apply list_fmap_ext.
  intros i [r o] _. simpl. rewrite fmap_app. simpl. f_equal.
  unfold kept_values. by rewrite <- list_fmap_compose.
Qed.

End Assembly.

Lemma find_app_none {A} (f : A → bool) (l1 l2 : list A) :
  List.find f l1 = None → List.find f (l1 ++ l2) = List.find f l2.
Proof.
  induction l1 as [|x l1 IH]; simpl; [done|].
  destruct (f x); [done|exact IH].
Qed.

Lemma find_labels_none {V} (name : pystr) (row : list (pystr * V)) :
  name ∉ row.*1 → List.find (λ p : pystr * V, bool_decide (p.1 = name)) row = None.
Proof.
  induction row as [|[c v] row IH]; intros Hn; simpl; [done|].
  rewrite bool_decide_eq_false_2.
  - apply IH. intros H. apply Hn. by right.
  - intros ->. apply Hn. by left.
Qed.

Lemma kept_columns_no_categories df :
  plain_frame df → str "categories" ∉ kept_columns df.
Proof.
  intros (_ & _ & Hcat) H. apply Hcat.
  unfold kept_columns in H. apply list_elem_of_In, filter_In in H as [H _].
  by apply list_elem_of_In.
Qed.

Lemma filter_drop_categories (kept : list pystr) :
  str "categories" ∉ kept →
  List.filter (λ c, negb (bool_decide (c ∈ [str "categories"])))
    (kept ++ [str "categories"]) = kept.
Proof.
  intros Hnc. rewrite List.filter_app.
  rewrite (list_filter_all _ kept).
  - cbn [List.filter].
    rewrite (bool_decide_eq_true_2 (str "categories" ∈ [str "categories"])) by left.
    cbn [negb]. apply app_nil_r.
  - intros c Hc. apply negb_true_iff, bool_decide_eq_false.
    intros Hin. apply list_elem_of_singleton in Hin as ->. done.
Qed.

Lemma filter_drop_categories_row (row : list (pystr * value)) (v : value) :
  str "categories" ∉ row.*1 →
  List.filter (λ p : pystr * value, negb (bool_decide (p.1 ∈ [str "categories"])))
    (row ++ [(str "categories", v)]) = row.
Proof.
  intros Hnc. rewrite List.filter_app.
  rewrite (list_filter_all _ row).
  - cbn [List.filter fst].
    rewrite (bool_decide_eq_true_2 (str "categories" ∈ [str "categories"])) by left.
    cbn [negb]. apply app_nil_r.
  - intros [c w] Hc. apply negb_true_iff, bool_decide_eq_false. cbn [fst].
    intros Hin. apply list_elem_of_singleton in Hin as ->.
    apply Hnc. apply list_elem_of_fmap. by exists (str "categories", w).
Qed.

(** The expansion of a frame whose last column is [categories]. *)
Lemma expand_last_column {A} (kept : list pystr) (l : list A)
    (pairs : A → list (pystr * value)) (v : A → value) :
  str "categories" ∉ kept →
  (∀ a, str "categories" ∉ (pairs a).*1) →
  expand_categories
    (kept ++ [str "categories"], (λ a, pairs a ++ [(str "categories", v a)]) <$> l)
  = Ok (kept ++ ((λ lb, str "category_" ++ label_str lb)
                   <$> union_labels (concat ((λ a, (pd_series (v a)).*1) <$> l))),
        (λ a, pairs a
              ++ ((λ lb, (str "category_" ++ label_str lb,
                          series_get (pd_series (v a)) lb))
                    <$> union_labels (concat ((λ a, (pd_series (v a)).*1) <$> l))))
          <$> l).
Proof.
  intros Hnc Hrows. unfold expand_categories. cbn [fst snd].
  rewrite (bool_decide_eq_true_2 (str "categories" ∈ _)).
  2:{ apply elem_of_app. right. by left. }
  cbn [negb].
  assert (((λ row : list (pystr * value), pd_series (column_of (str "categories") row))
             <$> ((λ a, pairs a ++ [(str "categories", v a)]) <$> l))
          = (λ a, pd_series (v a)) <$> l) as ->.
  { rewrite <- list_fmap_compose. apply list_fmap_ext. intros i a _.
    cbn [compose]. f_equal. unfold column_of.
    rewrite find_app_none by (by apply find_labels_none).
    cbn [List.find fst snd]. by rewrite bool_decide_eq_true_2. }
  assert (((λ s : list (label * value), s.*1) <$> ((λ a, pd_series (v a)) <$> l))
          = (λ a, (pd_series (v a)).*1) <$> l) as ->.
  { by rewrite <- list_fmap_compose. }
  unfold drop_columns. cbn [fst snd List.filter].
  rewrite (bool_decide_eq_true_2 (str "categories" ∈ _)).
  2:{ apply elem_of_app. right. by left. }
  cbn [negb]. unfold mbind, result_bind. cbn [fst snd].
  rewrite filter_drop_categories by done. f_equal. f_equal.
  rewrite <- list_fmap_compose.
  rewrite zip_with_fmap_l, zip_with_fmap_r, zip_with_diag.
  apply list_fmap_ext. intros i a _. cbn [compose].
  by rewrite filter_drop_categories_row.
Qed.

Lemma assemble_multi df results :
  plain_frame df → results ≠ [] →
  assemble df results true
  = Ok {| rcolumns :=
            kept_columns df
            ++ ((λ l, str "category_" ++ label_str l)
                  <$> union_labels
                        (concat ((λ p, (pd_series (categories_value p.2)).*1)
                                   <$> joined df results)));
          rrows :=
            (λ p, kept_values df p.1
                  ++ (series_get (pd_series (categories_value p.2))
                        <$> union_labels
                              (concat ((λ p, (pd_series (categories_value p.2)).*1)
                                         <$> joined df results))))
              <$> joined df results |}.
Proof.
  intros Hplain Hres. unfold assemble.
  pose proof (drop_ids_plain df results Hplain Hres) as Hdrop.
  pose proof (kept_columns_no_categories df Hplain) as Hnc.
  unfold mbind, result_bind in *.
  destruct (merge_left df results) as [merged|e]; [|done].
  rewrite Hdrop. clear Hdrop merged.
  rewrite (expand_last_column (kept_columns df) (joined df results)
             (λ p, (λ c, (c, lift (cell_at c p.1))) <$> kept_columns df)
             (λ p, categories_value p.2)).
  - unfold to_frame. cbn [fst snd]. f_equal. f_equal.
    rewrite <- list_fmap_compose. apply list_fmap_ext. intros i p _.
    cbn [compose]. rewrite fmap_app. f_equal.
    + unfold kept_values. by rewrite <- list_fmap_compose.
    + by rewrite <- list_fmap_compose.
  - done.
  - intros p. rewrite <- list_fmap_compose.
    rewrite (list_fmap_ext _ id (kept_columns df)) by done.
    by rewrite list_fmap_id.
Qed.

(** *** Multi-label expansion *)

Lemma union_labels_elem_of (ls : list label) (l : label) :
  l ∈ union_labels ls ↔ l ∈ ls.
Proof.
  unfold union_labels.
  by rewrite elem_of_reverse, elem_of_remove_dups, elem_of_reverse.
Qed.

Lemma union_labels_NoDup (ls : list label) : NoDup (union_labels ls).
Proof.
  unfold union_labels. rewrite reverse_Permutation. apply NoDup_remove_dups.
Qed.

Lemma pd_series_by_position (o : option ClassificationRecord) :
  pd_series (categories_value o) = imap (λ i v, (LInt i, v)) (by_position o).
Proof.
  destruct o as [[rid [name|names]]|]; cbn; [done| |done].
  by rewrite imap_fmap.
Qed.

Lemma find_position (l : list value) (k i : nat) :
  List.find (λ p : label * value, bool_decide (p.1 = LInt (k + i)))
            (imap (λ j v, (LInt (k + j), v)) l)
  = (λ v, (LInt (k + i), v)) <$> l !! i.
Proof.
  revert k i. induction l as [|x l IH]; intros k i; [done|].
  rewrite imap_cons. cbn [List.find fst].
  rewrite (imap_ext _ (λ j v, (LInt (S k + j), v)) l)
    by (intros; cbn; do 2 f_equal; lia).
  destruct i as [|i].
  - by rewrite bool_decide_eq_true_2.
  - rewrite bool_decide_eq_false_2 by (intros [= H]; lia).
    replace (k + S i) with (S k + i) by lia. apply IH.
Qed.

Lemma series_get_position (l : list value) (i : nat) :
  series_get (imap (λ j v, (LInt j, v)) l) (LInt i) = default VNaN (l !! i).
Proof.
  unfold series_get. pose proof (find_position l 0 i) as H. cbn [Nat.add] in H.
  rewrite H. by destruct (l !! i).
Qed.

Lemma series_labels_position (l : list value) :
  (imap (λ j v, (LInt j, v)) l).*1 = LInt <$> seq 0 (length l).
Proof. rewrite fmap_imap. exact (imap_seq_0 l LInt). Qed.

Lemma by_position_no_boolean (o : option ClassificationRecord) (i : nat) (b : bool) :
  at_position o i ≠ VBool b.
Proof.
  unfold at_position, by_position.
  destruct o as [[id [name|names]]|]; cbn.
  - by destruct i as [|[|i]].
  - rewrite list_lookup_fmap. by destruct (names !! i).
  - by destruct i as [|[|i]].
Qed.

Lemma joined_elem_of df results p :
  p ∈ joined df results ↔
  p.1 ∈ rows df
  ∧ (p.2 = None ∧ matching results p.1 = []
     ∨ ∃ rec, p.2 = Some rec ∧ rec ∈ matching results p.1).
Proof.
  unfold joined. rewrite elem_of_concat. split.
  - intros (l & Hp & Hl). apply list_elem_of_fmap in Hl as (r & -> & Hr).
    destruct (matching results r) as [|m ms] eqn:Hm.
    + apply list_elem_of_singleton in Hp as ->. simpl. split; [done|]. by left.
    + apply list_elem_of_fmap in Hp as (rec & -> & Hrec). simpl.
      split; [done|]. right. rewrite Hm. by exists rec.
  - intros [Hr H]. destruct p as [r o]. simpl in *.
    exists (match matching results r with
            | [] => [(r, None)]
            | ms => (λ rec, (r, Some rec)) <$> ms
            end).
    split.
    + destruct H as [[-> ->]|(rec & -> & Hrec)]; [by left|].
      destruct (matching results r) as [|m ms]; [by apply elem_of_nil in Hrec|].
      apply list_elem_of_fmap. by exists rec.
    + apply list_elem_of_fmap. by exists r.
Qed.

Lemma matching_elem_of results r rec :
  rec ∈ matching results r → rec ∈ results.
Proof.
  unfold matching. intros H. apply list_elem_of_In, filter_In in H as [H _].
  by apply list_elem_of_In.
Qed.


Lemma two_rows_plain : plain_frame two_rows.
Proof.
  unfold plain_frame, two_rows. cbn [columns]. split; [right; left|].
  split; intros H; apply list_elem_of_In in H; vm_compute in H; intuition discriminate.
Qed.


(** The scenario of the specification, evaluated: the set of A and B for the
    first row, the set of B alone for the second. The columns are named
    after the positions and hold the names. *)
Example two_rows_expanded :
  assemble two_rows two_records true
  = Ok {| rcolumns := [str "text"; str "category_0"; str "category_1"];
          rrows := [ [VStr (str "first text"); VStr (str "A"); VStr (str "B")];
                     [VStr (str "second text"); VStr (str "B"); VNaN] ] |}.
Proof. vm_compute. reflexivity. Qed.

(** *** The classification run *)

Section Run.
Context {db : UnicodeDB} {dt : Dtypes}.
Variable chain : Chain.
Variable cats : list (pystr * pystr).
Variable topic : pystr.

Let input_of (table : pystr) : ChainInput :=
  {| text_topic := topic; categories := cats; text_table := table |}.

Lemma classify_step_spec tr0 res0 table :
  ∃ tr1,
    classify_step chain cats topic (tr0, res0) table
    = (tr1, res0 ++ records_of (classify_single_batch chain (length (invocations tr0))
                                  table cats topic))
    ∧ invocations tr1 = invocations tr0 ++ [input_of table]
    ∧ length (checkpoints tr1) ≤ length (checkpoints tr0) + 1.
Proof.
  unfold classify_step.
  destruct (classify_single_batch chain (length (invocations tr0)) table cats topic)
    as [result|]; eexists; cbn [records_of].
  - split; [reflexivity|]. cbn. split; [done|]. rewrite length_app. cbn. lia.
  - rewrite app_nil_r. split; [reflexivity|]. cbn. split; [done|lia].
Qed.

Lemma classify_loop_from tr0 res0 tables :
  ∃ tr, foldl (classify_step chain cats topic) (tr0, res0) tables
        = (tr, res0 ++ concat (imap (λ i table,
                                       records_of
                                         (classify_single_batch chain
                                            (length (invocations tr0) + i) table
                                            cats topic))
                                    tables))
        ∧ invocations tr = invocations tr0 ++ (input_of <$> tables)
        ∧ length (checkpoints tr) ≤ length (checkpoints tr0) + length tables.
Proof.
  revert tr0 res0. induction tables as [|table tables IH]; intros tr0 res0.
  - exists tr0. cbn. rewrite !app_nil_r. split; [done|]. split; [done|lia].
  - cbn [foldl].
    destruct (classify_step_spec tr0 res0 table) as (tr1 & -> & Hinv1 & Hcp1).
    set (res1 := res0 ++ records_of (classify_single_batch chain
                                       (length (invocations tr0)) table cats topic)).
    destruct (IH tr1 res1) as (tr & Hfold & Hinv & Hcp). exists tr.
    rewrite Hfold. split; [|split].
    + f_equal. subst res1. rewrite <- app_assoc. f_equal.
      cbn [imap concat]. rewrite Nat.add_0_r. f_equal. f_equal.
      apply imap_ext. intros i t _. cbn. do 2 f_equal.
      rewrite Hinv1, length_app. cbn. lia.
    + rewrite Hinv, Hinv1. cbn. by rewrite <- app_assoc.
    + cbn [length]. lia.
Qed.

(** The loop invokes the model once per table, in order, whatever the
    outcome of each invocation, and collects the records of the batches that
    succeed. *)
Lemma classify_loop_spec tables :
  ∃ tr, classify_loop chain cats topic tables
        = (tr, concat (imap (λ i table,
                               records_of
                                 (classify_single_batch chain i table cats topic))
                            tables))
        ∧ invocations tr = input_of <$> tables
        ∧ length (checkpoints tr) ≤ length tables.
Proof.
  unfold classify_loop.
  destruct (classify_loop_from {| invocations := []; checkpoints := [] |} [] tables)
    as (tr & Hfold & Hinv & Hcp).
  exists tr. by rewrite Hfold.
Qed.

Lemma failed_batch_is_empty n table e :
  chain n (input_of table) = Raise e →
  classify_single_batch chain n table cats topic = Records [].
Proof. unfold classify_single_batch. fold (input_of table). by intros ->. Qed.

Lemma no_record_batch n table :
  no_record (chain n (input_of table)) →
  records_of (classify_single_batch chain n table cats topic) = [].
Proof.
  unfold classify_single_batch, no_record. fold (input_of table).
  by destruct (chain n (input_of table)) as [[[[|? ?]|]|]|].
Qed.

Lemma loop_records_source tables rec :
  rec ∈ (classify_loop chain cats topic tables).2 →
  ∃ n input recs, chain n input = Ok (Some (Records recs)) ∧ rec ∈ recs.
Proof.
  destruct (classify_loop_spec tables) as (tr & -> & _). cbn [snd].
  intros H. apply elem_of_concat in H as (l & Hrec & Hl).
  apply list_elem_of_lookup in Hl as [i Hl]. rewrite list_lookup_imap in Hl.
  destruct (tables !! i) as [table|]; [|done]. cbn in Hl. injection Hl as <-.
  unfold classify_single_batch in Hrec.
  destruct (chain i _) as [[[recs|]|]|] eqn:Hc; try by apply elem_of_nil in Hrec.
  by exists i, (input_of table), recs.
Qed.

Lemma markdown_tables_any df cols (B : Z) out :
  dataframe_to_markdown_tables df cols B (str "any") (str "list") = Ok out →
  (0 < B)%Z
  ∧ Forall (λ c, c ∈ columns df) cols
  ∧ out = TablesList
            ((λ s, render_table cols
                     (slice (table_data df cols true) s (s + Z.to_nat B)))
               <$> range_from (length (table_data df cols true)) 0
                     (length (table_data df cols true)) (Z.to_nat B)).
Proof.
  unfold dataframe_to_markdown_tables.
  destruct (forallb _ cols) eqn:Hcols; cbn [negb]; [|done].
  case_bool_decide as HB; [done|].
  rewrite (bool_decide_eq_true_2 (str "any" ∈ _)) by left. cbn [negb].
  rewrite (bool_decide_eq_true_2 (str "list" ∈ _)) by left. cbn [negb].
  rewrite (bool_decide_eq_true_2 (str "any" = str "any")) by done.
  rewrite (bool_decide_eq_true_2 (str "list" = str "list")) by done.
  rewrite range0_positive by lia. cbn. intros [= <-].
  split; [lia|]. split; [|done].
  apply Forall_forall. intros c Hc. rewrite forallb_forall in Hcols.
  apply list_elem_of_In, Hcols in Hc. by apply bool_decide_eq_true in Hc.
Qed.

Lemma markdown_tables_explicit df cols (B : Z) :
  Forall (λ c, c ∈ columns df) cols → (0 < B)%Z →
  dataframe_to_markdown_tables df cols B (str "any") (str "list")
  = Ok (TablesList
          ((λ s, render_table cols
                   (slice (table_data df cols true) s (s + Z.to_nat B)))
             <$> range_from (length (table_data df cols true)) 0
                   (length (table_data df cols true)) (Z.to_nat B))).
Proof.
  intros Hcols HB. unfold dataframe_to_markdown_tables.
  replace (forallb (λ c, bool_decide (c ∈ columns df)) cols) with true.
  2:{ symmetry. apply forallb_forall. intros c Hc.
      apply bool_decide_eq_true. rewrite Forall_forall in Hcols.
      apply Hcols. by apply list_elem_of_In. }
  cbn [negb]. rewrite (bool_decide_eq_false_2 (B ≤ 0)%Z) by lia.
  rewrite (bool_decide_eq_true_2 (str "any" ∈ _)) by left. cbn [negb].
  rewrite (bool_decide_eq_true_2 (str "list" ∈ _)) by left. cbn [negb].
  rewrite (bool_decide_eq_true_2 (str "any" = str "any")) by done.
  rewrite (bool_decide_eq_true_2 (str "list" = str "list")) by done.
  rewrite range0_positive by lia. done.
Qed.

Lemma concat_all_nil {A} (ls : list (list A)) :
  (∀ l, l ∈ ls → l = []) → concat ls = [].
Proof.
  induction ls as [|l ls IH]; intros H; [done|].
  cbn. rewrite (H l) by left. apply IH. intros l' Hl'. apply H. by right.
Qed.

(** C4, on the code: a run in which no batch yields a record, as when every
    model call raises, does not return to its caller with missing fields; the
    join of the frame with the empty result list raises [KeyError]. *)
Theorem C4_no_record_run_raises (df : DataFrame) (text_column id_column : pystr)
    (B : Z) (is_multi_label : bool) :
  id_column ∈ columns df →
  text_column ∈ columns df →
  (0 < B)%Z →
  (∀ n input, no_record (chain n input)) →
  ∃ tr,
    classify_texts chain df text_column id_column cats topic B is_multi_label
    = (tr, Raise (KeyError (str "id")))
    ∧ length (invocations tr)
      = (length (table_data df [id_column; text_column] true) + Z.to_nat B - 1)
        / Z.to_nat B.
Proof.
  intros Hid Htext HB Hnone. unfold classify_texts.
  rewrite markdown_tables_explicit by (done || by repeat constructor).
  set (tables := _ <$> range_from _ _ _ _).
  destruct (classify_loop_spec tables) as (tr & -> & Hinv & _).
  exists tr. split.
  - f_equal. rewrite concat_all_nil; [done|].
    intros l Hl. apply list_elem_of_lookup in Hl as [i Hl].
    rewrite list_lookup_imap in Hl.
    destruct (tables !! i) as [table|]; [|done]. cbn in Hl. injection Hl as <-.
    apply no_record_batch, Hnone.
  - rewrite Hinv, length_fmap. unfold tables. rewrite length_fmap.
    rewrite range_from_length by lia. by rewrite Nat.sub_0_r.
Qed.

End Run.

Lemma C4_no_record_run_raises_witness :
  ∃ tr,
    classify_texts broken_chain two_rows (str "text") (str "unique_id")
      [(str "A", str "first category")] (str "reviews") 20 false
    = (tr, Raise (KeyError (str "id")))
    ∧ length (invocations tr)
      = (length (table_data two_rows [str "unique_id"; str "text"] true)
         + Z.to_nat 20 - 1) / Z.to_nat 20.
Proof.
  apply (C4_no_record_run_raises broken_chain [(str "A", str "first category")]
           (str "reviews") two_rows (str "text") (str "unique_id") 20 false).
  - right. left.
  - left.
  - lia.
  - intros n input. exact I.
Defined.

(** The run of the witness, evaluated: one invocation, then the exception. *)
Example broken_chain_run :
  (classify_texts broken_chain two_rows (str "text") (str "unique_id")
     [(str "A", str "first category")] (str "reviews") 20 false).2
  = Raise (KeyError (str "id")).
Proof. vm_compute. reflexivity. Qed.

(** A batch of two rows answered for one row only: the other row is kept,
    with a missing classification, and nothing is raised. *)
Example partial_answer_run :
  (classify_texts first_row_chain two_rows (str "text") (str "unique_id")
     [(str "A", str "first category")] (str "reviews") 20 false).2
  = Ok {| rcolumns := [str "text"; str "categories"];
          rrows := [ [VStr (str "first text"); VStr (str "A")];
                     [VStr (str "second text"); VNaN] ] |}.
Proof. vm_compute. reflexivity. Qed.

(** *** Rows with missing values *)

Lemma series_get_missing (lb : label) : series_get (pd_series VNaN) lb = VNaN.
Proof.
  unfold series_get. cbn [pd_series List.find fst snd].
  by destruct (bool_decide (LInt 0 = lb)).
Qed.

Lemma fmap_const_replicate {A B} (f : A → B) (b : B) (l : list A) :
  (∀ a, f a = b) → f <$> l = replicate (length l) b.
Proof.
  intros Hf. induction l as [|a l IH]; [done|]. cbn. by rewrite Hf, IH.
Qed.

Lemma table_data_prepared {dt : Dtypes} df cols :
  table_data df cols true
  = prepared (dropna df cols true) cols <$> List.filter (keep_any cols) (rows df).
Proof. done. Qed.

Lemma elem_of_slice {A} (l : list A) i j x : x ∈ slice l i j → x ∈ l.
Proof.
  unfold slice. intros H.
  apply elem_of_take in H as (k & H & _).
  rewrite lookup_drop in H. by eapply list_elem_of_lookup_2.
Qed.

Lemma joined_split df results l1 r l2 :
  rows df = l1 ++ r :: l2 → matching results r = [] →
  ∃ j1 j2, joined df results = j1 ++ [(r, None)] ++ j2.
Proof.
  intros Hrows Hm. unfold joined. rewrite Hrows, fmap_app, concat_app.
  cbn [fmap list_fmap concat]. rewrite Hm. by eexists _, _.
Qed.

Section MissingRows.
Context {db : UnicodeDB} {dt : Dtypes}.
Variable chain : Chain.
Variable cats : list (pystr * pystr).
Variable topic : pystr.


End MissingRows.

Lemma gap_frame_plain : plain_frame gap_frame.
Proof.
  unfold plain_frame, gap_frame. cbn [columns]. split; [right; left|].
  split; intros H; apply list_elem_of_In in H; vm_compute in H; intuition discriminate.
Qed.

(** The run on the frame with a gap, evaluated: the only table shows the
    first row, and the second row comes back with a missing classification. *)
Example gap_frame_run :
  classify_texts first_row_chain gap_frame (str "text") (str "unique_id")
    [(str "A", str "first category")] (str "reviews") 20 false
  = ({| invocations :=
          [ {| text_topic := str "reviews";
               categories := [(str "A", str "first category")];
               text_table :=
                 render_table [str "unique_id"; str "text"]
                   [ {[ str "text" := Str (str "first text");
                        str "unique_id" := Str (str "ID000001") ]} ] |} ];
        checkpoints :=
          [ [ {| rec_id := str "ID000001"; rec_categories := One (str "A") |} ] ] |},
     Ok gap_result).
Proof. vm_compute. reflexivity. Qed.



(** *** Cleaning of text columns *)

Section CleanFacts.
Context {db : UnicodeDB}.

Lemma no_pair_cons cls x y t :
  no_pair cls (x :: y :: t) = negb (cls x && cls y) && no_pair cls (y :: t).
Proof. done. Qed.

Lemma sub_runs_elem_of cls rep b t c :
  c ∈ sub_runs cls rep b t → c ∈ t ∨ c = rep.
Proof.
  revert b. induction t as [|x t IH]; intros b; simpl; [by intros ?%elem_of_nil|].
  destruct (cls x) eqn:Hx.
  - destruct b.
    + intros H. apply IH in H as [H|H]; [left; by right|by right].
    + intros H. apply elem_of_cons in H as [->|H].
      * destruct t as [|y t']; [left; by left|]. destruct (cls y); [by right|left; by left].
      * apply IH in H as [H|H]; [left; by right|by right].
  - intros H. apply elem_of_cons in H as [->|H]; [left; by left|].
    apply IH in H as [H|H]; [left; by right|by right].
Qed.

Lemma sub_runs_length cls rep b t : length (sub_runs cls rep b t) ≤ length t.
Proof.
  revert b. induction t as [|x t IH]; intros b; simpl; [done|].
  pose proof (IH true) as Ht. pose proof (IH false) as Hf.
  destruct (cls x); [destruct b|]; cbn [length]; lia.
Qed.

Lemma sub_runs_inside_head cls rep t c r :
  sub_runs cls rep true t = c :: r → cls c = false.
Proof.
  induction t as [|x t IH]; simpl; [done|].
  destruct (cls x) eqn:Hx; [exact IH|]. by intros [= <- _].
Qed.

(** After the substitution no two neighbours are of the class. *)
Lemma sub_runs_no_pair cls rep b t : no_pair cls (sub_runs cls rep b t) = true.
Proof.
  revert b. induction t as [|x t IH]; intros b; [done|]. simpl.
  destruct (cls x) eqn:Hx.
  - destruct b; [apply IH|].
    specialize (IH true).
    destruct (sub_runs cls rep true t) as [|y r] eqn:Hr; [done|].
    apply sub_runs_inside_head in Hr as Hy.
    rewrite no_pair_cons. rewrite Hy, andb_false_r. exact IH.
  - specialize (IH false).
    destruct (sub_runs cls rep false t) as [|y r] eqn:Hr; [done|].
    rewrite no_pair_cons. rewrite Hx. exact IH.
Qed.

Lemma sub_runs_outside_head cls rep q t e r :
  (∀ c, cls c = true → q c = false) → q rep = false →
  sub_runs cls rep false t = e :: r → q e = true → ∃ t', t = e :: t'.
Proof.
  intros Hdisj Hrep. destruct t as [|x t]; simpl; [done|].
  destruct (cls x) eqn:Hx.
  - intros [= <- _] He. exfalso.
    destruct t as [|y t']; [by rewrite (Hdisj x Hx) in He|].
    destruct (cls y); [by rewrite Hrep in He|by rewrite (Hdisj x Hx) in He].
  - intros [= <- _] _. by exists t.
Qed.

(** The substitution creates no pair of another class that is disjoint from
    its own and does not hold the replacement. *)
Lemma sub_runs_keeps_no_pair cls rep q b t :
  (∀ c, cls c = true → q c = false) → q rep = false →
  no_pair q t = true → no_pair q (sub_runs cls rep b t) = true.
Proof.
  intros Hdisj Hrep. revert b. induction t as [|x t IH]; intros b Hnp; [done|].
  assert (no_pair q t = true) as Hnp'.
  { destruct t as [|y t']; [done|]. rewrite no_pair_cons in Hnp.
    by apply andb_true_iff in Hnp as [_ ?]. }
  simpl. destruct (cls x) eqn:Hx.
  - destruct b; [by apply IH|].
    specialize (IH true Hnp').
    set (e := match t with
              | [] => x
              | c' :: _ => if cls c' then rep else x
              end).
    assert (q e = false) as He.
    { unfold e. destruct t as [|y t']; [by apply Hdisj|].
      destruct (cls y); [done|by apply Hdisj]. }
    destruct (sub_runs cls rep true t) as [|y r]; [done|].
    rewrite no_pair_cons. rewrite He. exact IH.
  - specialize (IH false Hnp').
    destruct (sub_runs cls rep false t) as [|y r] eqn:Hr; [done|].
    rewrite no_pair_cons. rewrite IH, andb_true_r.
    destruct (q x) eqn:Hqx; [|done]. destruct (q y) eqn:Hqy; [|done].
    destruct (sub_runs_outside_head cls rep q t y r Hdisj Hrep Hr Hqy) as [t' ->].
    rewrite no_pair_cons in Hnp. rewrite Hqx, Hqy in Hnp. done.
Qed.

Lemma no_pair_weaken p q t :
  (∀ c, q c = true → p c = true) → no_pair p t = true → no_pair q t = true.
Proof.
  intros Hqp. induction t as [|x [|y t] IH]; [done|done|].
  rewrite !no_pair_cons. intros H. apply andb_true_iff in H as [Hxy H].
  rewrite (IH H), andb_true_r.
  destruct (q x) eqn:Hx; [|done]. destruct (q y) eqn:Hy; [|done].
  by rewrite (Hqp x Hx), (Hqp y Hy) in Hxy.
Qed.

(** A text without such a pair is left as it is. *)
Lemma sub_runs_fixed cls rep b t :
  no_pair cls t = true →
  (b = true → ∀ c t', t = c :: t' → cls c = false) →
  sub_runs cls rep b t = t.
Proof.
  revert b. induction t as [|x t IH]; intros b Hnp Hb; [done|]. simpl.
  assert (no_pair cls t = true) as Hnp'.
  { destruct t as [|y t']; [done|]. rewrite no_pair_cons in Hnp.
    by apply andb_true_iff in Hnp as [_ ?]. }
  destruct (cls x) eqn:Hx.
  - destruct b; [by rewrite (Hb eq_refl x t eq_refl) in Hx|].
    destruct t as [|y t']; [done|].
    rewrite no_pair_cons in Hnp. rewrite Hx in Hnp. simpl in Hnp.
    destruct (cls y) eqn:Hy; [done|].
    f_equal. apply IH; [done|]. intros _ c t'' [= <- <-]. done.
  - f_equal. apply IH; [done|done].
Qed.

Lemma sub_class_fixed cls rep t :
  Forall (λ c, cls c = false) t → sub_class cls rep t = t.
Proof.
  unfold sub_class. induction 1 as [|c t Hc _ IH]; [done|].
  cbn. by rewrite Hc, IH.
Qed.

Lemma clean_has_no_quote text c :
  c ∈ _clean_text text → quote_or_brace c = false.
Proof.
  destruct text as [|s]; simpl; [by intros ?%elem_of_nil|].
  intros H. apply sub_runs_elem_of in H as [H| ->]; [|done].
  apply sub_runs_elem_of in H as [H| ->]; [|done].
  unfold sub_class in H. apply list_elem_of_fmap in H as (x & -> & _).
  by destruct (quote_or_brace x) eqn:Hx.
Qed.

Lemma clean_no_pairs text :
  no_pair is_underscore (_clean_text text) = true
  ∧ no_pair re_space (_clean_text text) = true.
Proof.
  destruct text as [|s]; [done|]. cbn [_clean_text].
  split; [|apply sub_runs_no_pair].
  destruct (re_space 95%N) eqn:Hsp.
  - apply (no_pair_weaken re_space); [|apply sub_runs_no_pair].
    intros c Hc. unfold is_underscore in Hc. by apply N.eqb_eq in Hc as ->.
  - apply sub_runs_keeps_no_pair; [| |apply sub_runs_no_pair].
    + intros c Hc. unfold is_underscore. apply N.eqb_neq. intros ->. congruence.
    + done.
Qed.

Lemma sub_runs_filter cls rep (keep : N → bool) b t :
  (∀ c, cls c = true → keep c = false) → keep rep = false →
  List.filter keep (sub_runs cls rep b t) = List.filter keep t.
Proof.
  intros Hcls Hrep. revert b. induction t as [|x t IH]; intros b; [done|].
  cbn [sub_runs List.filter]. destruct (cls x) eqn:Hx.
  - rewrite (Hcls x Hx). destruct b; [apply IH|].
    cbn [List.filter].
    assert (keep (match t with
                  | [] => x
                  | c' :: _ => if cls c' then rep else x
                  end) = false) as ->.
    { destruct t as [|y t']; [by apply Hcls|]. destruct (cls y); [done|by apply Hcls]. }
    apply IH.
  - cbn [List.filter]. destruct (keep x); [f_equal|]; apply IH.
Qed.

(** X1. Each single quote, double quote and brace of a text becomes a
    backtick: when the text so changed has no run to collapse it is the
    cleaned text, and in general the two agree on every character that is
    neither an underscore nor white space. A cleaned text holds no quote or
    brace, is never longer than the text it comes from, and a missing value
    is cleaned to the empty string. *)
Theorem clean_text_removes_quotes (s : pystr) :
  Forall (λ c, c ≠ 39%N ∧ c ≠ 34%N ∧ c ≠ 123%N ∧ c ≠ 125%N) (_clean_text (Str s))
  ∧ length (_clean_text (Str s)) ≤ length s
  ∧ _clean_text NaN = []
  ∧ (no_pair is_underscore (backticked s) = true →
     no_pair re_space (backticked s) = true →
     _clean_text (Str s) = backticked s)
  ∧ (re_space 32%N = true →
     List.filter solid (_clean_text (Str s)) = List.filter solid (backticked s)).
Proof.
  split; [|split; [|split; [done|split]]].
  - apply Forall_forall. intros c Hc. apply clean_has_no_quote in Hc.
    unfold quote_or_brace in Hc.
    repeat (apply orb_false_iff in Hc as [Hc ?]).
    repeat split; by apply N.eqb_neq.
  - cbn [_clean_text].
    etransitivity; [apply sub_runs_length|].
    etransitivity; [apply sub_runs_length|].
    unfold sub_class. by rewrite length_fmap.
  - intros Hu Hs. cbn [_clean_text]. fold (backticked s).
    rewrite (sub_runs_fixed is_underscore _ false _ Hu) by done.
    by rewrite (sub_runs_fixed re_space _ false _ Hs).
  - intros Hspace. cbn [_clean_text]. fold (backticked s).
    rewrite (sub_runs_filter re_space 32%N solid).
    + apply (sub_runs_filter is_underscore 95%N solid); [|done].
      intros c Hc. unfold solid. by rewrite Hc.
    + intros c Hc. unfold solid. rewrite Hc. by rewrite orb_true_r.
    + unfold solid. rewrite Hspace. by rewrite orb_true_r.
Qed.

(** X2. In a cleaned text no two underscores are neighbours and no two
    white-space characters are neighbours. *)
Theorem clean_text_collapses_runs (text : cell) :
  no_pair is_underscore (_clean_text text) = true
  ∧ no_pair re_space (_clean_text text) = true.
Proof. apply clean_no_pairs. Qed.

(** X3. Cleaning is idempotent: a cleaned text is cleaned to itself. *)
Theorem clean_text_idempotent (text : cell) :
  _clean_text (Str (_clean_text text)) = _clean_text text.
Proof.
  destruct (clean_no_pairs text) as [Hu Hs].
  set (t := _clean_text text) in *.
  assert (Forall (λ c, quote_or_brace c = false) t) as Hq.
  { apply Forall_forall. intros c. apply clean_has_no_quote. }
  cbn [_clean_text]. rewrite (sub_class_fixed _ _ _ Hq).
  rewrite (sub_runs_fixed is_underscore _ false t Hu) by done.
  by rewrite (sub_runs_fixed re_space _ false t Hs).
Qed.

End CleanFacts.

Lemma clean_text_removes_quotes_witness :
  _clean_text (Str (str "it's {so} fine")) = backticked (str "it's {so} fine")
  ∧ List.filter solid (_clean_text (Str (str "a'__b  'c")))
    = List.filter solid (backticked (str "a'__b  'c")).
Proof.
  destruct (clean_text_removes_quotes (str "it's {so} fine")) as (_ & _ & _ & Hsame & _).
  destruct (clean_text_removes_quotes (str "a'__b  'c")) as (_ & _ & _ & _ & Hsolid).
  split.
  - apply Hsame; vm_compute; reflexivity.
  - apply Hsolid. reflexivity.
Defined.

(** The quotes and the braces as backticks, the run of underscores and the
    run of spaces collapsed. *)
Example cleaned_sample :
  _clean_text (Str (str "it's {so}__fine   now")) = str "it`s `so`_fine now".
Proof. vm_compute. reflexivity. Qed.

(** *** Preprocessing *)

Section PreprocessFacts.
Context {db : UnicodeDB} {dt : Dtypes}.

Lemma cleaned_cell (df : DataFrame) (cols : list pystr) (r : gmap pystr cell) (c : pystr) :
  cell_at c
    (foldr (λ col r', if object_dtype df col
                      then <[col := Str (_clean_text (cell_at col r))]> r'
                      else r') r cols)
  = if bool_decide (c ∈ cols) && object_dtype df c
    then Str (_clean_text (cell_at c r)) else cell_at c r.
Proof.
  induction cols as [|col cols IH]; [done|]. cbn [foldr].
  destruct (decide (c = col)) as [->|Hne].
  - rewrite (bool_decide_eq_true_2 (col ∈ col :: cols)) by left. cbn [andb].
    destruct (object_dtype df col) eqn:Hobj.
    + unfold cell_at at 1. by rewrite lookup_insert_eq.
    + rewrite IH. by rewrite andb_false_r.
  - assert (bool_decide (c ∈ col :: cols) = bool_decide (c ∈ cols)) as ->.
    { apply bool_decide_ext. rewrite elem_of_cons. tauto. }
    destruct (object_dtype df col).
    + unfold cell_at at 1. rewrite lookup_insert_ne by done. exact IH.
    + exact IH.
Qed.

Lemma empty_text_invalid : is_valid_text (Str []) = false.
Proof. done. Qed.

Lemma zip_with_insert_other (col other : pystr) (l : list (gmap pystr cell))
    (vals : list cell) :
  other ≠ col → length l ≤ length vals →
  cell_at other <$> zip_with (λ r v, <[col := v]> r) l vals = cell_at other <$> l.
Proof.
  intros Hne. revert vals. induction l as [|r l IH]; intros [|v vals] Hlen;
    simpl in *; try done; try lia.
  f_equal; [|apply IH; lia].
  unfold cell_at. by rewrite lookup_insert_ne.
Qed.

Lemma generate_unique_ids_length (df : DataFrame) :
  length (rows (generate_unique_ids df)) = length (rows df).
Proof.
  unfold generate_unique_ids, setitem. cbn [rows].
  rewrite length_zip_with, length_fmap, length_seq. lia.
Qed.

(** X4. [clean_text_columns] keeps the columns and the number of rows; in a
    column of dtype object every cell becomes a string, the cleaned text,
    and a missing value becomes the empty string, so that no missing value
    is left; a column of another dtype is left as it is. *)
Theorem clean_text_columns_fills_missing (df : DataFrame) (col : pystr) :
  col ∈ columns df →
  columns (clean_text_columns df) = columns df
  ∧ length (rows (clean_text_columns df)) = length (rows df)
  ∧ getitem (clean_text_columns df) col
    = Ok ((λ r, if object_dtype df col
                then Str (_clean_text (cell_at col r))
                else cell_at col r) <$> rows df)
  ∧ (object_dtype df col = true →
     ∀ c, getitem (clean_text_columns df) col = Ok c → Forall (λ v, isna v = false) c).
Proof.
  intros Hcol. split; [done|]. split; [cbn; by rewrite length_fmap|].
  assert (getitem (clean_text_columns df) col
          = Ok ((λ r, if object_dtype df col
                      then Str (_clean_text (cell_at col r))
                      else cell_at col r) <$> rows df)) as Hget.
  { unfold getitem, clean_text_columns. cbn [columns rows].
    rewrite decide_True by done. f_equal. rewrite <- list_fmap_compose.
    apply list_fmap_ext. intros i r Hr. cbn.
    rewrite cleaned_cell, (bool_decide_eq_true_2 _ Hcol). cbn [andb].
    by destruct (object_dtype df col). }
  split; [done|].
  intros Hobj c. rewrite Hget, Hobj. intros [= <-].
  apply Forall_fmap, Forall_forall. done.
Qed.

Lemma preprocess_data_spec (df : DataFrame) (text_column : pystr) :
  text_column ≠ str "unique_id" →
  text_column ∈ columns df →
  object_dtype df text_column = true
  ∨ Forall (λ r, cell_at text_column r = NaN) (rows df) →
  ∃ out,
    preprocess_data df text_column = Ok out
    ∧ getitem out text_column
      = Ok (Str <$> List.filter (λ t, is_valid_text (Str t))
                      ((λ r, _clean_text (cell_at text_column r)) <$> rows df))
    ∧ getitem out (str "unique_id")
      = Ok ((λ i, Str (unique_id_of i)) <$> seq 1 (length (rows out))).
Proof.
  intros Hne Hcol Hdtype. unfold preprocess_data, filter_invalid_text.
  cbn [columns clean_text_columns].
  rewrite decide_True by done. eexists. split; [reflexivity|].
  split.
  - unfold generate_unique_ids, getitem, setitem. cbn [columns rows].
    rewrite decide_True.
    2:{ case_decide; [done|]. apply elem_of_app. by left. }
    f_equal. rewrite zip_with_insert_other; [|done|by rewrite length_fmap, length_seq].
    assert (∀ l : list (gmap pystr cell),
              (∀ r, r ∈ l → r ∈ rows df) →
              cell_at text_column
                <$> List.filter (λ r, is_valid_text (cell_at text_column r))
                      ((λ r, foldr (λ col r', if object_dtype df col
                                              then <[col := Str (_clean_text (cell_at col r))]> r'
                                              else r') r (columns df)) <$> l)
              = Str <$> List.filter (λ t, is_valid_text (Str t))
                          ((λ r, _clean_text (cell_at text_column r)) <$> l)) as Hgen.
    { induction l as [|r l IH]; intros Hl; [done|].
      cbn [fmap list_fmap List.filter].
      rewrite cleaned_cell, (bool_decide_eq_true_2 _ Hcol). cbn [andb].
      assert (∀ r', r' ∈ l → r' ∈ rows df) as Hl' by (intros; apply Hl; by right).
      specialize (IH Hl').
      destruct (object_dtype df text_column) eqn:Hobj.
      - destruct (is_valid_text (Str (_clean_text (cell_at text_column r)))).
        + cbn [fmap list_fmap]. rewrite cleaned_cell, (bool_decide_eq_true_2 _ Hcol), Hobj.
          cbn [andb]. f_equal. exact IH.
        + exact IH.
      - destruct Hdtype as [Hdtype|Hmissing]; [congruence|].
        rewrite Forall_forall in Hmissing.
        rewrite (Hmissing r) by (apply Hl; left).
        cbn [_clean_text]. rewrite empty_text_invalid.
        change (is_valid_text NaN) with false. exact IH. }
    apply Hgen. done.
  - rewrite generate_unique_ids_column. by rewrite generate_unique_ids_length.
Qed.

(** X5. The rows [preprocess_data] keeps are those whose cleaned text is valid,
    in input order, with the cleaned text in the text column, numbered from
    1 in the column unique_id. The text column has dtype object, unless it
    holds no string at all. *)
Theorem preprocess_data_keeps_valid_cleaned (df : DataFrame) (text_column : pystr) :
  text_column ≠ str "unique_id" →
  text_column ∈ columns df →
  object_dtype df text_column = true
  ∨ Forall (λ r, cell_at text_column r = NaN) (rows df) →
  ∃ out,
    preprocess_data df text_column = Ok out
    ∧ getitem out text_column
      = Ok (Str <$> List.filter (λ t, is_valid_text (Str t))
                      ((λ r, _clean_text (cell_at text_column r)) <$> rows df))
    ∧ getitem out (str "unique_id")
      = Ok ((λ i, Str (unique_id_of i)) <$> seq 1 (length (rows out))).
Proof. exact (preprocess_data_spec df text_column). Qed.

(** X6. Numbering twice is numbering once: existing identifiers are replaced, the
    other cells and the number of rows stay. *)
Theorem generate_unique_ids_idempotent (df : DataFrame) :
  generate_unique_ids (generate_unique_ids df) = generate_unique_ids df
  ∧ length (rows (generate_unique_ids df)) = length (rows df)
  ∧ ∀ col, col ≠ str "unique_id" →
           cell_at col <$> rows (generate_unique_ids df) = cell_at col <$> rows df.
Proof.
  pose proof (generate_unique_ids_length df) as Hlen.
  split; [|split; [done|]].
  - unfold generate_unique_ids at 1 3. rewrite Hlen.
    unfold generate_unique_ids, setitem. cbn [columns rows]. f_equal.
    + destruct (decide (str "unique_id" ∈ columns df)) as [Hin|Hin];
        [by rewrite decide_True|].
      rewrite decide_True; [done|]. apply elem_of_app. right. by left.
    + generalize ((λ i, Str (unique_id_of i)) <$> seq 1 (length (rows df))).
      intros vals. generalize (rows df). intros l. revert vals.
      induction l as [|r l IH]; intros [|v vals]; simpl; try done.
      f_equal; [apply insert_insert_eq|apply IH].
  - intros col Hcol. unfold generate_unique_ids, setitem. cbn [rows].
    apply zip_with_insert_other; [done|]. by rewrite length_fmap, length_seq.
Qed.

(** X7. The edge cases of [batch_texts]: a batch size of zero is refused, a
    negative one gives no batch, and a frame without rows gives no batch
    whatever the column; with rows, a missing column is a [KeyError]. *)
Theorem batch_texts_edge_cases (df : DataFrame) (text_column : pystr) (B : Z) :
  (B = 0%Z → ∃ msg, batch_texts df text_column B = Raise (ValueError msg))
  ∧ ((B < 0)%Z → batch_texts df text_column B = Ok [])
  ∧ (B ≠ 0%Z → rows df = [] → batch_texts df text_column B = Ok [])
  ∧ ((0 < B)%Z → rows df ≠ [] → text_column ∉ columns df →
     batch_texts df text_column B = Raise (KeyError text_column)).
Proof.
  unfold batch_texts, range0. repeat split.
  - intros ->. rewrite decide_True by done. by eexists.
  - intros HB. rewrite decide_False by lia. by rewrite decide_True.
  - intros HB Hrows. rewrite decide_False by done. rewrite Hrows.
    case_decide; done.
  - intros HB Hrows Hcol. rewrite decide_False by lia. rewrite decide_False by lia.
    destruct (rows df) as [|r l] eqn:Hr; [done|]. cbn.
    rewrite decide_True by lia. cbn. unfold getitem. by rewrite decide_False.
Qed.

End PreprocessFacts.

Lemma clean_text_columns_fills_missing_witness :
  columns (clean_text_columns sparse_frame) = columns sparse_frame
  ∧ length (rows (clean_text_columns sparse_frame)) = length (rows sparse_frame)
  ∧ getitem (clean_text_columns sparse_frame) (str "text")
    = Ok ((λ r, if object_dtype sparse_frame (str "text")
                then Str (_clean_text (cell_at (str "text") r))
                else cell_at (str "text") r) <$> rows sparse_frame)
  ∧ (object_dtype sparse_frame (str "text") = true →
     ∀ c, getitem (clean_text_columns sparse_frame) (str "text") = Ok c →
          Forall (λ v, isna v = false) c).
Proof.
  apply (clean_text_columns_fills_missing sparse_frame (str "text")).
  vm_compute. left.
Defined.

(** The apostrophe becomes a backtick, the two spaces one, and the missing
    value the empty string. *)
Example sparse_frame_cleaned :
  getitem (clean_text_columns sparse_frame) (str "text")
  = Ok [Str (str "it`s fine"); Str []].
Proof. vm_compute. reflexivity. Qed.

(** A column that holds no string is cleaned when its dtype is object, as
    that of a column of [None] alone is, and left as it is otherwise. *)
Example missing_column_cleaned :
  getitem (clean_text_columns (dt := every_column_object) sparse_frame) (str "score")
  = Ok [Str []; Str []]
  ∧ getitem (clean_text_columns (dt := no_column_object) sparse_frame) (str "score")
    = Ok [NaN; NaN].
Proof. split; vm_compute; reflexivity. Qed.

(** Where the columns of dtype object are those that hold a string, a
    column has dtype object or holds no string at all. *)
Lemma string_columns_dtype (df : DataFrame) (col : pystr) :
  object_dtype (Dtypes := string_columns) df col = true
  ∨ Forall (λ r, cell_at col r = NaN) (rows df).
Proof.
  cbn. induction (rows df) as [|r l IH]; [by right|]. cbn [existsb].
  destruct (cell_at col r) eqn:Hcell; cbn; [|by left].
  destruct IH as [->|IH]; [by left|]. right. by constructor.
Qed.

(** Where the columns of dtype object are those that hold a string, the
    rows kept are those whose cleaned text is valid whatever the frame. *)
Corollary preprocess_data_string_columns {db : UnicodeDB} (df : DataFrame)
    (text_column : pystr) :
  text_column ≠ str "unique_id" →
  text_column ∈ columns df →
  ∃ out,
    preprocess_data (dt := string_columns) df text_column = Ok out
    ∧ getitem out text_column
      = Ok (Str <$> List.filter (λ t, is_valid_text (Str t))
                      ((λ r, _clean_text (cell_at text_column r)) <$> rows df))
    ∧ getitem out (str "unique_id")
      = Ok ((λ i, Str (unique_id_of i)) <$> seq 1 (length (rows out))).
Proof.
  intros Hne Hcol. apply preprocess_data_spec; [done|done|].
  apply string_columns_dtype.
Qed.

Lemma preprocess_data_keeps_valid_cleaned_witness :
  ∃ out,
    preprocess_data mixed_frame (str "text") = Ok out
    ∧ getitem out (str "text")
      = Ok (Str <$> List.filter (λ t, is_valid_text (Str t))
                      ((λ r, _clean_text (cell_at (str "text") r)) <$> rows mixed_frame))
    ∧ getitem out (str "unique_id")
      = Ok ((λ i, Str (unique_id_of i)) <$> seq 1 (length (rows out))).
Proof.
  apply (preprocess_data_keeps_valid_cleaned mixed_frame (str "text")).
  - by vm_compute.
  - vm_compute. left.
  - left. vm_compute. reflexivity.
Defined.

Lemma batch_texts_edge_cases_witness :
  (∃ msg, batch_texts demo_frame (str "text") 0 = Raise (ValueError msg))
  ∧ batch_texts demo_frame (str "text") (-1) = Ok []
  ∧ batch_texts {| columns := []; rows := [] |} (str "text") 5 = Ok []
  ∧ batch_texts demo_frame (str "comment") 2 = Raise (KeyError (str "comment")).
Proof.
  split; [|split; [|split]].
  - destruct (batch_texts_edge_cases demo_frame (str "text") 0) as (H & _).
    apply H. reflexivity.
  - destruct (batch_texts_edge_cases demo_frame (str "text") (-1)) as (_ & H & _).
    apply H. reflexivity.
  - destruct (batch_texts_edge_cases {| columns := []; rows := [] |} (str "text") 5)
      as (_ & _ & H & _).
    apply H; [discriminate|reflexivity].
  - destruct (batch_texts_edge_cases demo_frame (str "comment") 2) as (_ & _ & _ & H).
    apply H; [reflexivity|discriminate|].
    apply (bool_decide_unpack _). vm_compute. exact I.
Defined.

(** *** Text validity: margins and necessary conditions *)

Section ValidityFacts.
Context {db : UnicodeDB}.

Lemma lstrip_spaces (ws t : pystr) :
  Forall (λ c, py_isspace c = true) ws → lstrip (ws ++ t) = lstrip t.
Proof.
  induction ws as [|c ws IH]; intros Hws; [done|].
  apply Forall_cons in Hws as [Hc Hws]. cbn. rewrite Hc. by apply IH.
Qed.

Lemma lstrip_all_spaces (ws : pystr) :
  Forall (λ c, py_isspace c = true) ws → lstrip ws = [].
Proof.
  intros Hws. rewrite <- (app_nil_r ws). by rewrite lstrip_spaces.
Qed.

Lemma lstrip_app (t ws : pystr) :
  lstrip (t ++ ws) = if bool_decide (lstrip t = []) then lstrip ws else lstrip t ++ ws.
Proof.
  induction t as [|c t IH]; cbn [app lstrip].
  - by rewrite bool_decide_eq_true_2.
  - destruct (py_isspace c); [exact IH|]. by rewrite bool_decide_eq_false_2.
Qed.

Lemma rstrip_spaces (t ws : pystr) :
  Forall (λ c, py_isspace c = true) ws → rstrip (t ++ ws) = rstrip t.
Proof.
  intros Hws. unfold rstrip. rewrite reverse_app.
  rewrite (lstrip_spaces (reverse ws) (reverse t)); [done|].
  apply Forall_forall. intros c Hc. rewrite elem_of_reverse in Hc.
  rewrite Forall_forall in Hws. by apply Hws.
Qed.

Lemma strip_margins (ws1 t ws2 : pystr) :
  Forall (λ c, py_isspace c = true) ws1 →
  Forall (λ c, py_isspace c = true) ws2 →
  strip (ws1 ++ t ++ ws2) = strip t.
Proof.
  intros H1 H2. unfold strip. rewrite lstrip_spaces by done.
  rewrite lstrip_app. case_bool_decide as Hempty.
  - rewrite Hempty, lstrip_all_spaces by done. done.
  - by rewrite rstrip_spaces.
Qed.

(** X8. White space around a text does not count: a text and the same text
    between margins of white space are valid together or invalid
    together. *)
Theorem is_valid_text_ignores_margins (ws1 t ws2 : pystr) :
  Forall (λ c, py_isspace c = true) ws1 →
  Forall (λ c, py_isspace c = true) ws2 →
  is_valid_text (Str (ws1 ++ t ++ ws2)) = is_valid_text (Str t).
Proof.
  intros H1 H2. unfold is_valid_text. cbn [isna cell_str].
  by rewrite strip_margins.
Qed.

Lemma backref_star_complete (c : N) (k : pystr → bool) (n : nat) (rest : pystr) :
  k rest = true → backref_star c k (replicate n c ++ rest) = true.
Proof.
  intros Hk. induction n as [|n IH]; cbn.
  - destruct rest as [|x rest]; cbn; [done|]. rewrite Hk. apply orb_true_r.
  - by rewrite N.eqb_refl, IH.
Qed.

Lemma run_group_complete (c : N) (k : pystr → bool) (n : nat) (rest : pystr) :
  c ≠ 10%N → k rest = true → run_group k (replicate (S n) c ++ rest) = true.
Proof.
  intros Hc Hk. cbn. rewrite backref_star_complete by done.
  unfold dot. by apply N.eqb_neq in Hc as ->.
Qed.

(** A text starts with a run of its first character; what follows starts
    with another character and has one change less. *)
Lemma first_run (c : N) (t : pystr) :
  ∃ n rest,
    c :: t = replicate (S n) c ++ rest
    ∧ ((rest = [] ∧ changes (c :: t) = 0)
       ∨ ∃ d rest', rest = d :: rest' ∧ d ≠ c ∧ changes (c :: t) = S (changes rest)).
Proof.
  revert c. induction t as [|x t IH]; intros c.
  - exists 0, []. split; [done|]. by left.
  - destruct (decide (c = x)) as [->|Hne].
    + destruct (IH x) as (n & rest & Heq & Hrest).
      exists (S n), rest. split; [cbn; by rewrite Heq|].
      cbn [changes]. rewrite decide_True by done. exact Hrest.
    + exists 0, (x :: t). split; [done|]. right. exists x, t.
      split; [done|]. split; [done|]. cbn [changes]. by rewrite decide_False.
Qed.

Lemma match_runs_complete (t : pystr) :
  t ≠ [] → 10%N ∉ t → changes t ≤ 2 → match_runs t = true.
Proof.
  intros Hne Hlf Hch. destruct t as [|c1 t]; [done|].
  destruct (first_run c1 t) as (n1 & r1 & Heq1 & Hr1).
  rewrite Heq1 in Hlf |- *. unfold match_runs.
  apply run_group_complete.
  { intros ->. apply Hlf. left. }
  destruct Hr1 as [[-> _]|(c2 & t2 & -> & _ & Hch1)]; [done|].
  apply orb_true_iff. left.
  destruct (first_run c2 t2) as (n2 & r2 & Heq2 & Hr2).
  rewrite Heq2 in Hlf |- *.
  apply run_group_complete.
  { intros ->. apply Hlf. apply elem_of_app. right. left. }
  destruct Hr2 as [[-> _]|(c3 & t3 & -> & _ & Hch2)]; [done|].
  apply orb_true_iff. left.
  destruct (first_run c3 t3) as (n3 & r3 & Heq3 & Hr3).
  rewrite Heq3 in Hlf |- *.
  apply run_group_complete.
  { intros ->. apply Hlf. apply elem_of_app. right. apply elem_of_app. right. left. }
  destruct Hr3 as [[-> _]|(c4 & t4 & -> & _ & Hch3)]; [done|].
  lia.
Qed.

Lemma changes_length (t : pystr) : changes t + 1 ≤ length t ∨ t = [].
Proof.
  induction t as [|x [|y t] IH]; [by right|left; cbn; lia|].
  left. destruct IH as [IH|?]; [|done]. cbn [changes length] in *.
  case_decide; lia.
Qed.

Lemma lstrip_suffix (t : pystr) : ∃ p, t = p ++ lstrip t.
Proof.
  induction t as [|c t IH]; [by exists []|]. cbn.
  destruct (py_isspace c); [|by exists []].
  destruct IH as [p Hp]. exists (c :: p). cbn. by rewrite <- Hp.
Qed.

Lemma strip_head (t r : pystr) (c : N) : strip t = c :: r → py_isspace c = false.
Proof.
  unfold strip, rstrip. intros H.
  destruct (lstrip_suffix (reverse (lstrip t))) as [p Hp].
  apply (f_equal reverse) in Hp.
  rewrite reverse_involutive, reverse_app, H in Hp.
  by apply lstrip_head in Hp.
Qed.

(** X9. What every valid text has: once stripped it holds a letter or a number,
    is not a number, and either changes from one character to another at
    least three times or holds a line feed; so it has at least four
    characters, or three with a line feed in the middle. *)
Theorem valid_text_necessary (s : pystr) :
  py_isspace 10%N = true →
  is_valid_text (Str s) = true →
  search_alnum (strip s) = true
  ∧ isdigit (strip s) = false
  ∧ (3 ≤ changes (strip s) ∨ 10%N ∈ strip s)
  ∧ (4 ≤ length (strip s) ∨ ∃ a b, strip s = [a; 10%N; b]).
Proof.
  intros Hlinefeed. unfold is_valid_text. cbn [isna cell_str].
  destruct (bool_decide (strip s = [])) eqn:Hempty; cbn [orb]; [done|].
  destruct (match_space_punct (strip s)); cbn [orb]; [done|].
  destruct (isdigit (strip s)); cbn [orb]; [done|].
  destruct (bool_decide (distinct_count (strip s) = 1)); cbn [orb]; [done|].
  destruct (match_runs (strip s)) eqn:Hruns; cbn [orb]; [done|].
  destruct (search_alnum (strip s)); cbn [negb]; [|done].
  intros _. apply bool_decide_eq_false in Hempty.
  split; [done|]. split; [done|].
  assert (3 ≤ changes (strip s) ∨ 10%N ∈ strip s) as Hshape.
  { destruct (decide (10%N ∈ strip s)) as [?|Hlf]; [by right|]. left.
    destruct (decide (changes (strip s) ≤ 2)) as [Hle|?]; [|lia].
    rewrite match_runs_complete in Hruns by done. done. }
  split; [done|].
  destruct Hshape as [Hch|Hlf].
  { left. destruct (changes_length (strip s)) as [?|?]; [lia|done]. }
  destruct (decide (4 ≤ length (strip s))) as [?|Hshort]; [by left|]. right.
  assert (∀ r, strip s ≠ 10%N :: r) as Hhead.
  { intros r Hr. apply strip_head in Hr. congruence. }
  assert (∀ u, strip s ≠ u ++ [10%N]) as Hlast.
  { intros u Hu. apply strip_last in Hu. congruence. }
  destruct (strip s) as [|a [|b [|c [|d t]]]] eqn:Hs; cbn in Hshort; try lia.
  - done.
  - apply list_elem_of_singleton in Hlf. subst a. exfalso. by apply (Hhead []).
  - apply elem_of_cons in Hlf as [Hlf|Hlf].
    { subst a. exfalso. by apply (Hhead [b]). }
    apply list_elem_of_singleton in Hlf. subst b. exfalso. by apply (Hlast [a]).
  - apply elem_of_cons in Hlf as [Hlf|Hlf].
    { subst a. exfalso. by apply (Hhead [b; c]). }
    apply elem_of_cons in Hlf as [Hlf|Hlf].
    { subst b. by exists a, c. }
    apply list_elem_of_singleton in Hlf. subst c. exfalso. by apply (Hlast [a; b]).
Qed.

End ValidityFacts.

Lemma is_valid_text_ignores_margins_witness :
  is_valid_text (Str (str "  " ++ str "late but fine" ++ [10%N]))
  = is_valid_text (Str (str "late but fine")).
Proof.
  apply (is_valid_text_ignores_margins (str "  ") (str "late but fine") [10%N]).
  - apply (bool_decide_unpack _). vm_compute. exact I.
  - apply (bool_decide_unpack _). vm_compute. exact I.
Defined.

Lemma valid_text_necessary_witness :
  search_alnum (strip (str "late but fine")) = true
  ∧ isdigit (strip (str "late but fine")) = false
  ∧ (3 ≤ changes (strip (str "late but fine")) ∨ 10%N ∈ strip (str "late but fine"))
  ∧ (4 ≤ length (strip (str "late but fine"))
     ∨ ∃ a b, strip (str "late but fine") = [a; 10%N; b]).
Proof.
  apply (valid_text_necessary (str "late but fine")).
  - reflexivity.
  - vm_compute. reflexivity.
Defined.

(** Three characters are enough when the middle one is a line feed. *)
Example line_feed_between_letters_valid :
  is_valid_text (Str [97; 10; 98]%N) = true.
Proof. vm_compute. reflexivity. Qed.

(** *** Markdown tables *)

Section MarkdownFacts.
Context {db : UnicodeDB} {dt : Dtypes}.

Lemma forallb_columns (df : DataFrame) (cols : list pystr) :
  forallb (λ c, bool_decide (c ∈ columns df)) cols = true
  ↔ Forall (λ c, c ∈ columns df) cols.
Proof.
  rewrite forallb_forall, Forall_forall. split.
  - intros H c Hc. apply list_elem_of_In, H in Hc. by apply bool_decide_eq_true in Hc.
  - intros H c Hc. apply bool_decide_eq_true, H. by apply list_elem_of_In.
Qed.

(** X10. [dataframe_to_markdown_tables] returns exactly when the columns exist,
    the number of rows per table is positive and the two options are among
    their literals; every other call raises a [ValueError]. Missing values,
    an empty frame or an empty list of columns never make it fail. *)
Theorem markdown_tables_validation (df : DataFrame) (cols : list pystr)
    (rows_per_table : Z) (nan_drop_method output_format : pystr) :
  (is_ok (dataframe_to_markdown_tables df cols rows_per_table nan_drop_method
            output_format) = true
   ↔ Forall (λ c, c ∈ columns df) cols
     ∧ (0 < rows_per_table)%Z
     ∧ nan_drop_method ∈ [str "any"; str "all"]
     ∧ output_format ∈ [str "list"; str "dataframe"])
  ∧ ∀ e, dataframe_to_markdown_tables df cols rows_per_table nan_drop_method
           output_format = Raise e →
         ∃ msg, e = ValueError msg.
Proof.
  unfold dataframe_to_markdown_tables.
  destruct (forallb (λ c, bool_decide (c ∈ columns df)) cols) eqn:Hcols; cbn [negb].
  2:{ split; [|intros e [= <-]; by eexists].
      split; [done|]. intros (H & _). apply forallb_columns in H. congruence. }
  apply forallb_columns in Hcols.
  case_bool_decide as HB.
  { split; [|intros e [= <-]; by eexists]. split; [done|]. intros (_ & ? & _). lia. }
  case_bool_decide as Hmethod; cbn [negb].
  2:{ split; [|intros e [= <-]; by eexists]. split; [done|]. by intros (_ & _ & ? & _). }
  case_bool_decide as Hformat; cbn [negb].
  2:{ split; [|intros e [= <-]; by eexists]. split; [done|]. by intros (_ & _ & _ & ?). }
  rewrite range0_positive by lia. cbn. split; [|done].
  split; [|done]. intros _. repeat split; try done. lia.
Qed.

Lemma line_feeds_app (a b : pystr) : line_feeds (a ++ b) = line_feeds a + line_feeds b.
Proof. unfold line_feeds. by rewrite List.filter_app, length_app. Qed.

Lemma line_feeds_none (t : pystr) : 10%N ∉ t → line_feeds t = 0.
Proof.
  unfold line_feeds. induction t as [|c t IH]; intros Ht; [done|].
  apply not_elem_of_cons in Ht as [Hc Ht]. cbn [List.filter].
  assert ((10 =? c)%N = false) as -> by (apply N.eqb_neq; congruence).
  by apply IH.
Qed.

Lemma line_feeds_join (sep : pystr) (xs : list pystr) :
  10%N ∉ sep → Forall (λ x, 10%N ∉ x) xs → line_feeds (join sep xs) = 0.
Proof.
  intros Hsep. induction xs as [|x [|y xs] IH]; intros Hall; [done| |].
  - cbn. apply line_feeds_none. by apply Forall_cons in Hall as [? _].
  - apply Forall_cons in Hall as [Hx Hall].
    change (join sep (x :: y :: xs)) with (x ++ sep ++ join sep (y :: xs)).
    rewrite !line_feeds_app, IH by done.
    by rewrite !line_feeds_none.
Qed.

Lemma replace_newlines_no_line_feed (t : pystr) : 10%N ∉ replace_newlines t.
Proof.
  assert (∀ n (t : pystr), length t ≤ n → 10%N ∉ replace_newlines t) as H.
  { clear t. induction n as [|n IH]; intros t Hlen.
    - destruct t; [|cbn in Hlen; lia]. cbn. apply not_elem_of_nil.
    - destruct t as [|c t]; [apply not_elem_of_nil|].
      cbn in Hlen.
      destruct (decide (c = 10%N)) as [->|Hc].
      { cbn. apply not_elem_of_cons. split; [done|]. apply IH. lia. }
      destruct (decide (c = 13%N)) as [->|Hc'].
      + destruct t as [|d t].
        { cbn. apply not_elem_of_cons. split; [done|]. apply not_elem_of_nil. }
        destruct (decide (d = 10%N)) as [->|Hd].
        * cbn. apply not_elem_of_cons. split; [done|]. apply IH. cbn in Hlen. lia.
        * assert (replace_newlines (13%N :: d :: t) = 13%N :: replace_newlines (d :: t)) as ->.
          { cbn. destruct d as [|p]; [done|].
            repeat (destruct p as [p|p|]; try done). }
          apply not_elem_of_cons. split; [done|]. apply IH. lia.
      + assert (replace_newlines (c :: t) = c :: replace_newlines t) as ->.
        { cbn. destruct c as [|p]; [done|].
          repeat (destruct p as [p|p|]; try done). }
        apply not_elem_of_cons. split; [done|]. apply IH. lia. }
  by apply (H (length t)).
Qed.

Lemma replaced_cell (cleaned_df : DataFrame) (cols : list pystr) (r : gmap pystr cell)
    (c : pystr) :
  c ∈ cols →
  cell_at c (prepared cleaned_df cols r)
  = if object_dtype cleaned_df c then str_replace_newlines (cell_at c r)
    else cell_at c r.
Proof.
  unfold prepared.
  induction cols as [|col cols IH]; intros Hc; [by apply elem_of_nil in Hc|].
  cbn [foldr]. destruct (decide (c = col)) as [->|Hne].
  - destruct (object_dtype cleaned_df col) eqn:Hobj.
    + unfold cell_at at 1. by rewrite lookup_insert_eq.
    + destruct (decide (col ∈ cols)) as [Hin|Hout]; [by apply IH|].
      clear IH Hc. induction cols as [|c' cols IH']; [done|].
      apply not_elem_of_cons in Hout as [Hne Hout]. cbn [foldr].
      destruct (object_dtype cleaned_df c'); [|by apply IH'].
      unfold cell_at at 1. rewrite lookup_insert_ne by done. by apply IH'.
  - apply elem_of_cons in Hc as [?|Hc]; [done|].
    destruct (object_dtype cleaned_df col); [|by apply IH].
    unfold cell_at at 1. rewrite lookup_insert_ne by done. by apply IH.
Qed.

Lemma table_row_one_line (cleaned_df : DataFrame) (cols : list pystr)
    (r : gmap pystr cell) :
  Forall (λ c, object_dtype cleaned_df c = true) cols →
  line_feeds (render_row cols (prepared cleaned_df cols r)) = 1.
Proof.
  intros Hobj. unfold render_row. rewrite !line_feeds_app. rewrite line_feeds_join.
  - reflexivity.
  - apply (bool_decide_unpack _). vm_compute. exact I.
  - apply Forall_fmap, Forall_forall. intros c Hc. cbn.
    rewrite replaced_cell by done.
    rewrite Forall_forall in Hobj. rewrite (Hobj c Hc).
    destruct (cell_at c r) as [|s]; cbn.
    + apply (bool_decide_unpack _). vm_compute. exact I.
    + apply replace_newlines_no_line_feed.
Qed.

Lemma table_lines (cols : list pystr) (g : list (gmap pystr cell)) :
  Forall (λ c, 10%N ∉ c) cols →
  (∀ r, r ∈ g → line_feeds (render_row cols r) = 1) →
  line_feeds (render_table cols g) = 2 + length g.
Proof.
  intros Hcols Hrows. unfold render_table, table_header, table_separator.
  rewrite !line_feeds_app.
  rewrite line_feeds_join; [|apply (bool_decide_unpack _); vm_compute; exact I|done].
  rewrite line_feeds_join; [|apply (bool_decide_unpack _); vm_compute; exact I|].
  2:{ apply Forall_replicate. apply (bool_decide_unpack _). vm_compute. exact I. }
  assert (line_feeds (concat (render_row cols <$> g)) = length g) as ->.
  { induction g as [|r g IH]; [done|]. cbn [fmap list_fmap concat length].
    rewrite line_feeds_app, Hrows by left. rewrite IH; [done|].
    intros r' Hr'. apply Hrows. by right. }
  reflexivity.
Qed.

(** X11. One line per row: when the selected columns have dtype object and
    no column name holds a line feed, every table returned has exactly two
    lines more than it has rows, the header and the separator, whatever the
    cells contain; the rows of the tables are the batches of the prepared
    rows, each of at least one row and at most [rows_per_table]. *)
Theorem markdown_table_line_per_row (df : DataFrame) (cols : list pystr)
    (rows_per_table : Z) (nan_drop_method output_format : pystr)
    (output : tables_output) :
  Forall (λ c, 10%N ∉ c) cols →
  Forall (λ c, object_dtype
                 (dropna df cols (bool_decide (nan_drop_method = str "any"))) c = true)
         cols →
  dataframe_to_markdown_tables df cols rows_per_table nan_drop_method output_format
  = Ok output →
  ∃ groups,
    is_batching (Z.to_nat rows_per_table)
      (table_data df cols (bool_decide (nan_drop_method = str "any"))) groups
    ∧ tables_of output = render_table cols <$> groups
    ∧ Forall (λ g, line_feeds (render_table cols g) = 2 + length g
                   ∧ 1 ≤ length g ≤ Z.to_nat rows_per_table) groups.
Proof.
  intros Hcols Hobj. unfold dataframe_to_markdown_tables.
  destruct (forallb _ cols); cbn [negb]; [|discriminate].
  destruct (bool_decide_reflect (rows_per_table ≤ 0)%Z) as [|HB]; [discriminate|].
  destruct (bool_decide (nan_drop_method ∈ _)); cbn [negb]; [|discriminate].
  destruct (bool_decide (output_format ∈ _)); cbn [negb]; [|discriminate].
  rewrite range0_positive by lia. cbn [mbind result_bind].
  set (data := table_data df cols _).
  intros [= <-].
  pose proof (range_batching (Z.to_nat rows_per_table) data ltac:(lia)) as Hbatch.
  eexists. split; [exact Hbatch|]. split.
  { rewrite <- list_fmap_compose.
    by destruct (bool_decide (output_format = str "list")). }
  destruct Hbatch as (_ & _ & Hgroups).
  apply Forall_forall. intros g Hg.
  apply list_elem_of_lookup in Hg as [k Hk].
  destruct (Hgroups k g Hk) as (Hg & Hlen & _). split; [|done].
  apply (table_lines cols g Hcols).
  intros r Hr. rewrite Hg in Hr.
  assert (r ∈ data) as Hdata.
  { apply elem_of_take in Hr as (i & Hi & _). rewrite lookup_drop in Hi.
    by eapply list_elem_of_lookup_2. }
  unfold data, table_data in Hdata.
  apply list_elem_of_fmap in Hdata as (r0 & -> & _).
  by apply table_row_one_line.
Qed.

End MarkdownFacts.

Lemma markdown_table_line_per_row_witness :
  ∃ groups,
    is_batching (Z.to_nat 2)
      (table_data mixed_frame [str "text"] (bool_decide (str "any" = str "any"))) groups
    ∧ tables_of (TablesList
                   ((λ s, render_table [str "text"]
                            (slice (table_data mixed_frame [str "text"] true) s
                               (s + Z.to_nat 2)))
                      <$> range_from (length (table_data mixed_frame [str "text"] true)) 0
                            (length (table_data mixed_frame [str "text"] true))
                            (Z.to_nat 2)))
      = render_table [str "text"] <$> groups
    ∧ Forall (λ g, line_feeds (render_table [str "text"] g) = 2 + length g
                   ∧ 1 ≤ length g ≤ Z.to_nat 2) groups.
Proof.
  apply (markdown_table_line_per_row mixed_frame [str "text"] 2 (str "any") (str "list")).
  - apply (bool_decide_unpack _). vm_compute. exact I.
  - apply (bool_decide_unpack _). vm_compute. exact I.
  - apply markdown_tables_explicit; [|lia].
    apply (bool_decide_unpack _). vm_compute. exact I.
Defined.

(** Where the column of texts has another dtype than object nothing is
    replaced: a text of two lines makes a table of four lines for one
    row. *)
Example string_dtype_table :
  dataframe_to_markdown_tables (dt := no_column_object) two_lines_frame
    [str "text"] 20 (str "any") (str "list")
  = Ok (TablesList [str "| text |" ++ [10%N] ++ str "| --- |" ++ [10%N]
                    ++ str "| a" ++ [10%N] ++ str "b |" ++ [10%N]])
  ∧ dataframe_to_markdown_tables (dt := string_columns) two_lines_frame
      [str "text"] 20 (str "any") (str "list")
    = Ok (TablesList [str "| text |" ++ [10%N] ++ str "| --- |" ++ [10%N]
                      ++ str "| a b |" ++ [10%N]]).
Proof. split; vm_compute; reflexivity. Qed.

(** *** Category generation *)

Module CategoriesFacts.
Section GenerationFacts.
Context {db : UnicodeDB} {dt : Dtypes}.
Variable Answer : Type.
Variable llm : nat → Categories.Call Answer → result Answer.

Abbreviation Call := (Categories.Call Answer).
Abbreviation generation_calls := (Categories.generation_calls Answer).
Abbreviation merge_call := (Categories.merge_call Answer).
Abbreviation generate_initial_categories := (Categories.generate_initial_categories Answer llm).
Abbreviation generate_categories := (Categories.generate_categories Answer llm).

Lemma generate_initial_categories_spec (texts : list pystr) (calls : list Call)
    (topic : pystr) (count : Z) (requirements : option pystr) :
  match generate_initial_categories calls texts topic count requirements with
  | (calls', Ok answers) =>
      calls' = calls ++ generation_calls texts topic count requirements
      ∧ length answers = length texts
      ∧ ∀ i c, generation_calls texts topic count requirements !! i = Some c →
               ∃ a, answers !! i = Some a ∧ llm (length calls + i) c = Ok a
  | (calls', Raise e) =>
      ∃ k c, generation_calls texts topic count requirements !! k = Some c
             ∧ calls' = calls ++ take (S k) (generation_calls texts topic count requirements)
             ∧ llm (length calls + k) c = Raise e
  end.
Proof.
  revert calls. induction texts as [|text texts IH]; intros calls.
  - cbn. rewrite app_nil_r. split; [done|]. split; [done|]. intros i c Hi. done.
  - cbn [Categories.generate_initial_categories].
    set (input := Categories.Generate Answer _).
    assert (generation_calls (text :: texts) topic count requirements
            = input :: generation_calls texts topic count requirements) as Hcalls by done.
    rewrite Hcalls.
    destruct (llm (length calls) input) as [a|e] eqn:Hllm.
    + specialize (IH (calls ++ [input])).
      destruct (generate_initial_categories (calls ++ [input]) texts topic count requirements)
        as [calls' [answers|e]].
      * destruct IH as (-> & Hlen & Hans). rewrite <- app_assoc. split; [done|].
        split; [cbn; lia|].
        intros [|i] c Hi; cbn in Hi.
        -- injection Hi as <-. exists a. by rewrite Nat.add_0_r.
        -- destruct (Hans i c Hi) as (a' & Ha' & Hc). exists a'. split; [done|].
           rewrite length_app in Hc. cbn in Hc.
           by replace (length calls + S i) with (length calls + 1 + i) by lia.
      * destruct IH as (k & c & Hk & -> & Hc). exists (S k), c.
        split; [done|]. split; [by rewrite <- app_assoc|].
        rewrite length_app in Hc. cbn in Hc.
        by replace (length calls + S k) with (length calls + 1 + k) by lia.
    + exists 0, input. split; [done|]. split; [done|]. by rewrite Nat.add_0_r.
Qed.

Lemma generation_calls_no_merge (batches : list pystr) (topic : pystr) (count : Z)
    (requirements : option pystr) :
  Forall (λ c, Categories.is_merge Answer c = false)
         (generation_calls batches topic count requirements).
Proof.
  unfold Categories.generation_calls. apply Forall_fmap, Forall_forall. done.
Qed.

(** X12. A run that returns has invoked the model once per batch of the
    preprocessed texts, in order, and then exactly once for the merge, on
    the answers to the batches in order; the merged answer, the
    preprocessed frame and the session identifier are returned. *)
Theorem generate_categories_call_log (uuid4 : pystr) (df : DataFrame)
    (text_column topic : pystr) (initial_category_count min max batch_size : Z)
    (session requirements : option pystr) (calls : list Call)
    (out : Categories.GeneratedCategories Answer) :
  generate_categories uuid4 df text_column topic initial_category_count min max
    batch_size session requirements = (calls, Ok out) →
  ∃ batches answers,
    preprocess_data df text_column = Ok (Categories.preprocessed_df Answer out)
    ∧ batch_texts (Categories.preprocessed_df Answer out) text_column batch_size = Ok batches
    ∧ calls = generation_calls batches topic initial_category_count requirements
              ++ [merge_call answers topic min max requirements]
    ∧ length answers = length batches
    ∧ (∀ i c, generation_calls batches topic initial_category_count requirements !! i = Some c →
              ∃ a, answers !! i = Some a ∧ llm i c = Ok a)
    ∧ llm (length batches) (merge_call answers topic min max requirements)
      = Ok (Categories.categories Answer out)
    ∧ Categories.session_id Answer out = default uuid4 session.
Proof.
  unfold Categories.generate_categories.
  destruct (preprocess_data df text_column) as [preprocessed|e]; [|done].
  destruct (batch_texts preprocessed text_column batch_size) as [batches|e] eqn:Hbatch;
    [|done].
  pose proof (generate_initial_categories_spec batches [] topic initial_category_count
                requirements) as Hgen.
  destruct (generate_initial_categories [] batches topic initial_category_count requirements)
    as [calls' [answers|e]]; [|done].
  destruct Hgen as (-> & Hlen & Hans). cbn [app] in *.
  unfold Categories.merge_categories.
  destruct (llm _ _) as [merged|e] eqn:Hmerge; [|done].
  intros [= <- <-]. cbn. exists batches, answers.
  unfold Categories.generation_calls in Hmerge. rewrite length_fmap in Hmerge.
  repeat split; done.
Qed.

(** X13. A run that raises stops at the failure: either nothing was sent to the
    model, and the exception is that of the preprocessing or of the
    batching, or the exception is that of the last invocation; no
    invocation follows a merge. *)
Theorem generate_categories_fails_fast (uuid4 : pystr) (df : DataFrame)
    (text_column topic : pystr) (initial_category_count min max batch_size : Z)
    (session requirements : option pystr) (calls : list Call) (e : exn) :
  generate_categories uuid4 df text_column topic initial_category_count min max
    batch_size session requirements = (calls, Raise e) →
  (calls = []
   ∧ (preprocess_data df text_column = Raise e
      ∨ ∃ preprocessed, preprocess_data df text_column = Ok preprocessed
                        ∧ batch_texts preprocessed text_column batch_size = Raise e))
  ∨ (∃ earlier last,
       calls = earlier ++ [last]
       ∧ llm (length earlier) last = Raise e
       ∧ Forall (λ c, Categories.is_merge Answer c = false) earlier).
Proof.
  unfold Categories.generate_categories.
  destruct (preprocess_data df text_column) as [preprocessed|e0] eqn:Hpre.
  2:{ intros [= <- <-]. left. split; [done|]. by left. }
  destruct (batch_texts preprocessed text_column batch_size) as [batches|e0] eqn:Hbatch.
  2:{ intros [= <- <-]. left. split; [done|]. right. by exists preprocessed. }
  pose proof (generate_initial_categories_spec batches [] topic initial_category_count
                requirements) as Hgen.
  pose proof (generation_calls_no_merge batches topic initial_category_count requirements)
    as Hnomerge.
  destruct (generate_initial_categories [] batches topic initial_category_count requirements)
    as [calls' [answers|e0]].
  - destruct Hgen as (-> & Hlen & Hans). cbn [app] in *.
    unfold Categories.merge_categories.
    destruct (llm _ _) as [merged|e1] eqn:Hmerge; [done|].
    intros [= <- <-]. right. eexists _, _. split; [reflexivity|]. done.
  - destruct Hgen as (k & c & Hk & -> & Hc). cbn [app] in *.
    intros [= <- <-]. right.
    exists (take k (generation_calls batches topic initial_category_count requirements)), c.
    pose proof (lookup_lt_Some _ _ _ Hk) as Hlt.
    split; [by apply take_S_r|]. split.
    + rewrite length_take. by replace (k `min` _) with k by lia.
    + apply Forall_take. exact Hnomerge.
Qed.

End GenerationFacts.
End CategoriesFacts.

Lemma generate_categories_call_log_witness :
  ∃ calls out batches answers,
    Categories.generate_categories pystr steady_llm (str "session") demo_frame
      (str "text") (str "reviews") 5 3 8 2 None None = (calls, Ok out)
    ∧ calls = Categories.generation_calls pystr batches (str "reviews") 5 None
              ++ [Categories.merge_call pystr answers (str "reviews") 3 8 None]
    ∧ length answers = length batches.
Proof.
  destruct (Categories.generate_categories pystr steady_llm (str "session") demo_frame
              (str "text") (str "reviews") 5 3 8 2 None None)
    as [calls [out|e]] eqn:Hrun.
  - destruct (CategoriesFacts.generate_categories_call_log pystr steady_llm _ _ _ _ _ _ _ _
                _ _ calls out Hrun)
      as (batches & answers & _ & _ & Hcalls & Hlen & _).
    by exists calls, out, batches, answers.
  - vm_compute in Hrun. discriminate.
Defined.

Lemma generate_categories_fails_fast_witness :
  ∃ calls e,
    Categories.generate_categories pystr limited_llm (str "session") demo_frame
      (str "text") (str "reviews") 5 3 8 1 None None = (calls, Raise e)
    ∧ ∃ earlier last,
        calls = earlier ++ [last]
        ∧ limited_llm (length earlier) last = Raise e
        ∧ Forall (λ c, Categories.is_merge pystr c = false) earlier.
Proof.
  destruct (Categories.generate_categories pystr limited_llm (str "session") demo_frame
              (str "text") (str "reviews") 5 3 8 1 None None)
    as [calls [out|e]] eqn:Hrun.
  - vm_compute in Hrun. discriminate.
  - exists calls, e. split; [done|].
    destruct (CategoriesFacts.generate_categories_fails_fast pystr limited_llm _ _ _ _ _ _ _ _
                _ _ calls e Hrun) as [[-> _]|H]; [|exact H].
    vm_compute in Hrun. discriminate.
Defined.

(** *** Content analysis *)

Module ContentAnalysisFacts.
Import ContentAnalysis.

Lemma literal_field_spec (fields : gmap pystr jvalue) (name : pystr)
    (allowed : list pystr) (s : pystr) :
  literal_field fields name allowed = Some s
  ↔ fields !! name = Some (JString s) ∧ s ∈ allowed.
Proof.
  unfold literal_field. destruct (fields !! name) as [[s'|]|].
  - case_bool_decide as Hin.
    + split; [by intros [= ->]|]. by intros [[= ->] _].
    + split; [done|]. by intros [[= ->] ?].
  - split; [done|]. by intros [? _].
  - split; [done|]. by intros [? _].
Qed.

Section WorkflowFacts.
Variable analysis_chain : nat → ContentAnalysisInput → Py.result answer.

(** X14. Whatever the model answers, a result that [analyze_text] returns
    carries one of the literals in each field, taken from a mapping the
    model gave at this invocation. *)
Theorem analyze_text_result_is_literal (calls : list ContentAnalysisInput)
    (input_data : ContentAnalysisInput) (calls' : list ContentAnalysisInput)
    (r : ContentAnalysisResult) :
  analyze_text analysis_chain calls input_data = (calls', Ok r) →
  calls' = calls ++ [input_data]
  ∧ validity r ∈ validity_labels
  ∧ sentiment_class r ∈ sentiment_labels
  ∧ sensitive_info r ∈ sensitive_labels
  ∧ ∃ fields,
      analysis_chain (length calls) input_data = Ok (Mapping fields)
      ∧ fields !! str "validity" = Some (JString (validity r))
      ∧ fields !! str "sentiment_class" = Some (JString (sentiment_class r))
      ∧ fields !! str "sensitive_info" = Some (JString (sensitive_info r)).
Proof.
  unfold analyze_text. intros [= <- H]. split; [done|].
  destruct (analysis_chain (length calls) input_data) as [[fields|]|e]; try done.
  unfold make_result in H.
  destruct (literal_field fields (str "validity") validity_labels) as [v|] eqn:Hv;
    [|done].
  destruct (literal_field fields (str "sentiment_class") sentiment_labels) as [s|] eqn:Hs;
    [|done].
  destruct (literal_field fields (str "sensitive_info") sensitive_labels) as [i|] eqn:Hi;
    [|done].
  injection H as <-. cbn.
  apply literal_field_spec in Hv as [Hv1 Hv2].
  apply literal_field_spec in Hs as [Hs1 Hs2].
  apply literal_field_spec in Hi as [Hi1 Hi2].
  repeat split; try done. by exists fields.
Qed.

Lemma batch_analyze_app (calls : list ContentAnalysisInput) (a b : list cell)
    (context : pystr) :
  batch_analyze analysis_chain calls (a ++ b) context
  = match batch_analyze analysis_chain calls a context with
    | (calls', Ok ra) =>
        match batch_analyze analysis_chain calls' b context with
        | (calls'', Ok rb) => (calls'', Ok (ra ++ rb))
        | (calls'', Raise e) => (calls'', Raise e)
        end
    | (calls', Raise e) => (calls', Raise e)
    end.
Proof.
  revert calls. induction a as [|t a IH]; intros calls; cbn [app batch_analyze].
  - by destruct (batch_analyze analysis_chain calls b context) as [? [?|?]].
  - destruct (make_input t context) as [input_data|e]; [|done].
    destruct (analyze_text analysis_chain calls input_data) as [calls1 [r|e]]; [|done].
    rewrite IH.
    destruct (batch_analyze analysis_chain calls1 a context) as [calls2 [ra|e]]; [|done].
    by destruct (batch_analyze analysis_chain calls2 b context) as [calls3 [rb|e]].
Qed.

Lemma batch_analyze_ok (texts : list cell) (context : pystr)
    (calls calls' : list ContentAnalysisInput) (rs : list ContentAnalysisResult) :
  batch_analyze analysis_chain calls texts context = (calls', Ok rs) →
  ∃ strings,
    texts = Str <$> strings
    ∧ calls' = calls ++ (analysis_input context <$> strings)
    ∧ length rs = length texts
    ∧ ∀ i s, strings !! i = Some s →
        ∃ result r, analysis_chain (length calls + i) (analysis_input context s) = Ok result
                    ∧ make_result result = Ok r
                    ∧ rs !! i = Some r.
Proof.
  revert calls calls' rs. induction texts as [|t texts IH]; intros calls calls' rs;
    cbn [batch_analyze].
  - intros [= <- <-]. exists []. rewrite app_nil_r. done.
  - destruct t as [|s]; [done|]. cbn [make_input].
    unfold analyze_text.
    destruct (analysis_chain (length calls) _) as [result|e] eqn:Hchain; [|done].
    destruct (make_result result) as [r|e] eqn:Hres; [|done].
    destruct (batch_analyze analysis_chain _ texts context) as [calls2 [rs'|e]] eqn:Hrest;
      [|done].
    intros [= <- <-].
    destruct (IH _ _ _ Hrest) as (strings & -> & -> & Hlen & Hall).
    exists (s :: strings). split; [done|]. split; [by rewrite <- app_assoc|].
    split; [cbn; lia|].
    intros [|i] s' Hi; cbn in Hi.
    + injection Hi as <-. exists result, r. by rewrite Nat.add_0_r.
    + destruct (Hall i s' Hi) as (result' & r' & Hc & Hr & Hl).
      exists result', r'. split; [|done].
      rewrite length_app in Hc. cbn in Hc.
      by replace (length calls + S i) with (length calls + 1 + i) by lia.
Qed.

(** X15. A batch that [batch_analyze] returns had only strings for texts; the
    model was invoked once per text, in order, with the context of the
    batch, and the results are the validated answers, one per text in
    order. *)
Theorem batch_analyze_success (texts : list cell) (context : pystr)
    (calls : list ContentAnalysisInput) (rs : list ContentAnalysisResult) :
  batch_analyze analysis_chain [] texts context = (calls, Ok rs) →
  ∃ strings,
    texts = Str <$> strings
    ∧ calls = analysis_input context <$> strings
    ∧ length rs = length texts
    ∧ ∀ i s, strings !! i = Some s →
        ∃ result r, analysis_chain i (analysis_input context s) = Ok result
                    ∧ make_result result = Ok r
                    ∧ rs !! i = Some r.
Proof. intros H. by apply batch_analyze_ok in H. Qed.

(** X16. A missing value among the texts ends [batch_analyze] with a
    [ValueError] when the texts before it were analysed: the model is
    invoked neither for the missing value nor for any later text, and the
    earlier results are not returned. *)
Theorem batch_analyze_missing_text (before after : list cell) (context : pystr)
    (calls : list ContentAnalysisInput) (rs : list ContentAnalysisResult) :
  batch_analyze analysis_chain [] before context = (calls, Ok rs) →
  ∃ msg,
    batch_analyze analysis_chain [] (before ++ NaN :: after) context
    = (calls, Raise (ValueError msg))
    ∧ length calls = length before.
Proof.
  intros H. rewrite batch_analyze_app, H. cbn. eexists. split; [done|].
  apply batch_analyze_ok in H as (strings & -> & -> & _). cbn.
  by rewrite !length_fmap.
Qed.

Lemma process_batches_ok (texts : list cell) (context : pystr) (fuel i : nat)
    (calls calls' : list ContentAnalysisInput) (reported : list (nat * nat))
    (results rs : list ContentAnalysisResult) :
  length texts - i ≤ fuel →
  batch_analyze analysis_chain calls (drop i texts) context = (calls', Ok rs) →
  process_batches analysis_chain (range_from fuel i (length texts) 3) texts context
    calls reported results
  = ({| calls_made := calls';
        reported := reported
                    ++ ((λ j, (Nat.min (j + 3) (length texts), length texts))
                          <$> range_from fuel i (length texts) 3) |},
     Ok (results ++ rs)).
Proof.
  revert i calls reported results rs.
  induction fuel as [|fuel IH]; intros i calls reported results rs Hfuel Hrun;
    cbn [range_from].
  - rewrite drop_ge in Hrun by lia. injection Hrun as <- <-.
    cbn. by rewrite !app_nil_r.
  - case_decide as Hlt.
    + cbn [process_batches fmap list_fmap]. unfold async_batch_analyze, slice.
      replace (i + 3 - i) with 3 by lia.
      rewrite <- (take_drop 3 (drop i texts)), batch_analyze_app in Hrun.
      destruct (batch_analyze analysis_chain calls (take 3 (drop i texts)) context)
        as [calls1 [r1|e]] eqn:Hfirst; [|done].
      rewrite drop_drop in Hrun.
      destruct (batch_analyze analysis_chain calls1 (drop (i + 3) texts) context)
        as [calls2 [r2|e]] eqn:Hrest; [|done].
      injection Hrun as <- <-.
      rewrite (IH (i + 3) calls1 _ _ r2) by (done || lia).
      apply batch_analyze_ok in Hfirst as (_ & _ & _ & Hlen & _).
      rewrite Hlen, length_take, length_drop.
      replace (i + 3 `min` (length texts - i)) with ((i + 3) `min` length texts) by lia.
      by rewrite <- !app_assoc.
    + rewrite drop_ge in Hrun by lia. injection Hrun as <- <-.
      cbn. by rewrite !app_nil_r.
Qed.

(** X17. Cutting the texts into batches of three changes neither the
    invocations nor the results: when the analysis of the whole list
    returns, [batch_classify] makes the same invocations in the same order
    and returns the same results, and after each batch it reports the
    number of texts done so far, the last report being the total. *)
Theorem batch_classify_as_whole (texts : list cell) (context : pystr)
    (calls : list ContentAnalysisInput) (rs : list ContentAnalysisResult) :
  batch_analyze analysis_chain [] texts context = (calls, Ok rs) →
  batch_classify analysis_chain texts context
  = ({| calls_made := calls;
        reported := (λ j, (Nat.min (j + 3) (length texts), length texts))
                      <$> range_from (length texts) 0 (length texts) 3 |},
     Ok rs).
Proof.
  intros H. unfold batch_classify.
  by rewrite (process_batches_ok texts context (length texts) 0 [] calls [] [] rs)
    by (done || lia).
Qed.

Lemma batch_analyze_length (texts : list cell) (context : pystr)
    (calls calls' : list ContentAnalysisInput) (rs : list ContentAnalysisResult) :
  batch_analyze analysis_chain calls texts context = (calls', Ok rs) →
  length rs = length texts.
Proof. intros H. by apply batch_analyze_ok in H as (? & _ & _ & ? & _). Qed.

Lemma process_batches_reported (texts : list cell) (context : pystr)
    (starts : list nat) (calls : list ContentAnalysisInput)
    (reported : list (nat * nat)) (results : list ContentAnalysisResult)
    (P : nat * nat → Prop) :
  (∀ i, i ∈ starts → P (i + length (slice texts i (i + 3)), length texts)) →
  Forall P reported →
  Forall P (ContentAnalysis.reported
              (process_batches analysis_chain starts texts context calls reported results).1).
Proof.
  revert calls reported results.
  induction starts as [|i starts IH]; intros calls reported results Hstarts Hrep;
    cbn [process_batches]; [done|].
  unfold async_batch_analyze.
  destruct (batch_analyze analysis_chain calls (slice texts i (i + 3)) context)
    as [calls' [batch_results|e]] eqn:Hbatch; [|done].
  apply IH.
  - intros j Hj. apply Hstarts. by right.
  - apply Forall_app. split; [done|]. apply Forall_singleton.
    rewrite (batch_analyze_length _ _ _ _ _ Hbatch). apply Hstarts. by left.
Qed.

(** X18. In every run of [batch_classify], failing or not, each progress report
    counts at least one text and at most the total, which is not zero: the
    fraction handed to the progress bar is defined and lies in (0, 1]. *)
Theorem batch_classify_progress_bounded (texts : list cell) (context : pystr) :
  Forall (λ p : nat * nat, 1 ≤ p.1 ≤ p.2 ∧ p.2 = length texts)
         (reported (batch_classify analysis_chain texts context).1).
Proof.
  unfold batch_classify. apply process_batches_reported; [|done].
  intros i Hi. apply list_elem_of_lookup in Hi as [k Hk].
  apply range_from_lookup in Hk as [_ Hlt]. cbn [fst snd].
  unfold slice. rewrite length_take, length_drop. lia.
Qed.

End WorkflowFacts.
End ContentAnalysisFacts.

Lemma analyze_text_result_is_literal_witness :
  [ContentAnalysis.analysis_input (str "survey") (str "fine")]
  = [] ++ [ContentAnalysis.analysis_input (str "survey") (str "fine")]
  ∧ ContentAnalysis.validity neutral_result ∈ ContentAnalysis.validity_labels
  ∧ ContentAnalysis.sentiment_class neutral_result ∈ ContentAnalysis.sentiment_labels
  ∧ ContentAnalysis.sensitive_info neutral_result ∈ ContentAnalysis.sensitive_labels
  ∧ ∃ fields,
      steady_chain (length (@nil ContentAnalysis.ContentAnalysisInput))
        (ContentAnalysis.analysis_input (str "survey") (str "fine"))
      = Ok (ContentAnalysis.Mapping fields)
      ∧ fields !! str "validity"
        = Some (ContentAnalysis.JString (ContentAnalysis.validity neutral_result))
      ∧ fields !! str "sentiment_class"
        = Some (ContentAnalysis.JString (ContentAnalysis.sentiment_class neutral_result))
      ∧ fields !! str "sensitive_info"
        = Some (ContentAnalysis.JString (ContentAnalysis.sensitive_info neutral_result)).
Proof.
  apply (ContentAnalysisFacts.analyze_text_result_is_literal steady_chain []
           (ContentAnalysis.analysis_input (str "survey") (str "fine"))).
  vm_compute. reflexivity.
Defined.

Lemma batch_analyze_success_witness :
  ∃ strings,
    [Str (str "fine"); Str (str "slow")] = Str <$> strings
    ∧ ContentAnalysis.analysis_input (str "survey") <$> [str "fine"; str "slow"]
      = ContentAnalysis.analysis_input (str "survey") <$> strings
    ∧ length [neutral_result; neutral_result] = length [Str (str "fine"); Str (str "slow")]
    ∧ ∀ i s, strings !! i = Some s →
        ∃ result r,
          steady_chain i (ContentAnalysis.analysis_input (str "survey") s) = Ok result
          ∧ ContentAnalysis.make_result result = Ok r
          ∧ [neutral_result; neutral_result] !! i = Some r.
Proof.
  apply (ContentAnalysisFacts.batch_analyze_success steady_chain
           [Str (str "fine"); Str (str "slow")] (str "survey")).
  vm_compute. reflexivity.
Defined.

Lemma batch_analyze_missing_text_witness :
  ∃ msg,
    ContentAnalysis.batch_analyze steady_chain []
      ([Str (str "fine")] ++ NaN :: [Str (str "slow")]) (str "survey")
    = ([ContentAnalysis.analysis_input (str "survey") (str "fine")],
       Raise (ValueError msg))
    ∧ length [ContentAnalysis.analysis_input (str "survey") (str "fine")]
      = length [Str (str "fine")].
Proof.
  apply (ContentAnalysisFacts.batch_analyze_missing_text steady_chain
           [Str (str "fine")] [Str (str "slow")] (str "survey") _ [neutral_result]).
  vm_compute. reflexivity.
Defined.

Lemma batch_classify_as_whole_witness :
  ContentAnalysis.batch_classify steady_chain
    [Str (str "one"); Str (str "two"); Str (str "three"); Str (str "four")] (str "survey")
  = ({| ContentAnalysis.calls_made :=
          ContentAnalysis.analysis_input (str "survey")
            <$> [str "one"; str "two"; str "three"; str "four"];
        ContentAnalysis.reported :=
          (λ j, (Nat.min (j + 3) 4, 4)) <$> range_from 4 0 4 3 |},
     Ok [neutral_result; neutral_result; neutral_result; neutral_result]).
Proof.
  apply (ContentAnalysisFacts.batch_classify_as_whole steady_chain
           [Str (str "one"); Str (str "two"); Str (str "three"); Str (str "four")]
           (str "survey")).
  vm_compute. reflexivity.
Defined.

(** *** Translation of a batch and its checkpoint *)

Section BatchTranslationFacts.
Variable chain : cell → pystr → result (option pystr).

Lemma gather_success (calls : list cell) (texts : list cell) (topic : pystr) :
  (∀ t, t ∈ texts → contains_chinese t = false → ∃ s, chain t topic = Ok (Some s)) →
  ∃ out,
    gather chain calls texts topic
    = (calls ++ List.filter (λ t, negb (contains_chinese t)) texts, Ok out)
    ∧ length out = length texts
    ∧ ∀ i t, texts !! i = Some t →
        (contains_chinese t = true → out !! i = Some t)
        ∧ (contains_chinese t = false →
           ∃ s, chain t topic = Ok (Some s) ∧ out !! i = Some (Str s)).
Proof.
  revert calls. induction texts as [|text texts IH]; intros calls Hall.
  - exists []. cbn. rewrite app_nil_r. split; [done|]. split; [done|].
    intros i t Hi. done.
  - assert (∀ t, t ∈ texts → contains_chinese t = false →
                 ∃ s, chain t topic = Ok (Some s)) as Hall'.
    { intros t Ht. apply Hall. by right. }
    cbn [gather List.filter]. unfold translate_with_semaphore.
    destruct (contains_chinese text) eqn:Hcn; cbn [negb].
    + destruct (IH calls Hall') as (out & -> & Hlen & Hout).
      exists (text :: out). split; [done|]. split; [cbn; lia|].
      intros [|i] t Hi; cbn in Hi.
      * injection Hi as <-. split; [done|]. congruence.
      * by apply Hout.
    + destruct (Hall text) as [s Hs]; [by left|done|].
      unfold translate. rewrite Hs.
      destruct (IH (calls ++ [text]) Hall') as (out & -> & Hlen & Hout).
      exists (Str s :: out). rewrite <- app_assoc. split; [done|].
      split; [cbn; lia|].
      intros [|i] t Hi; cbn in Hi.
      * injection Hi as <-. split; [congruence|]. intros _. by exists s.
      * by apply Hout.
Qed.

(** X19. When the model answers every text that is not mostly CJK with a
    translation, [batch_translate] returns one item per text, in input
    order: the translation at the position of each text sent, the text
    itself at the position of each mostly CJK text; the texts sent are
    exactly those that are not mostly CJK, in input order. *)
Theorem batch_translate_success (texts : list cell) (topic : pystr) :
  (∀ t, t ∈ texts → contains_chinese t = false → ∃ s, chain t topic = Ok (Some s)) →
  ∃ out,
    batch_translate chain texts topic
    = (List.filter (λ t, negb (contains_chinese t)) texts, Ok out)
    ∧ length out = length texts
    ∧ ∀ i t, texts !! i = Some t →
        (contains_chinese t = true → out !! i = Some t)
        ∧ (contains_chinese t = false →
           ∃ s, chain t topic = Ok (Some s) ∧ out !! i = Some (Str s)).
Proof. intros Hall. by apply (gather_success []). Qed.

(** X20. [perform_translation] writes its checkpoint exactly once when the batch
    succeeds, and the frame written is the frame returned; when the batch
    raises nothing is written. Invocations and outcome are those of
    [perform_translation]. *)
Theorem perform_translation_checkpoint (df : DataFrame) (text_column topic : pystr) :
  (perform_translation_saving chain df text_column topic).1.1
  = (perform_translation chain df text_column topic).1
  ∧ (perform_translation_saving chain df text_column topic).2
    = (perform_translation chain df text_column topic).2
  ∧ (perform_translation_saving chain df text_column topic).1.2
    = match (perform_translation chain df text_column topic).2 with
      | Ok out => [out]
      | Raise _ => []
      end.
Proof.
  unfold perform_translation_saving, perform_translation, translate_and_save, getitem.
  case_decide as Hcol; [|done].
  destruct (batch_translate chain (cell_at text_column <$> rows df) topic)
    as [calls [results|e]] eqn:Hrun; [|done].
  cbn [fst snd app]. split; [done|]. split; [done|].
  unfold batch_translate in Hrun. apply gather_spec in Hrun as [_ Hout].
  destruct (Hout results eq_refl) as [Hlen _].
  rewrite (bool_decide_eq_true_2 (length results = _)) by done.
  rewrite orb_true_r. rewrite Hlen, length_fmap, Nat.sub_diag. cbn [replicate].
  by rewrite app_nil_r.
Qed.

End BatchTranslationFacts.

Lemma batch_translate_success_witness :
  ∃ out,
    batch_translate failing_chain [Str (str "fine"); Str [20013; 25991]%N] (str "reviews")
    = (List.filter (λ t, negb (contains_chinese t))
         [Str (str "fine"); Str [20013; 25991]%N],
       Ok out)
    ∧ length out = length [Str (str "fine"); Str [20013; 25991]%N]
    ∧ ∀ i t, [Str (str "fine"); Str [20013; 25991]%N] !! i = Some t →
        (contains_chinese t = true → out !! i = Some t)
        ∧ (contains_chinese t = false →
           ∃ s, failing_chain t (str "reviews") = Ok (Some s) ∧ out !! i = Some (Str s)).
Proof.
  apply (batch_translate_success failing_chain
           [Str (str "fine"); Str [20013; 25991]%N] (str "reviews")).
  intros t Ht Hcn.
  apply elem_of_cons in Ht as [->|Ht].
  - exists (str "ok"). vm_compute. reflexivity.
  - apply list_elem_of_singleton in Ht as ->. vm_compute in Hcn. discriminate.
Defined.

(** *** Custom categories and the display of multi-label results *)

Section CustomCategoriesFacts.
Context {db : UnicodeDB}.

Lemma split_on_cons (sep : N) (t : pystr) :
  ∃ part parts, split_on sep t = part :: parts.
Proof.
  induction t as [|c t IH]; cbn; [by eexists _, _|].
  destruct (c =? sep)%N; [by eexists _, _|].
  destruct IH as (part & parts & ->). by eexists _, _.
Qed.

Lemma split_on_no_sep (sep : N) (x : pystr) : sep ∉ x → split_on sep x = [x].
Proof.
  induction x as [|c x IH]; intros Hx; [done|]. cbn.
  apply not_elem_of_cons in Hx as [Hc Hx].
  destruct (N.eqb_spec c sep) as [->|_]; [done|]. by rewrite IH.
Qed.

Lemma split_on_app_sep (sep : N) (x rest : pystr) :
  sep ∉ x → split_on sep (x ++ sep :: rest) = x :: split_on sep rest.
Proof.
  induction x as [|c x IH]; intros Hx; cbn.
  - by rewrite N.eqb_refl.
  - apply not_elem_of_cons in Hx as [Hc Hx].
    destruct (N.eqb_spec c sep) as [->|_]; [done|]. by rewrite IH.
Qed.

Lemma split_on_join (sep : N) (lines : list pystr) :
  lines ≠ [] → Forall (λ l, sep ∉ l) lines →
  split_on sep (join [sep] lines) = lines.
Proof.
  induction lines as [|x [|y lines] IH]; intros Hne Hall; [done| |].
  - cbn. apply split_on_no_sep. by apply Forall_cons in Hall as [? _].
  - apply Forall_cons in Hall as [Hx Hall].
    change (join [sep] (x :: y :: lines)) with (x ++ sep :: join [sep] (y :: lines)).
    rewrite split_on_app_sep by done. by rewrite IH.
Qed.

Lemma split_on_elem_of (sep : N) (t line : pystr) (c : N) :
  line ∈ split_on sep t → c ∈ line → c ∈ t.
Proof.
  revert line. induction t as [|x t IH]; intros line; cbn.
  - intros ->%list_elem_of_singleton Hc. done.
  - destruct (x =? sep)%N.
    + intros [->|Hl]%elem_of_cons Hc; [by apply elem_of_nil in Hc|].
      right. by eapply IH.
    + destruct (split_on sep t) as [|part parts]; cbn.
      * intros ->%list_elem_of_singleton Hc. apply list_elem_of_singleton in Hc as ->. left.
      * intros [->|Hl]%elem_of_cons Hc.
        -- apply elem_of_cons in Hc as [->|Hc]; [left|]. right. apply (IH part); [left|done].
        -- right. apply (IH line); [by right|done].
Qed.

Lemma split_once_sep (sep : N) (name rest : pystr) :
  sep ∉ name → split_once sep (name ++ sep :: rest) = (name, Some rest).
Proof.
  induction name as [|c name IH]; intros Hn; cbn.
  - by rewrite N.eqb_refl.
  - apply not_elem_of_cons in Hn as [Hc Hn].
    destruct (N.eqb_spec c sep) as [->|_]; [done|]. by rewrite IH.
Qed.

Lemma split_once_no_sep (sep : N) (line : pystr) :
  sep ∉ line → split_once sep line = (line, None).
Proof.
  induction line as [|c line IH]; intros Hn; cbn; [done|].
  apply not_elem_of_cons in Hn as [Hc Hn].
  destruct (N.eqb_spec c sep) as [->|_]; [done|]. by rewrite IH.
Qed.

Lemma join_nonempty (sep : pystr) (x : pystr) (xs : list pystr) :
  x ≠ [] → join sep (x :: xs) ≠ [].
Proof. destruct x; [done|]. by destruct xs. Qed.

(** X21. What the user types comes back: the lines name,description of a
    non-empty list of categories, whose names hold neither a comma nor a
    line feed and whose descriptions hold no line feed, are parsed into
    these very names and descriptions, in order. *)
Theorem custom_categories_round_trip (cats : list (pystr * pystr)) :
  py_isspace 44%N = false →
  cats ≠ [] →
  Forall (λ p : pystr * pystr, (44%N ∉ p.1) ∧ (10%N ∉ p.1) ∧ (10%N ∉ p.2)) cats →
  handle_custom_categories
    (join [10%N] ((λ p : pystr * pystr, p.1 ++ [44%N] ++ p.2) <$> cats))
  = Some (Ok ((λ p : pystr * pystr, (p.1, Some p.2)) <$> cats)).
Proof.
  intros Hcomma Hne Hall. unfold handle_custom_categories.
  destruct cats as [|p cats]; [done|].
  rewrite bool_decide_eq_false_2.
  2:{ cbn [fmap list_fmap]. apply join_nonempty. by destruct (p.1). }
  rewrite split_on_join.
  2:{ done. }
  2:{ apply Forall_fmap. eapply Forall_impl; [exact Hall|].
      intros q (_ & H1 & H2). cbn. rewrite elem_of_app, elem_of_cons.
      intros [?|[?|?]]; done. }
  rewrite list_filter_all.
  2:{ intros line Hline. apply list_elem_of_fmap in Hline as (q & -> & _).
      apply negb_true_iff, bool_decide_eq_false_2.
      destruct (strip_keep q.1 [44%N] q.2) as (a & b & ->); [done|by constructor|].
      by destruct a. }
  rewrite <- list_fmap_compose.
  assert ((split_once 44%N ∘ (λ p : pystr * pystr, p.1 ++ [44%N] ++ p.2)) <$> (p :: cats)
          = (λ p : pystr * pystr, (p.1, Some p.2)) <$> (p :: cats)) as ->.
  { apply list_fmap_ext. intros i q Hq. cbn.
    rewrite Forall_forall in Hall.
    destruct (Hall q) as (H1 & _); [by eapply list_elem_of_lookup_2|].
    by apply split_once_sep. }
  cbn [fmap list_fmap existsb snd]. rewrite bool_decide_eq_true_2 by by eexists.
  done.
Qed.

(** X22. Names alone are refused: when the text typed holds no comma at all, the
    frame of categories cannot be built and a [ValueError] is raised, unless
    every line is blank, which gives no category. *)
Theorem custom_categories_without_comma (categories_text : pystr) :
  categories_text ≠ [] →
  44%N ∉ categories_text →
  handle_custom_categories categories_text
  = Some (if forallb (λ line, bool_decide (strip line = [])) (split_on 10%N categories_text)
          then Ok []
          else Raise (ValueError (str "2 columns passed, passed data had 1 columns"))).
Proof.
  intros Hne Hcomma. unfold handle_custom_categories.
  rewrite bool_decide_eq_false_2 by done. f_equal.
  assert (∀ line, line ∈ split_on 10%N categories_text → 44%N ∉ line) as Hlines.
  { intros line Hline Hin. apply Hcomma. by eapply split_on_elem_of. }
  revert Hlines. generalize (split_on 10%N categories_text) as lines.
  intros lines Hlines.
  assert (existsb (λ row : pystr * option pystr, bool_decide (is_Some row.2))
            (split_once 44%N
               <$> List.filter (λ line, negb (bool_decide (strip line = []))) lines)
          = false) as Hnone.
  { induction lines as [|line lines IH]; [done|]. cbn [List.filter].
    assert (∀ l, l ∈ lines → 44%N ∉ l) as Hrest by (intros; apply Hlines; by right).
    destruct (negb _); [|by apply IH].
    cbn [fmap list_fmap existsb]. rewrite split_once_no_sep by (apply Hlines; left).
    cbn. by apply IH. }
  rewrite Hnone. clear Hnone Hlines.
  induction lines as [|line lines IH]; [done|]. cbn [List.filter forallb].
  destruct (bool_decide (strip line = [])); cbn [negb andb]; [exact IH|done].
Qed.

End CustomCategoriesFacts.

Lemma custom_categories_round_trip_witness :
  handle_custom_categories
    (join [10%N] ((λ p : pystr * pystr, p.1 ++ [44%N] ++ p.2)
                    <$> [(str "pay", str "salary, bonus"); (str "place", str "office")]))
  = Some (Ok ((λ p : pystr * pystr, (p.1, Some p.2))
                <$> [(str "pay", str "salary, bonus"); (str "place", str "office")])).
Proof.
  apply (custom_categories_round_trip
           [(str "pay", str "salary, bonus"); (str "place", str "office")]).
  - reflexivity.
  - discriminate.
  - apply (bool_decide_unpack _). vm_compute. exact I.
Defined.

Lemma custom_categories_without_comma_witness :
  handle_custom_categories (str "pay")
  = Some (if forallb (λ line, bool_decide (strip line = [])) (split_on 10%N (str "pay"))
          then Ok []
          else Raise (ValueError (str "2 columns passed, passed data had 1 columns"))).
Proof.
  apply (custom_categories_without_comma (str "pay")).
  - discriminate.
  - apply (bool_decide_unpack _). vm_compute. exact I.
Defined.

(** X23. A row without a classification record shows every category: its
    indicator cells are missing values, and a missing value is true; a row
    whose indicators are all false shows none. *)
Theorem shown_categories_of_missing_values (labels : list pystr) :
  shown_categories labels (replicate (length labels) VNaN)
  = List.filter (startswith (str "category_")) labels
  ∧ shown_categories labels (replicate (length labels) (VBool false)) = [].
Proof.
  unfold shown_categories. split.
  - induction labels as [|l labels IH]; [done|].
    cbn [length replicate zip zip_with List.filter fst snd].
    rewrite andb_true_r. destruct (startswith (str "category_") l); [|exact IH].
    cbn [fmap list_fmap fst]. f_equal. exact IH.
  - induction labels as [|l labels IH]; [done|].
    cbn [length replicate zip zip_with List.filter fst snd truthy].
    rewrite andb_false_r. exact IH.
Qed.
(** *** The checkpoints of the classification loop *)

Section CheckpointFacts.
Variable chain : Chain.
Variable cats : list (pystr * pystr).
Variable topic : pystr.

Lemma classify_loop_checkpoints_from (tr0 : Trace) (res0 : list ClassificationRecord)
    (tables : list pystr) :
  checkpoints (foldl (classify_step chain cats topic) (tr0, res0) tables).1
  = checkpoints tr0
    ++ concat (imap (λ k table,
                       match classify_single_batch chain (length (invocations tr0) + k)
                               table cats topic with
                       | Records _ =>
                           [res0 ++ concat (imap (λ i table,
                                                    records_of
                                                      (classify_single_batch chain
                                                         (length (invocations tr0) + i)
                                                         table cats topic))
                                                 (take (S k) tables))]
                       | NotAList => []
                       end) tables).
Proof.
  revert tr0 res0. induction tables as [|table tables IH]; intros tr0 res0.
  - cbn. by rewrite app_nil_r.
  - cbn [foldl].
    set (res1 := res0 ++ records_of (classify_single_batch chain
                                       (length (invocations tr0)) table cats topic)).
    assert (∃ tr1, classify_step chain cats topic (tr0, res0) table = (tr1, res1)
                   ∧ length (invocations tr1) = S (length (invocations tr0))
                   ∧ checkpoints tr1
                     = checkpoints tr0
                       ++ match classify_single_batch chain (length (invocations tr0))
                                  table cats topic with
                          | Records _ => [res1]
                          | NotAList => []
                          end) as (tr1 & -> & Hinv & Hcp).
    { unfold classify_step. subst res1.
      destruct (classify_single_batch chain (length (invocations tr0)) table cats topic)
        as [result|]; eexists; cbn [records_of].
      - split; [reflexivity|]. cbn. rewrite length_app. cbn. split; [lia|done].
      - rewrite !app_nil_r. split; [reflexivity|]. cbn. rewrite length_app. cbn.
        split; [lia|done]. }
    rewrite IH, Hcp, Hinv, <- app_assoc. f_equal.
    cbn [imap concat take]. rewrite ?Nat.add_0_r. f_equal.
    + destruct (classify_single_batch chain (length (invocations tr0)) table cats topic);
        [|done].
      subst res1. cbn. by rewrite ?Nat.add_0_r, ?app_nil_r.
    + f_equal. apply imap_ext. intros k t _. cbn [compose].
      replace (length (invocations tr0) + S k) with (S (length (invocations tr0)) + k)
        by lia.
      destruct (classify_single_batch chain (S (length (invocations tr0)) + k) t
                  cats topic); [|done].
      f_equal. subst res1. rewrite <- app_assoc. f_equal.
      cbn [imap concat]. rewrite ?Nat.add_0_r. f_equal. f_equal.
      apply imap_ext. intros i t' _. cbn [compose]. do 2 f_equal. lia.
Qed.

Lemma classify_loop_last_from (st : Trace * list ClassificationRecord)
    (tables : list pystr) :
  (checkpoints st.1 = [] ∧ st.2 = []) ∨ last (checkpoints st.1) = Some st.2 →
  (checkpoints (foldl (classify_step chain cats topic) st tables).1 = []
   ∧ (foldl (classify_step chain cats topic) st tables).2 = [])
  ∨ last (checkpoints (foldl (classify_step chain cats topic) st tables).1)
    = Some (foldl (classify_step chain cats topic) st tables).2.
Proof.
  revert st. induction tables as [|table tables IH]; intros [tr0 res0] H; [done|].
  cbn [foldl]. apply IH. unfold classify_step.
  destruct (classify_single_batch chain (length (invocations tr0)) table cats topic)
    as [result|].
  - right. cbn. by rewrite last_snoc.
  - exact H.
Qed.

Lemma classify_loop_count_from (st : Trace * list ClassificationRecord)
    (tables : list pystr) :
  (∀ k table, tables !! k = Some table →
     classify_single_batch chain (length (invocations st.1) + k) table cats topic
     ≠ NotAList) →
  length (checkpoints (foldl (classify_step chain cats topic) st tables).1)
  = length (checkpoints st.1) + length tables.
Proof.
  revert st. induction tables as [|table tables IH]; intros [tr0 res0] H.
  - cbn. lia.
  - cbn [foldl]. pose proof (H 0 table eq_refl) as H0.
    cbn [fst] in H, H0. rewrite Nat.add_0_r in H0.
    rewrite IH.
    + unfold classify_step.
      destruct (classify_single_batch chain (length (invocations tr0)) table cats topic)
        as [result|]; [|done].
      cbn. rewrite length_app. cbn. lia.
    + intros k t Hk.
      replace (length (invocations (classify_step chain cats topic (tr0, res0) table).1)
               + k)
        with (length (invocations tr0) + S k).
      * by apply H.
      * unfold classify_step.
        destruct (classify_single_batch chain (length (invocations tr0)) table
                    cats topic); cbn; rewrite length_app; cbn; lia.
Qed.

(** X24. The checkpoint file is written after each table whose answer has a
    list as its [classifications] entry or has none, and after each table
    whose invocation failed, and after no other table. What is written after
    the table of index k is the list of the records of the tables 0 to k, in
    order. What is written last is the list the result frame is built from,
    and that list is empty when nothing is written. When no entry is
    anything else than a list, the file is written once per table. *)
Theorem classify_loop_checkpoints (tables : list pystr) :
  checkpoints (classify_loop chain cats topic tables).1
  = concat (imap (λ k table,
                    match classify_single_batch chain k table cats topic with
                    | Records _ =>
                        [concat (imap (λ i table,
                                         records_of
                                           (classify_single_batch chain i table
                                              cats topic))
                                      (take (S k) tables))]
                    | NotAList => []
                    end) tables)
  ∧ (checkpoints (classify_loop chain cats topic tables).1 ≠ [] →
     last (checkpoints (classify_loop chain cats topic tables).1)
     = Some (classify_loop chain cats topic tables).2)
  ∧ (checkpoints (classify_loop chain cats topic tables).1 = [] →
     (classify_loop chain cats topic tables).2 = [])
  ∧ ((∀ k table, tables !! k = Some table →
        classify_single_batch chain k table cats topic ≠ NotAList) →
     length (checkpoints (classify_loop chain cats topic tables).1) = length tables).
Proof.
  split; [|split; [|split]].
  - unfold classify_loop. by rewrite classify_loop_checkpoints_from.
  - intros Hne.
    destruct (classify_loop_last_from ({| invocations := []; checkpoints := [] |}, [])
                tables) as [[Hcp _]|Hlast]; [by left| |exact Hlast].
    by destruct Hne.
  - intros Hnil.
    destruct (classify_loop_last_from ({| invocations := []; checkpoints := [] |}, [])
                tables) as [[_ Hres]|Hlast]; [by left|exact Hres|].
    fold (classify_loop chain cats topic tables) in Hlast.
    by rewrite Hnil in Hlast.
  - intros Hlists. unfold classify_loop. by rewrite classify_loop_count_from.
Qed.

End CheckpointFacts.

(** A null entry: the table is sent, nothing is written and the list of
    records is empty. *)
Example null_entry_no_checkpoint :
  classify_loop null_chain [(str "A", str "first category")] (str "reviews")
    [str "| id | text |"]
  = ({| invocations := [{| text_topic := str "reviews";
                           categories := [(str "A", str "first category")];
                           text_table := str "| id | text |" |}];
        checkpoints := [] |}, []).
Proof. reflexivity. Qed.
